(** * The libp2p WebRTC transport: fingerprints, ICE options, dialing, streams

    A shallow embedding of

    - [p2p/transport/webrtc/internal/fingerprint.go]
      ([Fingerprint], [DecodeRemoteFingerprint], [EncodeDTLSFingerprint]),
    - [p2p/transport/webrtc/transport.go]
      ([WithPeerConnectionIceTimeouts], [New], [Dial], [dial],
      [generateNoisePrologue], [noiseHandshake]),
    - the stream reader ([stream.Read], [stream.CloseRead]),

    followed by the properties of these functions.  What these functions
    call in imported libraries (multihash, multibase, varint, base64,
    multiaddr) is modelled after the formats of these libraries; the WebRTC
    engine, the Noise transport, the resource manager and the network
    helpers are records and parameters that give the results of their
    calls.  Logging is left out.

    Go values are modelled as follows: [[]byte] is [list byte], a Go
    [string] is a [string] (a sequence of 8-bit characters), [uint64] and
    [int] are [N] and [time.Duration] is [Z]; a Go [error] is a value of
    the inductive type [error] and a nil error is [None]. *)

From Stdlib Require Import ZArith NArith List String Ascii Lia Bool.
From Stdlib Require Import Strings.Byte.
Import ListNotations.

Set Implicit Arguments.

(* ================================================================== *)
(** * Errors and results *)

(** Go [error] values.  [fmtErrorf format w args] is
    [fmt.Errorf(format, w, args...)] for a format with one [%w]: it is a
    non-nil error whatever [w] is, also when the wrapped operand is nil
    ([w = None]). *)
#[warnings="-register-all"]
Inductive error : Type :=
| io_EOF                                   (* io.EOF *)
| ErrReset                                 (* network.ErrReset *)
| errHashUnavailable                       (* fingerprint.go *)
| errorsNew (msg : string)                 (* errors.New, fmt.Errorf without %w *)
| fmtErrorf (format : string) (wrapped : option error) (args : list string)
| errLib (pkg : string) (msg : string).    (* an error of an imported library *)

(** The result of a Go call returning [(T, error)] that yields a value
    exactly when the error is nil. *)
Inductive result (A : Type) : Type :=
| Ok (a : A)
| Err (e : error).
Arguments Ok {A} a.
Arguments Err {A} e.

(* ================================================================== *)
(** * Bytes *)

Open Scope N_scope.

(** The value of a byte, and Go's conversion [byte(x)] (truncation). *)
Definition byteN (b : byte) : N := Byte.to_N b.

Definition Nbyte (n : N) : byte :=
  match Byte.of_N (n mod 256) with
  | Some b => b
  | None => x00
  end.

Definition len {A} (l : list A) : N := N.of_nat (List.length l).

(** [uint64(x)]: the wrap-around of 64-bit unsigned arithmetic. *)
Definition u64 (n : N) : N := n mod 2 ^ 64.

(* ================================================================== *)
(** * [internal/encoding]: colon-interspersed hex *)

Module encoding.

(** [hex.EncodeToString] digit (lower case). *)
Definition hexDigit (n : N) : ascii :=
  ascii_of_N (if n <? 10 then 48 + n else 87 + n).

(** [hex.fromHexChar]: both cases are accepted. *)
Definition fromHexChar (c : ascii) : option N :=
  let n := N_of_ascii c in
  if (48 <=? n) && (n <=? 57) then Some (n - 48)
  else if (97 <=? n) && (n <=? 102) then Some (n - 87)
  else if (65 <=? n) && (n <=? 70) then Some (n - 55)
  else None.

Definition errUnexpectedIntersperseHexChar : error :=
  errorsNew "unexpected character in interspersed hex string".

Definition hexPair (h l : ascii) : result byte :=
  match fromHexChar h, fromHexChar l with
  | Some hi, Some lo => Ok (Nbyte (N.lor (N.shiftl hi 4) lo))
  | _, _ => Err (errLib "hex" "invalid byte")
  end.

(** Modelled from the spec: the groups of the form [aa:bb:...], one or
    more pairs of hex digits separated by single colons (see
    [DecodeInterspersedHexFromASCIIString] below). *)
Fixpoint decodeGroups (s : string) : result (list byte) :=
  match s with
  | String h (String l rest) =>
      match hexPair h l with
      | Err e => Err e
      | Ok b =>
          match rest with
          | EmptyString => Ok [b]
          | String c rest' =>
              if Ascii.eqb c ":"
              then match decodeGroups rest' with
                   | Ok bs => Ok (b :: bs)
                   | Err e => Err e
                   end
              else Err errUnexpectedIntersperseHexChar
          end
      end
  | _ => Err errUnexpectedIntersperseHexChar
  end.

(** Modelled from the spec: [DecodeInterspersedHexFromASCIIString] of
    [internal/encoding] is not among the sources; it parses the
    [aa:bb:...] form of a fingerprint into the raw bytes.  The empty
    string is the empty digest. *)
Definition DecodeInterspersedHexFromASCIIString (s : string)
  : result (list byte) :=
  match s with
  | EmptyString => Ok []
  | _ => decodeGroups s
  end.

(** Modelled from the spec: the native WebRTC form [aa:bb:cc...] of a
    digest ([EncodeInterspersedHex] of [internal/encoding]). *)
Fixpoint EncodeInterspersedHex (src : list byte) : string :=
  match src with
  | [] => EmptyString
  | b :: rest =>
      let hi := hexDigit (N.shiftr (byteN b) 4) in
      let lo := hexDigit (N.land (byteN b) 15) in
      match rest with
      | [] => String hi (String lo EmptyString)
      | _ :: _ => String hi (String lo (String ":" (EncodeInterspersedHex rest)))
      end
  end.

End encoding.

(* ================================================================== *)
(** * [go-varint]: unsigned LEB128 *)

Module varint.

Definition ErrOverflow : error := errLib "varint" "varints larger than uint63 not supported".
Definition ErrUnderflow : error := errLib "varint" "varints malformed, could not reach the end".
Definition ErrNotMinimal : error := errLib "varint" "varint not minimally encoded".

(** [binary.PutUvarint]: [for x >= 0x80 { byte(x)|0x80; x >>= 7 }; byte(x)].
    A [uint64] takes at most ten bytes, which bounds the loop. *)
Fixpoint putUvarint (fuel : nat) (x : N) : list byte :=
  match fuel with
  | O => []
  | S fuel' =>
      if x <? 128 then [Nbyte x]
      else Nbyte (N.lor x 128) :: putUvarint fuel' (N.shiftr x 7)
  end.

Definition MaxLenUvarint63 : nat := 9.

Definition PutUvarint (x : N) : list byte := putUvarint 10 (u64 x).

(** The loop of [varint.FromUvarint]: [i] is the index of the byte
    looked at, [s] the shift and [x] the value read so far. *)
Fixpoint fromUvarint (i : nat) (s : N) (x : N) (buf : list byte)
  : result (N * nat) :=
  match buf with
  | [] => Err ErrUnderflow
  | b :: rest =>
      if (Nat.eqb i 8 && (128 <=? byteN b)) || Nat.leb MaxLenUvarint63 i
      then Err ErrOverflow
      else if byteN b <? 128 then
        if (byteN b =? 0) && (0 <? s) then Err ErrNotMinimal
        else Ok (N.lor x (u64 (N.shiftl (byteN b) s)), S i)
      else
        fromUvarint (S i) (s + 7)
                    (N.lor x (u64 (N.shiftl (N.land (byteN b) 127) s))) rest
  end.

Definition FromUvarint (buf : list byte) : result (N * nat) :=
  fromUvarint 0 0 0 buf.

End varint.

(* ================================================================== *)
(** * [go-multihash] *)

Module multihash.

Definition IDENTITY : N := 0.
Definition SHA1 : N := 17.          (* 0x11 *)
Definition SHA2_256 : N := 18.      (* 0x12 *)
Definition SHA2_512 : N := 19.      (* 0x13 *)
Definition SHA3_224 : N := 23.      (* 0x17 *)
Definition SHA3_256 : N := 22.      (* 0x16 *)
Definition SHA3_384 : N := 21.      (* 0x15 *)
Definition SHA3_512 : N := 20.      (* 0x14 *)
Definition SHA2_224 : N := 4115.    (* 0x1013 *)
Definition SHA2_384 : N := 32.      (* 0x20 *)
Definition MD5 : N := 213.          (* 0xd5 *)

(** The [Codes] table, for the codes above; a Go map yields the empty
    string elsewhere. *)
Definition Codes (code : N) : string :=
  if code =? IDENTITY then "identity"
  else if code =? SHA1 then "sha1"
  else if code =? SHA2_256 then "sha2-256"
  else if code =? SHA2_512 then "sha2-512"
  else if code =? SHA3_224 then "sha3-224"
  else if code =? SHA3_256 then "sha3-256"
  else if code =? SHA3_384 then "sha3-384"
  else if code =? SHA3_512 then "sha3-512"
  else if code =? SHA2_224 then "sha2-224"
  else if code =? SHA2_384 then "sha2-384"
  else if code =? MD5 then "md5"
  else "".

Record DecodedMultihash : Type := {
  Code : N;
  Name : string;
  Length : N;
  Digest : list byte
}.

Definition ErrTooShort : error := errLib "multihash" "multihash too short. must be >= 2 bytes".
Definition ErrVarintBufferShort : error := errLib "multihash" "uvarint: buffer too small".
Definition ErrInconsistentLen : error := errLib "multihash" "multihash length inconsistent".
Definition ErrLenTooLarge : error := errLib "multihash" "digest too long, supporting only <= 2^31-1".
Definition ErrLenRemaining : error :=
  errLib "multihash" "length greater than remaining number of bytes in buffer".

Definition MaxInt32 : N := 2147483647.

(** [Encode(buf, code)]: [<varint code><varint length><digest>]; the
    length is that of [buf], whatever the code. *)
Definition Encode (buf : list byte) (code : N) : result (list byte) :=
  Ok (varint.PutUvarint code ++ varint.PutUvarint (len buf) ++ buf).

(** The helper [uvarint]: a varint and the rest of the buffer. *)
Definition uvarint (buf : list byte) : result (N * list byte) :=
  match varint.FromUvarint buf with
  | Err e => Err e
  | Ok (n, c) =>
      if Nat.eqb c 0 then Err ErrVarintBufferShort
      else Ok (n, skipn c buf)
  end.

(** [readMultihashFromBuf]: the advertised size, the code and the digest. *)
Definition readMultihashFromBuf (buf : list byte)
  : result (N * N * list byte) :=
  let initBufLength := len buf in
  if initBufLength <? 2 then Err ErrTooShort
  else
    match uvarint buf with
    | Err e => Err e
    | Ok (code, buf1) =>
        match uvarint buf1 with
        | Err e => Err e
        | Ok (length, buf2) =>
            if MaxInt32 <? length then Err ErrLenTooLarge
            else if len buf2 <? length then Err ErrLenRemaining
            else
              let rlen := (initBufLength - len buf2) + length in
              Ok (rlen, code, firstn (N.to_nat length) buf2)
        end
    end.

Definition Decode (buf : list byte) : result DecodedMultihash :=
  match readMultihashFromBuf buf with
  | Err e => Err e
  | Ok (rlen, code, hdig) =>
      if negb (rlen =? len buf) then Err ErrInconsistentLen
      else Ok {| Code := code; Name := Codes code;
                 Length := len hdig; Digest := hdig |}
  end.

End multihash.

(* ================================================================== *)
(** * [encoding/base64] ([RawURLEncoding]) and [go-multibase] *)

Module base64.

(** The URL alphabet [A-Z a-z 0-9 - _]. *)
Definition encodeChar (n : N) : ascii :=
  ascii_of_N (if n <? 26 then 65 + n
              else if n <? 52 then 71 + n
              else if n <? 62 then n - 4
              else if n =? 62 then 45
              else 95).

Definition decodeChar (c : ascii) : option N :=
  let n := N_of_ascii c in
  if (65 <=? n) && (n <=? 90) then Some (n - 65)
  else if (97 <=? n) && (n <=? 122) then Some (n - 71)
  else if (48 <=? n) && (n <=? 57) then Some (n + 4)
  else if n =? 45 then Some 62
  else if n =? 95 then Some 63
  else None.

Definition CorruptInputError : error := errLib "base64" "illegal base64 data".

(** [RawURLEncoding.EncodeToString]: three bytes give four characters;
    a remainder of one or two bytes gives two or three, without padding. *)
Fixpoint EncodeToString (src : list byte) : string :=
  match src with
  | [] => EmptyString
  | [b0] =>
      let val := N.shiftl (byteN b0) 16 in
      String (encodeChar (N.land (N.shiftr val 18) 63))
        (String (encodeChar (N.land (N.shiftr val 12) 63)) EmptyString)
  | [b0; b1] =>
      let val := N.lor (N.shiftl (byteN b0) 16) (N.shiftl (byteN b1) 8) in
      String (encodeChar (N.land (N.shiftr val 18) 63))
        (String (encodeChar (N.land (N.shiftr val 12) 63))
           (String (encodeChar (N.land (N.shiftr val 6) 63)) EmptyString))
  | b0 :: b1 :: b2 :: rest =>
      let val := N.lor (N.lor (N.shiftl (byteN b0) 16) (N.shiftl (byteN b1) 8))
                       (byteN b2) in
      String (encodeChar (N.land (N.shiftr val 18) 63))
        (String (encodeChar (N.land (N.shiftr val 12) 63))
           (String (encodeChar (N.land (N.shiftr val 6) 63))
              (String (encodeChar (N.land val 63)) (EncodeToString rest))))
  end.

(** The decoder skips carriage returns and line feeds. *)
Fixpoint stripNewlines (s : string) : string :=
  match s with
  | EmptyString => EmptyString
  | String c rest =>
      if Ascii.eqb c "010" || Ascii.eqb c "013" then stripNewlines rest
      else String c (stripNewlines rest)
  end.

Definition quantum (d0 d1 d2 d3 : N) : N :=
  N.lor (N.lor (N.lor (N.shiftl d0 18) (N.shiftl d1 12)) (N.shiftl d2 6)) d3.

(** The quanta of the decoder: four characters give three bytes, a last
    group of three or two characters gives two or one byte (the unused
    low bits are not checked: the encoding is not strict), a last group
    of one character is corrupt. *)
Fixpoint decodeQuanta (s : string) : result (list byte) :=
  match s with
  | EmptyString => Ok []
  | String c0 EmptyString => Err CorruptInputError
  | String c0 (String c1 EmptyString) =>
      match decodeChar c0, decodeChar c1 with
      | Some d0, Some d1 =>
          let val := quantum d0 d1 0 0 in
          Ok [Nbyte (N.shiftr val 16)]
      | _, _ => Err CorruptInputError
      end
  | String c0 (String c1 (String c2 EmptyString)) =>
      match decodeChar c0, decodeChar c1, decodeChar c2 with
      | Some d0, Some d1, Some d2 =>
          let val := quantum d0 d1 d2 0 in
          Ok [Nbyte (N.shiftr val 16); Nbyte (N.shiftr val 8)]
      | _, _, _ => Err CorruptInputError
      end
  | String c0 (String c1 (String c2 (String c3 rest))) =>
      match decodeChar c0, decodeChar c1, decodeChar c2, decodeChar c3 with
      | Some d0, Some d1, Some d2, Some d3 =>
          let val := quantum d0 d1 d2 d3 in
          match decodeQuanta rest with
          | Ok bs => Ok (Nbyte (N.shiftr val 16) :: Nbyte (N.shiftr val 8)
                           :: Nbyte val :: bs)
          | Err e => Err e
          end
      | _, _, _, _ => Err CorruptInputError
      end
  end.

Definition DecodeString (s : string) : result (list byte) :=
  decodeQuanta (stripNewlines s).

End base64.

Module multibase.

(** [multibase.Encoding], the first character of an encoded string.
    Only the identity and base64url encodings are modelled: every other
    base is reported as unsupported. *)
Inductive Encoding : Type :=
| Identity                    (* 0x00 *)
| Base64url                   (* 'u' *)
| Unsupported (c : ascii).

Definition ErrUnsupportedEncoding : error :=
  errLib "multibase" "selected encoding not supported".

Definition encodingOf (c : ascii) : Encoding :=
  if Ascii.eqb c "000" then Identity
  else if Ascii.eqb c "u" then Base64url
  else Unsupported c.

Definition Encode (base : Encoding) (data : list byte) : result string :=
  match base with
  | Identity => Ok (String "000" (string_of_list_byte data))
  | Base64url => Ok (String "u" (base64.EncodeToString data))
  | Unsupported _ => Err ErrUnsupportedEncoding
  end.

Definition Decode (data : string) : result (Encoding * list byte) :=
  match data with
  | EmptyString =>
      Err (errorsNew "cannot decode multibase for zero length string")
  | String c rest =>
      match encodingOf c with
      | Identity => Ok (Identity, list_byte_of_string rest)
      | Base64url =>
          match base64.DecodeString rest with
          | Ok bytes => Ok (Base64url, bytes)
          | Err e => Err e
          end
      | Unsupported _ => Err ErrUnsupportedEncoding
      end
  end.

End multibase.

(* ================================================================== *)
(** * [go-multiaddr] *)

Module ma.

Definition P_IP4 : N := 4.
Definition P_UDP : N := 273.        (* 0x0111 *)
Definition P_WEBRTC : N := 280.     (* 0x0118 *)
Definition P_CERTHASH : N := 466.   (* 0x01D2 *)

(** A component: the protocol code and the value in its string form
    (what [Component.Value] returns). *)
Record Component : Type := {
  Protocol : N;
  Value : string
}.

(** A multiaddress is the sequence of its components. *)
Definition Multiaddr : Type := list Component.

Definition ErrProtocolNotFound : error := errLib "multiaddr" "protocol not found in multiaddr".

(** [ValueForProtocol]: the value of the first component of that protocol. *)
Fixpoint ValueForProtocol (m : Multiaddr) (code : N) : result string :=
  match m with
  | [] => Err ErrProtocolNotFound
  | c :: rest =>
      if Protocol c =? code then Ok (Value c)
      else ValueForProtocol rest code
  end.

Definition Encapsulate (m o : Multiaddr) : Multiaddr := m ++ o.

(** The certhash transcoder: string to bytes is a multibase decoding (of
    any base) of a well-formed multihash, bytes to string is base64url. *)
Definition certHashStB (s : string) : result (list byte) :=
  match multibase.Decode s with
  | Err e => Err e
  | Ok (_, data) =>
      match multihash.Decode data with
      | Err e => Err e
      | Ok _ => Ok data
      end
  end.

Definition certHashBtS (b : list byte) : result string :=
  multibase.Encode multibase.Base64url b.

(** [ma.NewMultiaddr("/webrtc/certhash/" + s)]: the value is parsed to
    bytes by the transcoder and kept in binary form, so that its string
    form is the transcoder's rendering of these bytes. *)
Definition NewMultiaddr_webrtc_certhash (s : string) : result Multiaddr :=
  match certHashStB s with
  | Err e => Err e
  | Ok data =>
      match certHashBtS data with
      | Err e => Err e
      | Ok v => Ok [ {| Protocol := P_WEBRTC; Value := EmptyString |};
                     {| Protocol := P_CERTHASH; Value := v |} ]
      end
  end.

End ma.

(* ================================================================== *)
(** * [crypto] hashes and certificates *)

(** [crypto.Hash]. *)
Inductive Hash : Type :=
| MD4 | MD5 | SHA1 | SHA224 | SHA256 | SHA384 | SHA512 | MD5SHA1
| RIPEMD160 | SHA3_224 | SHA3_256 | SHA3_384 | SHA3_512
| SHA512_224 | SHA512_256
| BLAKE2s_256 | BLAKE2b_256 | BLAKE2b_384 | BLAKE2b_512.

(** [Hash.Size]: the length in bytes of a digest. *)
Definition Size (h : Hash) : nat :=
  match h with
  | MD4 => 16 | MD5 => 16 | SHA1 => 20 | SHA224 => 28 | SHA256 => 32
  | SHA384 => 48 | SHA512 => 64 | MD5SHA1 => 36 | RIPEMD160 => 20
  | SHA3_224 => 28 | SHA3_256 => 32 | SHA3_384 => 48 | SHA3_512 => 64
  | SHA512_224 => 28 | SHA512_256 => 32
  | BLAKE2s_256 => 32 | BLAKE2b_256 => 32 | BLAKE2b_384 => 48
  | BLAKE2b_512 => 64
  end%nat.

(** The hash implementations linked into the binary: [Available] and the
    digest [h.New(); h.Write(data); h.Sum(nil)]. *)
Record HashSuite : Type := {
  Available : Hash -> bool;
  Sum : Hash -> list byte -> list byte
}.

(** Digests have the size of their algorithm. *)
Definition sized (hs : HashSuite) : Prop :=
  forall h data, List.length (Sum hs h data) = Size h.

(** [x509.Certificate]: [Raw] is the complete DER encoding. *)
Record Certificate : Type := {
  Raw : list byte
}.

(** [webrtc.DTLSFingerprint]: the algorithm name (as in SDP, [sha-256])
    and the value in the form [aa:bb:...]. *)
Record DTLSFingerprint : Type := {
  Algorithm : string;
  Value : string
}.

(* ================================================================== *)
(** * [internal/fingerprint.go] *)

Module internal.

(** [Fingerprint(cert, algo)]. *)
Definition Fingerprint (hs : HashSuite) (cert : Certificate) (algo : Hash)
  : result (list byte) :=
  if negb (Available hs algo) then Err errHashUnavailable
  else Ok (Sum hs algo (Raw cert)).

(** [DecodeRemoteFingerprint(maddr)]. *)
Definition DecodeRemoteFingerprint (maddr : ma.Multiaddr)
  : result multihash.DecodedMultihash :=
  match ma.ValueForProtocol maddr ma.P_CERTHASH with
  | Err err => Err err
  | Ok remoteFingerprintMultibase =>
      match multibase.Decode remoteFingerprintMultibase with
      | Err err => Err err
      | Ok (_, data) => multihash.Decode data
      end
  end.

(** [EncodeDTLSFingerprint(fp)]. *)
Definition EncodeDTLSFingerprint (fp : DTLSFingerprint) : result string :=
  match encoding.DecodeInterspersedHexFromASCIIString (Value fp) with
  | Err err => Err err
  | Ok digest =>
      match multihash.Encode digest multihash.SHA2_256 with
      | Err err => Err err
      | Ok encoded => multibase.Encode multibase.Base64url encoded
      end
  end.

End internal.

(* ================================================================== *)
(** * The collaborators of the transport

    The WebRTC engine, the Noise transport, the resource manager and the
    network helpers are outside the transport.  Their objects are records
    whose fields give the results of the methods the transport calls; the
    calls that matter to the outside are recorded as events. *)

Definition PeerID : Type := string.          (* peer.ID *)
Definition PrivKey : Type := list byte.      (* ic.PrivKey *)
Definition PubKey : Type := list byte.       (* ic.PubKey *)
Definition PSK : Type := list byte.          (* pnet.PSK, nil is [None] *)
Definition ConnectionGater : Type := N.      (* connmgr.ConnectionGater *)

Inductive Direction : Type := DirInbound | DirOutbound.

(** A slice that the code indexes at [0] without a test and that its
    producer never leaves empty: its first element and the others. *)
Record nonempty (A : Type) : Type := {
  first : A;
  others : list A
}.

(** [webrtc.Certificate]: the X.509 certificate and what
    [GetFingerprints] returns for it (one fingerprint for each algorithm
    of the engine). *)
Record WebrtcCertificate : Type := {
  x509Cert : Certificate;
  GetFingerprints : result (nonempty DTLSFingerprint)
}.

(** [webrtc.Configuration]: [New] gives the transport one certificate. *)
Record Configuration : Type := {
  Certificates : nonempty WebrtcCertificate
}.

(** [network.ConnManagementScope]. *)
Record ConnManagementScope : Type := {
  scopeId : N;
  SetPeer : PeerID -> option error
}.

(** [network.ResourceManager]. *)
Record ResourceManager : Type := {
  OpenConnection : Direction -> bool -> ma.Multiaddr -> result ConnManagementScope
}.

(** [webrtc.ICECandidatePair], the local candidate only. *)
Record CandidatePair : Type := {
  LocalAddress : string;
  LocalPort : N
}.

(** [webrtc.DataChannel]. *)
Record DataChannel : Type := {
  dcLabel : string;
  dcNegotiated : bool;
  dcID : N;
  (* Transport().Transport().ICETransport().GetSelectedCandidatePair() *)
  GetSelectedCandidatePair : option CandidatePair * option error
}.

(** [webrtc.SessionDescription]. *)
Inductive SDPType : Type := SDPTypeOffer | SDPTypeAnswer.
Record SessionDescription : Type := {
  SDP : string;
  SDType : SDPType
}.

(** [webrtc.PeerConnection]. *)
Record PeerConnection : Type := {
  pcId : N;
  CreateDataChannel : string -> bool -> N -> result DataChannel;
  CreateOffer : result SessionDescription;
  SetLocalDescription : SessionDescription -> option error;
  SetRemoteDescription : SessionDescription -> option error;
  (* SCTP().Transport().GetRemoteCertificate() *)
  GetRemoteCertificate : list byte
}.

(** [webrtc.SettingEngine], as [dial] configures it. *)
Record SettingEngine : Type := {
  seUfrag : string;
  sePwd : string;
  seDetachDataChannels : bool;
  seDisconnectedTimeout : Z;
  seFailedTimeout : Z;
  seKeepAliveInterval : Z
}.

(** [net.UDPAddr]. *)
Record UDPAddr : Type := {
  udpIP : string;
  udpPort : N
}.

(** [context.Context]: the value under the key ["id"]. *)
Record Context : Type := {
  ctxId : string
}.

(** A detached data channel ([datachannel.ReadWriteCloser]). *)
Definition Detached : Type := N.

(** Modelled from the spec: the type [webRTCStream] and [newStream] are not
    among the sources; the stream wraps the detached handshake channel
    and carries the local and remote addresses. *)
Record webRTCStream : Type := {
  streamChannel : DataChannel;
  streamDetached : Detached;
  streamLaddr : UDPAddr;
  streamRaddr : UDPAddr
}.

Definition newStream (rawChannel : DataChannel) (detached : Detached)
           (laddr raddr : UDPAddr) : webRTCStream :=
  {| streamChannel := rawChannel; streamDetached := detached;
     streamLaddr := laddr; streamRaddr := raddr |}.

(** [sec.SecureConn]. *)
Record SecureConn : Type := {
  RemotePublicKey : PubKey
}.

(** The results [(sec.SecureConn, error)] of securing a connection: a
    connection and no error, or an error (with or without a connection). *)
Inductive SecureOutcome : Type :=
| Secured (secureConn : SecureConn)
| SecureFailed (secureConn : option SecureConn) (err : error).

(** [noise.SessionOption]. *)
Inductive SessionOption : Type :=
| Prologue (prologue : list byte)
| DisablePeerIDCheck.

(** [noise.SessionTransport]: [SecureInbound(ctx, insecure, p)] and
    [SecureOutbound(ctx, insecure, p)]; the connection the transport
    secures is the stream over the handshake data channel. *)
Record SessionTransport : Type := {
  sessionOptions : list SessionOption;
  SecureInbound : Context -> webRTCStream -> PeerID -> SecureOutcome;
  SecureOutbound : Context -> webRTCStream -> PeerID -> SecureOutcome
}.

(** [noise.Transport]. *)
Record NoiseTransport : Type := {
  WithSessionOptions : list SessionOption -> result SessionTransport
}.

(** What the [select] of [dial] receives first. *)
Inductive OpenSignal : Type :=
| FromErrC (err : option error)     (* case err := <-errC *)
| CtxDone.                          (* case <-ctx.Done() *)

(** The events the transport causes outside itself. *)
Inductive event : Type :=
| EvOpenConnection (scope : N)
| EvScopeDone (scope : N)            (* scope.Done() *)
| EvNewPeerConnection (pc : N)
| EvPcClose (pc : N)                 (* pc.Close() *)
| EvConnClose (pc : N)               (* tConn.Close() *)
| EvSecureInbound (prologue : list byte) (p : PeerID)
| EvSecureOutbound (prologue : list byte) (p : PeerID).

(* ================================================================== *)
(** * [p2p/transport/webrtc/transport.go] *)

Module libp2pwebrtc.

Local Open Scope Z_scope.

Definition handshakeChannelNegotiated : bool := true.
Definition handshakeChannelId : N := 0%N.

(** [time.Duration] counts nanoseconds. *)
Definition Second : Z := 1000000000.
Definition DefaultDisconnectedTimeout : Z := 5 * Second.
Definition DefaultFailedTimeout : Z := 25 * Second.
Definition DefaultKeepaliveTimeout : Z := 2 * Second.

Record IceTimeouts : Type := {
  Disconnect : Z;
  Failed : Z;
  Keepalive : Z
}.

Record WebRTCTransport : Type := {
  webrtcConfig : Configuration;
  rcmgr : ResourceManager;
  privKey : PrivKey;
  noiseTpt : NoiseTransport;
  localPeerId : PeerID;
  peerConnectionTimeouts : IceTimeouts;
  maxInFlightConnections : N
}.

Definition set_peerConnectionTimeouts (t : WebRTCTransport) (v : IceTimeouts)
  : WebRTCTransport :=
  {| webrtcConfig := webrtcConfig t; rcmgr := rcmgr t; privKey := privKey t;
     noiseTpt := noiseTpt t; localPeerId := localPeerId t;
     peerConnectionTimeouts := v;
     maxInFlightConnections := maxInFlightConnections t |}.

Definition set_maxInFlightConnections (t : WebRTCTransport) (m : N)
  : WebRTCTransport :=
  {| webrtcConfig := webrtcConfig t; rcmgr := rcmgr t; privKey := privKey t;
     noiseTpt := noiseTpt t; localPeerId := localPeerId t;
     peerConnectionTimeouts := peerConnectionTimeouts t;
     maxInFlightConnections := m |}.

(** The type [Option] of functions from a transport pointer to an error:
    the transport after the call and the error. *)
Definition Option : Type := WebRTCTransport -> WebRTCTransport * option error.

(** The body of the closure that [WithPeerConnectionIceTimeouts] returns.
    The closure assigns to [timeouts], its captured copy of the argument:
    the first result is the value of this variable after the call. *)
Definition iceTimeoutsOption (timeouts : IceTimeouts) (t : WebRTCTransport)
  : IceTimeouts * (WebRTCTransport * option error) :=
  let timeouts :=
    if Disconnect timeouts =? 0
    then {| Disconnect := Disconnect (peerConnectionTimeouts t);
            Failed := Failed timeouts; Keepalive := Keepalive timeouts |}
    else timeouts in
  let timeouts :=
    if Failed timeouts =? 0
    then {| Disconnect := Disconnect timeouts;
            Failed := Failed (peerConnectionTimeouts t);
            Keepalive := Keepalive timeouts |}
    else timeouts in
  let timeouts :=
    if Keepalive timeouts =? 0
    then {| Disconnect := Disconnect timeouts; Failed := Failed timeouts;
            Keepalive := Keepalive (peerConnectionTimeouts t) |}
    else timeouts in
  (timeouts,
   if negb (Disconnect timeouts =? 0)
      && (negb (Failed timeouts =? 0)
          && (Failed timeouts <? Disconnect timeouts))
   then (t, Some (errorsNew "disconnect timeout cannot be greater than failed timeout"))
   else if negb (Disconnect timeouts =? 0)
           && (negb (Keepalive timeouts =? 0)
               && (Disconnect timeouts <=? Keepalive timeouts))
   then (t, Some (errorsNew "keepalive timeout cannot be greater than or equal to failed timeout"))
   else (set_peerConnectionTimeouts t timeouts, None)).

(** [WithPeerConnectionIceTimeouts(timeouts)]: the option, at its first
    call ([New] calls each of its options once). *)
Definition WithPeerConnectionIceTimeouts (timeouts : IceTimeouts) : Option :=
  fun t => snd (iceTimeoutsOption timeouts t).

(** [WithListenerMaxInFlightConnections(m)]. *)
Definition WithListenerMaxInFlightConnections (m : N) : Option :=
  fun t => (set_maxInFlightConnections t m, None).

(** What [New] calls outside the transport. *)
Record NewWorld : Type := {
  IDFromPrivateKey : PrivKey -> result PeerID;
  ecdsa_GenerateKey : result (list byte);
  webrtc_GenerateCertificate : list byte -> result WebrtcCertificate;
  noise_New : PrivKey -> result NoiseTransport;
  (* the constant is declared in another file of the package *)
  DefaultMaxInFlightConnections : N
}.

(** [for _, opt := range opts]. *)
Fixpoint applyOptions (opts : list Option) (transport : WebRTCTransport)
  : option WebRTCTransport * option error :=
  match opts with
  | [] => (Some transport, None)
  | opt :: rest =>
      match opt transport with
      | (_, Some err) => (None, Some err)
      | (transport', None) => applyOptions rest transport'
      end
  end.

(** [New(privKey, psk, gater, rcmgr, opts...)]. *)
Definition New (w : NewWorld) (privKey : PrivKey) (psk : option PSK)
           (gater : ConnectionGater) (rcmgr : ResourceManager)
           (opts : list Option)
  : option WebRTCTransport * option error :=
  match psk with
  | Some _ => (None, Some (errorsNew "WebRTC doesn't support private networks yet"))
  | None =>
      match IDFromPrivateKey w privKey with
      | Err err => (None, Some (fmtErrorf "get local peer ID: %w" (Some err) []))
      | Ok localPeerId =>
          match ecdsa_GenerateKey w with
          | Err err => (None, Some (fmtErrorf "generate key for cert: %w" (Some err) []))
          | Ok pk =>
              match webrtc_GenerateCertificate w pk with
              | Err err => (None, Some (fmtErrorf "generate certificate: %w" (Some err) []))
              | Ok cert =>
                  let config :=
                    {| Certificates := {| first := cert; others := [] |} |} in
                  match noise_New w privKey with
                  | Err err =>
                      (None, Some (fmtErrorf "unable to create noise transport: %w" (Some err) []))
                  | Ok noiseTpt =>
                      let transport :=
                        {| rcmgr := rcmgr;
                           webrtcConfig := config;
                           privKey := privKey;
                           noiseTpt := noiseTpt;
                           localPeerId := localPeerId;
                           peerConnectionTimeouts :=
                             {| Disconnect := DefaultDisconnectedTimeout;
                                Failed := DefaultFailedTimeout;
                                Keepalive := DefaultKeepaliveTimeout |};
                           maxInFlightConnections :=
                             DefaultMaxInFlightConnections w |} in
                      applyOptions opts transport
                  end
              end
          end
      end
  end.

(* ---------------------------------------------------------------- *)
(** ** Dialing *)

(** Modelled from the spec: the type [connection] is not among the sources;
    a connection owns a peer connection and a resource-manager scope, and
    has the local and remote multiaddresses and peer IDs and the remote
    public key, known only after Noise completes. *)
Record connection : Type := {
  connDirection : Direction;
  connPc : PeerConnection;
  connScope : ConnManagementScope;
  connLocalPeer : PeerID;
  connPrivKey : PrivKey;
  connLocalMultiaddr : ma.Multiaddr;
  connRemotePeer : PeerID;
  connRemoteKey : option PubKey;
  connRemoteMultiaddr : ma.Multiaddr
}.

(** Modelled from the spec: [setRemotePublicKey] sets the remote public
    key of the connection at Noise success. *)
Definition setRemotePublicKey (c : connection) (key : PubKey) : connection :=
  {| connDirection := connDirection c; connPc := connPc c;
     connScope := connScope c; connLocalPeer := connLocalPeer c;
     connPrivKey := connPrivKey c;
     connLocalMultiaddr := connLocalMultiaddr c;
     connRemotePeer := connRemotePeer c;
     connRemoteKey := Some key;
     connRemoteMultiaddr := connRemoteMultiaddr c |}.

(** Modelled from the spec: [connection.Close] is not among the sources;
    closing the connection closes its streams and releases the
    resource-manager scope ([scope.Done]). *)
Definition connection_Close (c : connection) (tr : list event) : list event :=
  tr ++ [EvConnClose (pcId (connPc c)); EvScopeDone (scopeId (connScope c))].

(** What [dial] and the handshake call outside the transport. *)
Record World : Type := {
  hashes : HashSuite;
  (* x509.ParseCertificate: the error for an encoding it rejects *)
  x509_reject : list byte -> option error;
  (* internal.GetSupportedSDPHash: the table is in another file *)
  GetSupportedSDPHash : N -> option Hash;
  DialArgs : ma.Multiaddr -> result (string * string);
  ResolveUDPAddr : string -> string -> result UDPAddr;
  GenUfrag : nat -> string;
  NewPeerConnection : SettingEngine -> Configuration -> result PeerConnection;
  (* internal.AwaitPeerConnectionOpen and the select on it *)
  awaitOpen : string -> PeerConnection -> Context -> OpenSignal;
  RenderServerSdp :
    UDPAddr -> string -> multihash.DecodedMultihash -> result string;
  GetDetachedChannel : Context -> DataChannel -> result Detached;
  FromNetAddr : UDPAddr -> result ma.Multiaddr;
  (* newConnection: the error when it fails *)
  newConnectionError : PeerConnection -> option error
}.

(** [x509.ParseCertificate(raw)]: the certificate keeps its encoding. *)
Definition ParseCertificate (w : World) (raw : list byte) : result Certificate :=
  match x509_reject w raw with
  | Some err => Err err
  | None => Ok {| Raw := raw |}
  end.

(** Modelled from the spec: [newConnection] is not among the sources; it
    constructs the connection, its remote public key unknown, bound to
    the resource-manager scope. *)
Definition newConnection (w : World) (direction : Direction)
           (pc : PeerConnection) (t : WebRTCTransport)
           (scope : ConnManagementScope) (localPeer : PeerID)
           (privKey : PrivKey) (localMultiaddr : ma.Multiaddr)
           (remotePeer : PeerID) (remoteKey : option PubKey)
           (remoteMultiaddr : ma.Multiaddr) : result connection :=
  match newConnectionError w pc with
  | Some err => Err err
  | None =>
      Ok {| connDirection := direction; connPc := pc; connScope := scope;
            connLocalPeer := localPeer; connPrivKey := privKey;
            connLocalMultiaddr := localMultiaddr;
            connRemotePeer := remotePeer; connRemoteKey := remoteKey;
            connRemoteMultiaddr := remoteMultiaddr |}
  end.

(** [getCertificateFingerprint]. *)
Definition getCertificateFingerprint (t : WebRTCTransport)
  : result DTLSFingerprint :=
  match GetFingerprints (first (Certificates (webrtcConfig t))) with
  | Err err => Err err
  | Ok fps => Ok (first fps)
  end.

Notation "x <-? c ;; k" :=
  (match c with Err err => Err err | Ok x => k end)
    (at level 61, c at next level, right associativity, only parsing).

(** [generateNoisePrologue(pc, hash, inbound)]. *)
Definition generateNoisePrologue (w : World) (t : WebRTCTransport)
           (pc : PeerConnection) (hash : Hash) (inbound : bool)
  : result (list byte) :=
  let raw := GetRemoteCertificate pc in
  cert <-? ParseCertificate w raw ;;
  localFp <-? getCertificateFingerprint t ;;
  remoteFpBytes <-? internal.Fingerprint (hashes w) cert hash ;;
  localFpBytes <-?
    encoding.DecodeInterspersedHexFromASCIIString (Value localFp) ;;
  localEncoded <-? multihash.Encode localFpBytes multihash.SHA2_256 ;;
  remoteEncoded <-? multihash.Encode remoteFpBytes multihash.SHA2_256 ;;
  let result := list_byte_of_string "libp2p-webrtc-noise:" in
  if inbound
  then Ok ((result ++ remoteEncoded) ++ localEncoded)
  else Ok ((result ++ localEncoded) ++ remoteEncoded).

(** [noiseHandshake(ctx, pc, datachannel, peer, hash, inbound)]: the
    results of the Go function, and the events added to the trace. *)
Definition noiseHandshake (w : World) (t : WebRTCTransport) (ctx : Context)
           (pc : PeerConnection) (datachannel : webRTCStream)
           (peer : PeerID) (hash : Hash) (inbound : bool)
           (tr : list event)
  : SecureOutcome * list event :=
  match generateNoisePrologue w t pc hash inbound with
  | Err err => (SecureFailed None (fmtErrorf "generate prologue: %w" (Some err) []), tr)
  | Ok prologue =>
      match WithSessionOptions (noiseTpt t)
                               [Prologue prologue; DisablePeerIDCheck] with
      | Err err =>
          (SecureFailed None (fmtErrorf "instantiate transport: %w" (Some err) []), tr)
      | Ok sessionTransport =>
          if inbound then
            let tr := tr ++ [EvSecureOutbound prologue peer] in
            match SecureOutbound sessionTransport ctx datachannel peer with
            | SecureFailed secureConn err =>
                (SecureFailed secureConn
                   (fmtErrorf "failed to secure inbound [noise outbound]: %w %v"
                              (Some err) [ctxId ctx]), tr)
            | Secured secureConn => (Secured secureConn, tr)
            end
          else
            let tr := tr ++ [EvSecureInbound prologue peer] in
            match SecureInbound sessionTransport ctx datachannel peer with
            | SecureFailed secureConn err =>
                (SecureFailed secureConn
                   (fmtErrorf "failed to secure outbound [noise inbound]: %w %v"
                              (Some err) [ctxId ctx]), tr)
            | Secured secureConn => (Secured secureConn, tr)
            end
      end
  end.

(** The state of [dial]: the trace and the variable [pc]. *)
Record DialSt : Type := {
  trace : list event;
  pc : option PeerConnection
}.

(** A step of the body either goes on with a value or executes a
    [return] with the results of [dial]. *)
Definition DialResult : Type := option connection * option error.

Inductive Outcome (A : Type) : Type :=
| Next (a : A)
| Return (r : DialResult).
Arguments Next {A} a.
Arguments Return {A} r.

Definition M (A : Type) : Type := DialSt -> Outcome A * DialSt.

Definition ret {A} (a : A) : M A := fun st => (Next a, st).

Definition bind {A B} (m : M A) (k : A -> M B) : M B :=
  fun st =>
    match m st with
    | (Next a, st') => k a st'
    | (Return r, st') => (Return r, st')
    end.

Definition goReturn {A} (tConn : option connection) (err : option error) : M A :=
  fun st => (Return (tConn, err), st).

Definition emit (e : event) : M unit :=
  fun st => (Next tt, {| trace := trace st ++ [e]; pc := pc st |}).

Definition setPc (v : option PeerConnection) : M unit :=
  fun st => (Next tt, {| trace := trace st; pc := v |}).

Definition liftTrace {A} (f : list event -> A * list event) : M A :=
  fun st => let '(a, tr) := f (trace st) in
            (Next a, {| trace := tr; pc := pc st |}).

(** [x, err := f(); if err != nil { return nil, fmt.Errorf(format, err) }]. *)
Definition orWrap {A} (r : result A) (format : string) : M A :=
  match r with
  | Ok a => ret a
  | Err err => goReturn None (Some (fmtErrorf format (Some err) []))
  end.

(** [x, err := f(); if err != nil { return nil, err }]. *)
Definition orFail {A} (r : result A) : M A :=
  match r with
  | Ok a => ret a
  | Err err => goReturn None (Some err)
  end.

(** [err = f(); if err != nil { return nil, fmt.Errorf(format, err) }]. *)
Definition checkWrap (e : option error) (format : string) : M unit :=
  match e with
  | None => ret tt
  | Some err => goReturn None (Some (fmtErrorf format (Some err) []))
  end.

Notation "x <- c ;; k" := (bind c (fun x => k))
  (at level 61, c at next level, right associativity, only parsing).
Notation "c ;;; k" := (bind c (fun _ => k))
  (at level 61, right associativity, only parsing).

(** The body of [dial], up to its [return] statements. *)
Definition dialBody (w : World) (t : WebRTCTransport) (ctx : Context)
           (scope : ConnManagementScope) (remoteMultiaddr : ma.Multiaddr)
           (p : PeerID) : M DialResult :=
  remoteMultihash <-
    orWrap (internal.DecodeRemoteFingerprint remoteMultiaddr)
           "decode fingerprint: %w" ;;
  remoteHashFunction <-
    match GetSupportedSDPHash w (multihash.Code remoteMultihash) with
    | Some h => ret h
    | None => goReturn None (Some (fmtErrorf "unsupported hash function: %w" None []))
    end ;;
  dialArgs <- orWrap (DialArgs w remoteMultiaddr) "generate dial args: %w" ;;
  raddr <- orWrap (ResolveUDPAddr w (fst dialArgs) (snd dialArgs))
                  "resolve udp address: %w" ;;
  let ufrag := GenUfrag w 32 in
  let settingEngine :=
    {| seUfrag := ufrag; sePwd := ufrag; seDetachDataChannels := true;
       seDisconnectedTimeout := Disconnect (peerConnectionTimeouts t);
       seFailedTimeout := Failed (peerConnectionTimeouts t);
       seKeepAliveInterval := Keepalive (peerConnectionTimeouts t) |} in
  pc <-
    match NewPeerConnection w settingEngine (webrtcConfig t) with
    | Err err =>                      (* the engine returns a nil pc *)
        setPc None ;;;
        goReturn None (Some (fmtErrorf "instantiate peerconnection: %w" (Some err) []))
    | Ok pc =>
        setPc (Some pc) ;;; emit (EvNewPeerConnection (pcId pc)) ;;; ret pc
    end ;;
  rawHandshakeChannel <-
    orWrap (CreateDataChannel pc "" handshakeChannelNegotiated handshakeChannelId)
           "create datachannel: %w" ;;
  offer <- orWrap (CreateOffer pc) "create offer: %w" ;;
  checkWrap (SetLocalDescription pc offer) "set local description: %w" ;;;
  answerSdpString <-
    orWrap (RenderServerSdp w raddr ufrag remoteMultihash) "render server SDP: %w" ;;
  let answer := {| SDP := answerSdpString; SDType := SDPTypeAnswer |} in
  checkWrap (SetRemoteDescription pc answer) "set remote description: %w" ;;;
  match awaitOpen w ufrag pc ctx with
  | FromErrC (Some err) => goReturn None (Some err)
  | FromErrC None => ret tt
  | CtxDone => goReturn None (Some (errorsNew "peerconnection opening timed out"))
  end ;;;
  detached <- orFail (GetDetachedChannel w ctx rawHandshakeChannel) ;;
  cp <-
    match GetSelectedCandidatePair rawHandshakeChannel with
    | (None, _) =>
        goReturn None
          (Some (errorsNew "ice connection did not have selected candidate pair: nil result"))
    | (Some _, Some err) =>
        goReturn None
          (Some (fmtErrorf "ice connection did not have selected candidate pair: error: %w"
                           (Some err) []))
    | (Some cp, None) => ret cp
    end ;;
  let laddr := {| udpIP := LocalAddress cp; udpPort := LocalPort cp |} in
  let channel := newStream rawHandshakeChannel detached laddr raddr in
  localAddr <- orFail (FromNetAddr w (streamLaddr channel)) ;;
  conn <-
    orFail (newConnection w DirOutbound pc t scope (localPeerId t) (privKey t)
                          localAddr p None remoteMultiaddr) ;;
  res <- liftTrace (noiseHandshake w t ctx pc channel p remoteHashFunction false) ;;
  match res with
  | SecureFailed _ err => goReturn (Some conn) (Some err)
  | Secured secConn =>
      goReturn (Some (setRemotePublicKey conn (RemotePublicKey secConn))) None
  end.

(** The deferred function of [dial]. *)
Definition dialDeferred (r : DialResult) (st : DialSt) : list event :=
  match snd r with
  | Some _ =>
      let tr := match pc st with
                | Some pc => trace st ++ [EvPcClose (pcId pc)]
                | None => trace st
                end in
      match fst r with
      | Some tConn => connection_Close tConn tr
      | None => tr
      end
  | None => trace st
  end.

(** [dial(ctx, scope, remoteMultiaddr, p)]. *)
Definition dial (w : World) (t : WebRTCTransport) (ctx : Context)
           (scope : ConnManagementScope) (remoteMultiaddr : ma.Multiaddr)
           (p : PeerID) (tr : list event) : DialResult * list event :=
  let '(o, st) := dialBody w t ctx scope remoteMultiaddr p
                           {| trace := tr; pc := None |} in
  let r := match o with Next r => r | Return r => r end in
  (r, dialDeferred r st).

(** [Dial(ctx, remoteMultiaddr, p)]. *)
Definition Dial (w : World) (t : WebRTCTransport) (ctx : Context)
           (remoteMultiaddr : ma.Multiaddr) (p : PeerID) (tr : list event)
  : DialResult * list event :=
  match OpenConnection (rcmgr t) DirOutbound false remoteMultiaddr with
  | Err err => ((None, Some err), tr)
  | Ok scope =>
      let tr := tr ++ [EvOpenConnection (scopeId scope)] in
      match SetPeer scope p with
      | Some err => ((None, Some err), tr ++ [EvScopeDone (scopeId scope)])
      | None =>
          match dial w t ctx scope remoteMultiaddr p tr with
          | ((_, Some err), tr) =>
              ((None, Some err), tr ++ [EvScopeDone (scopeId scope)])
          | ((conn, None), tr) => ((conn, None), tr)
          end
      end
  end.


End libp2pwebrtc.

(* ================================================================== *)
(** * The stream reader ([stream.Read], [stream.CloseRead]) *)

Module Stream.

(** [pb.Message_Flag]. *)
Inductive Message_Flag : Type :=
| Message_FIN
| Message_STOP_SENDING
| Message_RESET.

(** [pb.Message]: both fields are optional. *)
Record pb_Message : Type := {
  Flag : option Message_Flag;
  Message : list byte
}.

Inductive receiveStateT : Type :=
| receiveStateReceiving
| receiveStateDataRead
| receiveStateReset.

Inductive sendStateT : Type :=
| sendStateSending
| sendStateClosed
| sendStateReset.

(** The fields of [stream] under its mutex; [sent] lists the messages
    handed to the writer and [controlMessageReaderSpawned] is the state
    of [controlMessageReaderOnce]. *)
Record stream : Type := {
  closeErr : option error;
  receiveState : receiveStateT;
  sendState : sendStateT;
  nextMessage : option pb_Message;
  controlMessageReaderSpawned : bool;
  sent : list pb_Message
}.

Definition set_receiveState (s : stream) (v : receiveStateT) : stream :=
  {| closeErr := closeErr s; receiveState := v; sendState := sendState s;
     nextMessage := nextMessage s;
     controlMessageReaderSpawned := controlMessageReaderSpawned s;
     sent := sent s |}.

Definition set_sendState (s : stream) (v : sendStateT) : stream :=
  {| closeErr := closeErr s; receiveState := receiveState s; sendState := v;
     nextMessage := nextMessage s;
     controlMessageReaderSpawned := controlMessageReaderSpawned s;
     sent := sent s |}.

Definition set_nextMessage (s : stream) (v : option pb_Message) : stream :=
  {| closeErr := closeErr s; receiveState := receiveState s;
     sendState := sendState s; nextMessage := v;
     controlMessageReaderSpawned := controlMessageReaderSpawned s;
     sent := sent s |}.

Definition set_sent (s : stream) (v : list pb_Message) : stream :=
  {| closeErr := closeErr s; receiveState := receiveState s;
     sendState := sendState s; nextMessage := nextMessage s;
     controlMessageReaderSpawned := controlMessageReaderSpawned s;
     sent := v |}.

(** [s.controlMessageReaderOnce.Do(s.spawnControlMessageReader)]. *)
Definition spawnControlMessageReaderOnce (s : stream) : stream :=
  {| closeErr := closeErr s; receiveState := receiveState s;
     sendState := sendState s; nextMessage := nextMessage s;
     controlMessageReaderSpawned := true;
     sent := sent s |}.

(** Modelled from the spec: [writeMsgOnWriter] is not among the sources;
    it frames one message on the data channel.  [werr] is the error of
    the channel's writer. *)
Definition writeMsgOnWriter (s : stream) (msg : pb_Message)
           (werr : option error) : stream * option error :=
  match werr with
  | None => (set_sent s (sent s ++ [msg]), None)
  | Some err => (s, Some err)
  end.

(** Modelled from the spec: [processIncomingFlag] is not among the
    sources.  [FIN]: the receive state goes from receiving to data-read;
    [RESET]: the receive state becomes reset; [STOP_SENDING]: the send
    state becomes closed. *)
Definition processIncomingFlag (s : stream) (flag : option Message_Flag)
  : stream :=
  match flag with
  | None => s
  | Some Message_FIN =>
      match receiveState s with
      | receiveStateReceiving => set_receiveState s receiveStateDataRead
      | _ => s
      end
  | Some Message_RESET => set_receiveState s receiveStateReset
  | Some Message_STOP_SENDING => set_sendState s sendStateClosed
  end.

(** [CloseRead()]. *)
Definition CloseRead (werr : option error) (s : stream)
  : stream * option error :=
  let '(s, err) :=
    match receiveState s, closeErr s with
    | receiveStateReceiving, None =>
        let '(s, err) :=
          writeMsgOnWriter s {| Flag := Some Message_STOP_SENDING;
                                Message := [] |} werr in
        (set_receiveState s receiveStateReset, err)
    | _, _ => (s, None)
    end in
  (spawnControlMessageReaderOnce s, err).

(** Modelled from the spec: [Write] is not among the sources; a write is
    rejected when the send state is not sending, and frames the data
    otherwise (the chunking below the message ceiling is left out). *)
Definition Write (data : list byte) (werr : option error) (s : stream)
  : stream * option error :=
  match sendState s with
  | sendStateSending =>
      writeMsgOnWriter s {| Flag := None; Message := data |} werr
  | _ => (s, Some (errorsNew "write on closed or reset stream"))
  end.

(** Modelled from the spec: [CloseWrite] is not among the sources; it
    sends [FIN] and the send state becomes closed. *)
Definition CloseWrite (werr : option error) (s : stream)
  : stream * option error :=
  let '(s, err) :=
    writeMsgOnWriter s {| Flag := Some Message_FIN; Message := [] |} werr in
  (set_sendState s sendStateClosed, err).

(** Modelled from the spec: [Reset] is not among the sources; it sends
    [RESET] on a best-effort basis and marks both directions reset. *)
Definition Reset (werr : option error) (s : stream) : stream * option error :=
  let '(s, _) :=
    writeMsgOnWriter s {| Flag := Some Message_RESET; Message := [] |} werr in
  (set_sendState (set_receiveState s receiveStateReset) sendStateReset, None).

(** What another goroutine may do to the stream, under its mutex, while
    [Read] has released the mutex around [ReadMsg].  What assigns the
    sticky close error [closeErr] is not among the sources and is not one
    of these operations. *)
Inductive concOp : Type :=
| ConcCloseRead (werr : option error)
| ConcWrite (data : list byte) (werr : option error)
| ConcCloseWrite (werr : option error)
| ConcReset (werr : option error)
| ConcIncomingFlag (flag : option Message_Flag).  (* the control-message reader *)

Definition applyConc (s : stream) (c : concOp) : stream :=
  match c with
  | ConcCloseRead werr => fst (CloseRead werr s)
  | ConcWrite data werr => fst (Write data werr s)
  | ConcCloseWrite werr => fst (CloseWrite werr s)
  | ConcReset werr => fst (Reset werr s)
  | ConcIncomingFlag flag => processIncomingFlag s flag
  end.

Definition interfere (cs : list concOp) (s : stream) : stream :=
  fold_left applyConc cs s.

(** One call of [s.reader.ReadMsg]: what happened to the stream while
    the mutex was released, and the result of the call. *)
Record ReadStep : Type := {
  concurrent : list concOp;
  outcome : result pb_Message
}.

(** The results of [Read]: the bytes copied into [b] (their number is
    the first result) and the error; or the call is still waiting in
    [ReadMsg] when the steps given are used up. *)
Inductive ReadResult : Type :=
| Returned (copied : list byte) (err : option error)
| Blocked.

Definition isEOF (err : error) : bool :=
  match err with
  | io_EOF => true
  | _ => false
  end.

(** [if err := s.reader.ReadMsg(&msg); err != nil { ... }], after the
    mutex is taken again. *)
Definition readMsgFailed (s : stream) (err : error) : stream * ReadResult :=
  if isEOF err then
    match receiveState s with
    | receiveStateDataRead => (s, Returned [] (Some io_EOF))
    | _ => (set_receiveState s receiveStateReset, Returned [] (Some ErrReset))
    end
  else
    match receiveState s with
    | receiveStateReset => (s, Returned [] (Some ErrReset))
    | receiveStateDataRead => (s, Returned [] (Some io_EOF))
    | receiveStateReceiving => (s, Returned [] (Some err))
    end.

(** The rest of an iteration once [s.nextMessage] is [msg]: copy data if
    there is some, else process the flag; [None] means the loop goes on. *)
Definition afterLoad (b : nat) (s : stream) (msg : pb_Message)
  : stream * option ReadResult :=
  if Nat.ltb 0 (List.length (Message msg)) then
    let n := Nat.min b (List.length (Message msg)) in
    (set_nextMessage s (Some {| Flag := Flag msg;
                                Message := skipn n (Message msg) |}),
     Some (Returned (firstn n (Message msg)) None))
  else
    let s := processIncomingFlag s (Flag msg) in
    let s := set_nextMessage s None in
    match closeErr s with
    | Some err => (s, Some (Returned [] (Some err)))
    | None =>
        match receiveState s with
        | receiveStateDataRead => (s, Some (Returned [] (Some io_EOF)))
        | receiveStateReset => (s, Some (Returned [] (Some ErrReset)))
        | receiveStateReceiving => (s, None)
        end
    end.

(** The loop of [Read] from an iteration that finds no buffered message:
    every such iteration calls [ReadMsg] once. *)
Fixpoint readLoop (b : nat) (reader : list ReadStep) (s : stream)
  : stream * ReadResult :=
  match reader with
  | [] => (s, Blocked)
  | step :: reader' =>
      let s := interfere (concurrent step) s in
      match outcome step with
      | Err err => readMsgFailed s err
      | Ok msg =>
          match afterLoad b (set_nextMessage s (Some msg)) msg with
          | (s', Some r) => (s', r)
          | (s', None) => readLoop b reader' s'
          end
      end
  end.

(** [Read(b)], for a buffer of [b] bytes, from the point where the call
    holds the reader token (the send on [s.readerOnce] that opens [Read],
    which waits while another reader holds the token, is not part of the
    model); [reader] gives the successive calls of [ReadMsg]. *)
Definition Read (b : nat) (reader : list ReadStep) (s : stream)
  : stream * ReadResult :=
  match closeErr s with
  | Some err => (s, Returned [] (Some err))
  | None =>
      match receiveState s with
      | receiveStateDataRead => (s, Returned [] (Some io_EOF))
      | receiveStateReset => (s, Returned [] (Some ErrReset))
      | receiveStateReceiving =>
          if Nat.eqb b 0 then (s, Returned [] None)
          else
            match nextMessage s with
            | Some msg =>
                match afterLoad b s msg with
                | (s', Some r) => (s', r)
                | (s', None) => readLoop b reader s'
                end
            | None => readLoop b reader s
            end
      end
  end.

(** The operations on a stream. *)
Inductive op : Type :=
| OpRead (b : nat) (reader : list ReadStep)
| OpOther (c : concOp).

Definition step (s : stream) (o : op) : stream :=
  match o with
  | OpRead b reader => fst (Read b reader s)
  | OpOther c => applyConc s c
  end.

Definition run (ops : list op) (s : stream) : stream :=
  fold_left step ops s.

End Stream.

(* ================================================================== *)
(** * Notions used to state the properties *)

Module Props.

Import libp2pwebrtc.

(** [multihash(code, digest)] as a byte string. *)
Definition multihashBytes (code : N) (digest : list byte) : list byte :=
  varint.PutUvarint code ++ varint.PutUvarint (len digest) ++ digest.

(** [multihash(sha256, der)]: the SHA-256 multihash of a certificate. *)
Definition multihashSha256 (hs : HashSuite) (der : list byte) : list byte :=
  multihashBytes multihash.SHA2_256 (Sum hs SHA256 der).

Definition prologuePrefix : list byte :=
  list_byte_of_string "libp2p-webrtc-noise:".

(** The prologue as it is specified: the prefix and [multihash(sha256, der)]
    of the two certificates, the remote one first for the inbound role and
    the local one first for the outbound role. *)
Definition claimedPrologue (hs : HashSuite) (inbound : bool)
           (localDer remoteDer : list byte) : list byte :=
  prologuePrefix ++
  (if inbound
   then multihashSha256 hs remoteDer ++ multihashSha256 hs localDer
   else multihashSha256 hs localDer ++ multihashSha256 hs remoteDer).

(** The multihash code of a DTLS fingerprint algorithm, by its SDP name. *)
Definition multihashCodeOfAlgorithm (name : string) : option N :=
  if String.eqb name "sha-256" then Some multihash.SHA2_256
  else if String.eqb name "sha-512" then Some multihash.SHA2_512
  else if String.eqb name "sha-384" then Some multihash.SHA2_384
  else if String.eqb name "sha-224" then Some multihash.SHA2_224
  else if String.eqb name "sha-1" then Some multihash.SHA1
  else if String.eqb name "md5" then Some multihash.MD5
  else None.

(** The timeouts after [WithPeerConnectionIceTimeouts] has replaced every
    zero field by the transport's current value of that field. *)
Definition effectiveTimeouts (t : WebRTCTransport) (v : IceTimeouts)
  : IceTimeouts :=
  let cur := peerConnectionTimeouts t in
  {| Disconnect := if (Disconnect v =? 0)%Z then Disconnect cur else Disconnect v;
     Failed := if (Failed v =? 0)%Z then Failed cur else Failed v;
     Keepalive := if (Keepalive v =? 0)%Z then Keepalive cur else Keepalive v |}.

(** [failed >= disconnect] and [disconnect > keepalive], a zero value
    disabling the checks it takes part in. *)
Definition invariantsWhereEnabled (v : IceTimeouts) : Prop :=
  Disconnect v <> 0%Z ->
  (Failed v <> 0%Z -> (Disconnect v <= Failed v)%Z) /\
  (Keepalive v <> 0%Z -> (Keepalive v < Disconnect v)%Z).

Definition allNonzero (v : IceTimeouts) : Prop :=
  Disconnect v <> 0%Z /\ Failed v <> 0%Z /\ Keepalive v <> 0%Z.

Definition accepted (r : WebRTCTransport * option error) : Prop :=
  snd r = None.

Definition isScopeDone (scope : N) (e : event) : bool :=
  match e with
  | EvScopeDone n => (n =? scope)%N
  | _ => false
  end.

Definition isConnClose (e : event) : bool :=
  match e with
  | EvConnClose _ => true
  | _ => false
  end.

Definition isNewPeerConnection (e : event) : bool :=
  match e with
  | EvNewPeerConnection _ => true
  | _ => false
  end.

Definition isSecureInbound (e : event) : bool :=
  match e with
  | EvSecureInbound _ _ => true
  | _ => false
  end.

Definition isSecureOutbound (e : event) : bool :=
  match e with
  | EvSecureOutbound _ _ => true
  | _ => false
  end.

(** How many events of a trace satisfy [p]. *)
Definition count (p : event -> bool) (tr : list event) : nat :=
  List.length (filter p tr).

(** The certhash component has no other occurrence in the address. *)
Definition noCerthash (m : ma.Multiaddr) : Prop :=
  ma.ValueForProtocol m ma.P_CERTHASH = Err ma.ErrProtocolNotFound.


(** The event of a handshake that has reached the Noise transport. *)
Definition noiseEvents (inbound : bool) (prologue : list byte) (p : PeerID)
  : list event :=
  if inbound then [EvSecureOutbound prologue p]
  else [EvSecureInbound prologue p].

Definition leftReceiving (s : Stream.stream) : Prop :=
  Stream.receiveState s <> Stream.receiveStateReceiving.

Definition leftSending (s : Stream.stream) : Prop :=
  Stream.sendState s <> Stream.sendStateSending.

(** [s'] is a later state of [s]: a direction that has left its first
    state in [s] has not gone back to it in [s']. *)
Definition later (s s' : Stream.stream) : Prop :=
  (leftReceiving s -> leftReceiving s') /\ (leftSending s -> leftSending s').

End Props.

(* ================================================================== *)
(** * Test doubles: a loopback world in which every collaborator succeeds *)

Module Testing.

Import libp2pwebrtc.

Definition localDer : list byte := list_byte_of_string "local certificate (DER)".
Definition remoteDer : list byte := list_byte_of_string "remote certificate (DER)".

(** A stand-in for the hash implementations: every algorithm is
    available and a digest has the size of its algorithm. *)
Definition testHashes : HashSuite :=
  {| Available := fun _ => true;
     Sum := fun h data =>
              let c := fold_left N.add (map byteN data) 0 in
              map (fun i => Nbyte (c + N.of_nat i)) (seq 0 (Size h)) |}.

Definition localFingerprint : DTLSFingerprint :=
  {| Algorithm := "sha-256";
     Value := encoding.EncodeInterspersedHex (Sum testHashes SHA256 localDer) |}.

Definition testCertificate : WebrtcCertificate :=
  {| x509Cert := {| Raw := localDer |};
     GetFingerprints := Ok {| first := localFingerprint; others := [] |} |}.

Definition testNoise (secure : SecureOutcome) : NoiseTransport :=
  {| WithSessionOptions := fun opts =>
       Ok {| sessionOptions := opts;
             SecureInbound := fun _ _ _ => secure;
             SecureOutbound := fun _ _ _ => secure |} |}.

Definition testScope : ConnManagementScope :=
  {| scopeId := 1; SetPeer := fun _ => None |}.

Definition testRcmgr : ResourceManager :=
  {| OpenConnection := fun _ _ _ => Ok testScope |}.

Definition remoteKey : PubKey := list_byte_of_string "remote public key".

Definition secured : SecureOutcome := Secured {| RemotePublicKey := remoteKey |}.

Definition peerMismatch : SecureOutcome :=
  SecureFailed None (errLib "noise" "peer ID mismatch").

Definition testNewWorld : NewWorld :=
  {| IDFromPrivateKey := fun _ => Ok "QmLocalPeer"%string;
     ecdsa_GenerateKey := Ok (list_byte_of_string "p256 key");
     webrtc_GenerateCertificate := fun _ => Ok testCertificate;
     noise_New := fun _ => Ok (testNoise secured);
     DefaultMaxInFlightConnections := 128 |}.

Definition testTransport (secure : SecureOutcome) : WebRTCTransport :=
  {| webrtcConfig := {| Certificates := {| first := testCertificate; others := [] |} |};
     rcmgr := testRcmgr;
     privKey := list_byte_of_string "private key";
     noiseTpt := testNoise secure;
     localPeerId := "QmLocalPeer"%string;
     peerConnectionTimeouts :=
       {| Disconnect := DefaultDisconnectedTimeout;
          Failed := DefaultFailedTimeout;
          Keepalive := DefaultKeepaliveTimeout |};
     maxInFlightConnections := 128 |}.

Definition testPc : PeerConnection :=
  {| pcId := 7;
     CreateDataChannel := fun label negotiated id =>
       Ok {| dcLabel := label; dcNegotiated := negotiated; dcID := id;
             GetSelectedCandidatePair :=
               (Some {| LocalAddress := "127.0.0.1"; LocalPort := 50000 |}, None) |};
     CreateOffer := Ok {| SDP := "v=0"; SDType := SDPTypeOffer |};
     SetLocalDescription := fun _ => None;
     SetRemoteDescription := fun _ => None;
     GetRemoteCertificate := remoteDer |}.

(** Modelled from the spec: the table of [GetSupportedSDPHash] is not
    among the sources; it maps the multihash codes the library
    recognises to hash algorithms, SHA-256 among them. *)
Definition supportedSDPHash (code : N) : option Hash :=
  if code =? multihash.SHA2_256 then Some SHA256
  else if code =? multihash.SHA2_512 then Some SHA512
  else None.

Definition testWorld : World :=
  {| hashes := testHashes;
     x509_reject := fun _ => None;
     GetSupportedSDPHash := supportedSDPHash;
     DialArgs := fun _ => Ok ("udp4", "127.0.0.1:4242")%string;
     ResolveUDPAddr := fun _ _ => Ok {| udpIP := "127.0.0.1"; udpPort := 4242 |};
     GenUfrag := fun n => string_of_list_ascii (repeat "a"%char n);
     NewPeerConnection := fun _ _ => Ok testPc;
     awaitOpen := fun _ _ _ => FromErrC None;
     RenderServerSdp := fun _ _ _ => Ok "v=0"%string;
     GetDetachedChannel := fun _ _ => Ok 0;
     FromNetAddr := fun a =>
       Ok [ {| ma.Protocol := ma.P_IP4; ma.Value := udpIP a |};
            {| ma.Protocol := ma.P_UDP; ma.Value := "50000" |} ];
     newConnectionError := fun _ => None |}.

Definition testCtx : Context := {| ctxId := "dial-1" |}.

Definition remotePeer : PeerID := "QmRemotePeer"%string.


Definition baseAddr : ma.Multiaddr :=
  [ {| ma.Protocol := ma.P_IP4; ma.Value := "127.0.0.1" |};
    {| ma.Protocol := ma.P_UDP; ma.Value := "4242" |} ].

(** An address whose certhash is the multihash, under [code], of
    [digest]. *)
Definition certhashAddr (code : N) (digest : list byte) : ma.Multiaddr :=
  baseAddr ++
  [ {| ma.Protocol := ma.P_WEBRTC; ma.Value := EmptyString |};
    {| ma.Protocol := ma.P_CERTHASH;
       ma.Value := String "u" (base64.EncodeToString
                                 (Props.multihashBytes code digest)) |} ].

Definition remoteAddr : ma.Multiaddr :=
  certhashAddr multihash.SHA2_256 (Sum testHashes SHA256 remoteDer).

(** A certhash with the multihash code [0xFF]. *)
Definition unknownHashAddr : ma.Multiaddr :=
  certhashAddr 255 (Sum testHashes SHA256 remoteDer).

(** A SHA-512 fingerprint in the form [aa:bb:...]. *)
Definition fingerprint512 : DTLSFingerprint :=
  {| Algorithm := "sha-512";
     Value := encoding.EncodeInterspersedHex (Sum testHashes SHA512 localDer) |}.

Definition freshStream : Stream.stream :=
  {| Stream.closeErr := None;
     Stream.receiveState := Stream.receiveStateReceiving;
     Stream.sendState := Stream.sendStateSending;
     Stream.nextMessage := None;
     Stream.controlMessageReaderSpawned := false;
     Stream.sent := [] |}.

End Testing.


(* ================================================================== *)
(** * [go-multiaddr-fmt]: patterns over the protocols of an address *)

Module mafmt.

(** A pattern: one protocol, a sequence of patterns, or alternatives. *)
#[warnings="-register-all"]
Inductive Pattern : Type :=
| Base (code : N)
| And (args : list Pattern)
| Or (args : list Pattern).

(** [partialMatch(pcs)]: the protocols left when the pattern matches a
    prefix of [pcs].  [And] matches its patterns one after the other,
    [Or] takes the first of its patterns that matches. *)
Fixpoint partialMatch (p : Pattern) (pcs : list N) : option (list N) :=
  match p with
  | Base code =>
      match pcs with
      | [] => None
      | c :: rest => if c =? code then Some rest else None
      end
  | And args =>
      if Nat.ltb (List.length pcs) (List.length args) then None
      else
        (fix all (args : list Pattern) (pcs : list N) : option (list N) :=
           match args with
           | [] => Some pcs
           | a :: args' =>
               match partialMatch a pcs with
               | None => None
               | Some rem => all args' rem
               end
           end) args pcs
  | Or args =>
      (fix any (args : list Pattern) : option (list N) :=
         match args with
         | [] => None
         | a :: args' =>
             match partialMatch a pcs with
             | Some rem => Some rem
             | None => any args'
             end
         end) args
  end.

(** [Matches(a)]: the pattern matches all the protocols of the address. *)
Definition Matches (p : Pattern) (a : ma.Multiaddr) : bool :=
  match partialMatch p (map ma.Protocol a) with
  | Some [] => true
  | _ => false
  end.

End mafmt.

(* ================================================================== *)
(** * [transport.go]: listening and the dial matcher *)

Module Listening.

Import libp2pwebrtc.

(** [dialMatcher], over the library's pattern [mafmt.UDP]. *)
Definition dialMatcher (UDP : mafmt.Pattern) : mafmt.Pattern :=
  mafmt.And [UDP; mafmt.Base ma.P_UDP; mafmt.Base ma.P_WEBRTC;
             mafmt.Base ma.P_CERTHASH].

(** [Protocols()]. *)
Definition Protocols (t : WebRTCTransport) : list N := [ma.P_WEBRTC].

(** [Proxy()]. *)
Definition Proxy (t : WebRTCTransport) : bool := false.

(** [CanDial(addr)]. *)
Definition CanDial (UDP : mafmt.Pattern) (t : WebRTCTransport)
           (addr : ma.Multiaddr) : bool :=
  mafmt.Matches (dialMatcher UDP) addr.

(** [net.UDPConn]: the socket and its local address. *)
Record UDPConn : Type := {
  sockId : N;
  LocalAddr : UDPAddr
}.

(** [tpt.Listener], as a handle. *)
Definition Listener : Type := N.

(** What listening does outside the transport. *)
Inductive ListenEvent : Type :=
| EvListenUDP (sock : N)                        (* net.ListenUDP succeeded *)
| EvSocketClose (sock : N)                      (* socket.Close() *)
| EvNewListener (addr : ma.Multiaddr) (sock : N).  (* newListener(t, addr, socket, ...) *)

(** What [Listen] calls outside the transport, beside the network helpers
    of [World]; [newListener] is in another file of the package. *)
Record ListenWorld : Type := {
  net : World;
  ListenUDP : string -> UDPAddr -> result UDPConn;
  newListener : ma.Multiaddr -> UDPConn -> Configuration -> result Listener
}.

(** [ma.StringCast("/webrtc")]: the protocol without a value. *)
Definition webrtcComponent : ma.Component :=
  {| ma.Protocol := ma.P_WEBRTC; ma.Value := EmptyString |}.

(** [Component.Equal]. *)
Definition componentEqual (c d : ma.Component) : bool :=
  (ma.Protocol c =? ma.Protocol d) && String.eqb (ma.Value c) (ma.Value d).

(** [listenSocket(socket)]. *)
Definition listenSocket (lw : ListenWorld) (t : WebRTCTransport)
           (socket : UDPConn) (tr : list ListenEvent)
  : (option Listener * option error) * list ListenEvent :=
  match FromNetAddr (net lw) (LocalAddr socket) with
  | Err err => ((None, Some err), tr)
  | Ok listenerMultiaddr =>
      match getCertificateFingerprint t with
      | Err err => ((None, Some err), tr)
      | Ok listenerFingerprint =>
          match internal.EncodeDTLSFingerprint listenerFingerprint with
          | Err err => ((None, Some err), tr)
          | Ok encodedLocalFingerprint =>
              match ma.NewMultiaddr_webrtc_certhash encodedLocalFingerprint with
              | Err err => ((None, Some err), tr)
              | Ok certMultiaddress =>
                  let listenerMultiaddr :=
                    ma.Encapsulate listenerMultiaddr certMultiaddress in
                  let tr := tr ++ [EvNewListener listenerMultiaddr (sockId socket)] in
                  match newListener lw listenerMultiaddr socket (webrtcConfig t) with
                  | Err err => ((None, Some err), tr)
                  | Ok listener => ((Some listener, None), tr)
                  end
              end
          end
      end
  end.

(** What a call gives: its results, or a panic. *)
Inductive Call (A : Type) : Type :=
| Returns (results : A)
| Panics.
Arguments Returns {A} results.
Arguments Panics {A}.

(** [Listen(addr)], for the address [head ++ [last]]: [ma.SplitLast] gives
    [head] and [last] (an address has at least one component), and a nil
    [head] when [last] is the only component; [manet.DialArgs] panics on
    the nil address. *)
Definition Listen (lw : ListenWorld) (t : WebRTCTransport)
           (head : ma.Multiaddr) (last : ma.Component) (tr : list ListenEvent)
  : Call (option Listener * option error) * list ListenEvent :=
  let addr := head in
  let wrtcComponent := last in
  let isWebrtc := componentEqual wrtcComponent webrtcComponent in
  if negb isWebrtc
  then (Returns (None, Some (errorsNew "must listen on webrtc multiaddr")), tr)
  else
    match addr with
    | [] => (Panics, tr)
    | _ :: _ =>
        match DialArgs (net lw) addr with
        | Err err =>
            (Returns (None, Some (fmtErrorf "listener could not fetch dialargs: %w"
                                            (Some err) [])), tr)
        | Ok (nw, host) =>
            match ResolveUDPAddr (net lw) nw host with
            | Err err =>
                (Returns (None, Some (fmtErrorf "listener could not resolve udp address: %w"
                                                (Some err) [])), tr)
            | Ok udpAddr =>
                match ListenUDP lw nw udpAddr with
                | Err err =>
                    (Returns (None, Some (fmtErrorf "listen on udp: %w" (Some err) [])),
                     tr)
                | Ok socket =>
                    let tr := tr ++ [EvListenUDP (sockId socket)] in
                    match listenSocket lw t socket tr with
                    | ((_, Some err), tr) =>
                        (Returns (None, Some err),
                         tr ++ [EvSocketClose (sockId socket)])
                    | ((listener, None), tr) => (Returns (listener, None), tr)
                    end
                end
            end
        end
    end.

End Listening.

(* ================================================================== *)
(** * Package [swarm]: the listen addresses of a swarm *)

Module swarm.

Definition P_IP6ZONE : N := 42.       (* 0x2A *)

(** [transport.Listener], by its [Multiaddr()]: an address with at least
    one component (the nil address is the empty list). *)
Record Listener : Type := {
  Multiaddr : ma.Multiaddr
}.

(** [s.listeners] without its lock: [m] lists the keys of the map in the
    order the [range] statement visits them; [cacheEOL] is a time in
    nanoseconds. *)
Record listenersT : Type := {
  m : list Listener;
  ifaceListenAddres : list ma.Multiaddr;
  cacheEOL : Z
}.

Record Swarm : Type := {
  listeners : listenersT
}.

(** [ma.SplitFirst]: the first component and the rest, nil (empty) when
    there is no other component. *)
Definition SplitFirst (a : ma.Multiaddr) : option ma.Component * ma.Multiaddr :=
  match a with
  | [] => (None, [])
  | c :: rest => (Some c, rest)
  end.

(** [ma.ForEach]: the callback is called on the components in order until
    it returns false; [st] stands for the variables it assigns to. *)
Fixpoint ForEach {S : Type} (a : ma.Multiaddr)
         (cb : ma.Component -> S -> bool * S) (st : S) : S :=
  match a with
  | [] => st
  | c :: rest =>
      let '(goOn, st') := cb c st in
      if goOn then ForEach rest cb st' else st'
  end.

(** [listenAddressesNoLock()]. *)
Definition listenAddressesNoLock (s : Swarm) : list ma.Multiaddr :=
  fold_left
    (fun addrs l =>
       let a := Multiaddr l in
       (* remove ip6zone from the addresses *)
       let a :=
         ForEach a
                 (fun c a =>
                    (false,
                     if ma.Protocol c =? P_IP6ZONE then snd (SplitFirst a)
                     else a))
                 a in
       match a with
       | [] => addrs
       | _ :: _ => addrs ++ [a]
       end)
    (m (listeners s)) [].

(** [ListenAddresses()]. *)
Definition ListenAddresses (s : Swarm) : list ma.Multiaddr :=
  listenAddressesNoLock s.

(** [ifaceAddrsCacheDuration]: one minute. *)
Definition ifaceAddrsCacheDuration : Z := (60 * libp2pwebrtc.Second)%Z.

(** [t.After(u)]. *)
Definition After (t u : Z) : bool := (u <? t)%Z.

Definition set_cache (s : Swarm) (addrs : list ma.Multiaddr) (eol : Z) : Swarm :=
  {| listeners := {| m := m (listeners s);
                     ifaceListenAddres := addrs;
                     cacheEOL := eol |} |}.

(** [InterfaceListenAddresses()].  [now1], [now2] and [now3] are the
    results of the three calls of [time.Now], [others] is what other
    goroutines do to the swarm between the read lock and the write lock,
    and [resolve] is [manet.ResolveUnspecifiedAddresses].  The results are
    the swarm afterwards and the addresses or the error. *)
Definition InterfaceListenAddresses
           (resolve : list ma.Multiaddr -> result (list ma.Multiaddr))
           (others : Swarm -> Swarm) (now1 now2 now3 : Z) (s : Swarm)
  : Swarm * result (list ma.Multiaddr) :=
  let ifaceListenAddres := ifaceListenAddres (listeners s) in
  let isEOL := After now1 (cacheEOL (listeners s)) in
  if negb isEOL then
    (* Cache is valid, clone the slice *)
    (s, Ok ifaceListenAddres)
  else
    (* Cache is not valid *)
    let s := others s in
    let ifaceListenAddres := swarm.ifaceListenAddres (listeners s) in
    if After now2 (cacheEOL (listeners s)) then
      (* Cache is still invalid *)
      let listenAddres := listenAddressesNoLock s in
      if Nat.ltb 0 (List.length listenAddres) then
        (* We're actually listening on addresses. *)
        match resolve listenAddres with
        | Err err => (s, Err err)
        | Ok ifaceListenAddres =>
            (set_cache s ifaceListenAddres (now3 + ifaceAddrsCacheDuration)%Z,
             Ok ifaceListenAddres)
        end
      else
        (set_cache s [] (now3 + ifaceAddrsCacheDuration)%Z, Ok [])
    else
      (s, Ok ifaceListenAddres).

End swarm.


(* ================================================================== *)
(** * Further notions used to state properties *)

Module Notions.

Import libp2pwebrtc.

(** Successive calls of [Read], each with its buffer size and what
    [ReadMsg] returns during it, as long as they return data without an
    error: the bytes delivered, and the stream afterwards. *)
Fixpoint readMany (calls : list (nat * list Stream.ReadStep)) (s : Stream.stream)
  : list byte * Stream.stream :=
  match calls with
  | [] => ([], s)
  | (b, reader) :: rest =>
      match Stream.Read b reader s with
      | (s', Stream.Returned data None) =>
          let '(more, s'') := readMany rest s' in (data ++ more, s'')
      | (s', _) => ([], s')
      end
  end.

(** What a returning [Read] gives for a buffer of [b] bytes: data within
    the buffer and no error, or no data and an error; no data and no
    error only for an empty buffer. *)
Definition wellFormed (b : nat) (r : Stream.ReadResult) : Prop :=
  match r with
  | Stream.Blocked => True
  | Stream.Returned data err =>
      (List.length data <= b)%nat /\
      (data <> [] -> err = None) /\
      (err = None -> data = [] -> b = 0%nat)
  end.

(** The operations that do not reset the stream: all but a local [Reset]
    and a [RESET] flag from the remote. *)
Definition notReset (o : Stream.op) : bool :=
  match o with
  | Stream.OpRead _ _ => true
  | Stream.OpOther (Stream.ConcReset _) => false
  | Stream.OpOther (Stream.ConcIncomingFlag (Some Stream.Message_RESET)) => false
  | Stream.OpOther _ => true
  end.

(** The options of the package, by their constructors. *)
Inductive OptionSpec : Type :=
| IceTimeoutsOption (timeouts : IceTimeouts)
| MaxInFlightOption (m : N).

Definition optionOf (o : OptionSpec) : Option :=
  match o with
  | IceTimeoutsOption timeouts => WithPeerConnectionIceTimeouts timeouts
  | MaxInFlightOption m => WithListenerMaxInFlightConnections m
  end.

(** No timeout is zero, [failed >= disconnect] and [disconnect > keepalive]. *)
Definition validTimeouts (v : IceTimeouts) : Prop :=
  Props.allNonzero v /\
  (Disconnect v <= Failed v)%Z /\ (Keepalive v < Disconnect v)%Z.

(** The fields of the transport that no option of the package assigns. *)
Definition sameIdentity (t t' : WebRTCTransport) : Prop :=
  webrtcConfig t' = webrtcConfig t /\ rcmgr t' = rcmgr t /\
  privKey t' = privKey t /\ noiseTpt t' = noiseTpt t /\
  localPeerId t' = localPeerId t.

(** The setting engine [dial] configures. *)
Definition dialSettingEngine (w : World) (t : WebRTCTransport) : SettingEngine :=
  {| seUfrag := GenUfrag w 32; sePwd := GenUfrag w 32;
     seDetachDataChannels := true;
     seDisconnectedTimeout := Disconnect (peerConnectionTimeouts t);
     seFailedTimeout := Failed (peerConnectionTimeouts t);
     seKeepAliveInterval := Keepalive (peerConnectionTimeouts t) |}.

Definition isPcClose (e : event) : bool :=
  match e with
  | EvPcClose _ => true
  | _ => false
  end.

(** The events of a trace on peer connections: created, closed by
    [pc.Close()], and closed with the connection that owns them. *)
Definition pcEvents (tr : list event) : list event :=
  filter (fun e => Props.isNewPeerConnection e || isPcClose e
                   || Props.isConnClose e) tr.

(** The connection [dial] returns for the peer connection [pc], the local
    address [localAddr] and the secured Noise session [secConn]. *)
Definition dialedConnection (t : WebRTCTransport) (scope : ConnManagementScope)
           (pc : PeerConnection) (localAddr remoteMultiaddr : ma.Multiaddr)
           (p : PeerID) (secConn : SecureConn) : connection :=
  {| connDirection := DirOutbound; connPc := pc; connScope := scope;
     connLocalPeer := localPeerId t; connPrivKey := privKey t;
     connLocalMultiaddr := localAddr;
     connRemotePeer := p;
     connRemoteKey := Some (RemotePublicKey secConn);
     connRemoteMultiaddr := remoteMultiaddr |}.

(** What a successful [dial] has done, and the connection it returns:
    the peer connection, its handshake data channel and the stream over
    it, the Noise session secured over this stream. *)
Definition dialed (w : World) (t : WebRTCTransport) (ctx : Context)
           (scope : ConnManagementScope) (addr : ma.Multiaddr)
           (p : PeerID) (c : connection) (added : list event) : Prop :=
  exists pc localAddr mh h prologue st secConn rawChannel detached laddr raddr,
    NewPeerConnection w (dialSettingEngine w t) (webrtcConfig t) = Ok pc /\
    internal.DecodeRemoteFingerprint addr = Ok mh /\
    GetSupportedSDPHash w (multihash.Code mh) = Some h /\
    generateNoisePrologue w t pc h false = Ok prologue /\
    WithSessionOptions (noiseTpt t) [Prologue prologue; DisablePeerIDCheck]
    = Ok st /\
    CreateDataChannel pc "" handshakeChannelNegotiated handshakeChannelId
    = Ok rawChannel /\
    GetDetachedChannel w ctx rawChannel = Ok detached /\
    SecureInbound st ctx (newStream rawChannel detached laddr raddr) p
    = Secured secConn /\
    c = dialedConnection t scope pc localAddr addr p secConn /\
    pcEvents added = [EvNewPeerConnection (pcId pc)].

(** What a failed [dial] has done to peer connections: none was created,
    or the one created was closed by [pc.Close()], and after that, when
    the connection over it had been made, by closing this connection. *)
Definition undone (w : World) (t : WebRTCTransport) (added : list event)
  : Prop :=
  pcEvents added = [] \/
  exists pc,
    NewPeerConnection w (dialSettingEngine w t) (webrtcConfig t) = Ok pc /\
    (pcEvents added = [EvNewPeerConnection (pcId pc); EvPcClose (pcId pc)] \/
     pcEvents added = [EvNewPeerConnection (pcId pc); EvPcClose (pcId pc);
                       EvConnClose (pcId pc)]).

Definition isListenUDP (e : Listening.ListenEvent) : bool :=
  match e with
  | Listening.EvListenUDP _ => true
  | _ => false
  end.

Definition isSocketClose (e : Listening.ListenEvent) : bool :=
  match e with
  | Listening.EvSocketClose _ => true
  | _ => false
  end.

(** The events of a trace on sockets: opened and closed. *)
Definition socketEvents (tr : list Listening.ListenEvent)
  : list Listening.ListenEvent :=
  filter (fun e => isListenUDP e || isSocketClose e) tr.

(** What a successful [Listen] has done: the socket it has opened, the
    address [base] of this socket, the multiaddress [addr] it has passed
    to [newListener], and the listener this has returned. *)
Definition listening (lw : Listening.ListenWorld) (t : WebRTCTransport)
           (head : ma.Multiaddr) (l : Listening.Listener)
           (socket : Listening.UDPConn) (base addr : ma.Multiaddr)
           (added : list Listening.ListenEvent) : Prop :=
  exists nw host udpAddr fp s cert,
    DialArgs (Listening.net lw) head = Ok (nw, host) /\
    ResolveUDPAddr (Listening.net lw) nw host = Ok udpAddr /\
    Listening.ListenUDP lw nw udpAddr = Ok socket /\
    FromNetAddr (Listening.net lw) (Listening.LocalAddr socket) = Ok base /\
    getCertificateFingerprint t = Ok fp /\
    internal.EncodeDTLSFingerprint fp = Ok s /\
    ma.NewMultiaddr_webrtc_certhash s = Ok cert /\
    addr = ma.Encapsulate base cert /\
    Listening.newListener lw addr socket (webrtcConfig t) = Ok l /\
    added = [Listening.EvListenUDP (Listening.sockId socket);
             Listening.EvNewListener addr (Listening.sockId socket)].

(** What a failed [Listen] has done: nothing, or it has opened a socket
    and closed it. *)
Definition notListening (added : list Listening.ListenEvent) : Prop :=
  added = [] \/
  exists sock,
    added = [Listening.EvListenUDP sock; Listening.EvSocketClose sock] \/
    exists addr,
      added = [Listening.EvListenUDP sock; Listening.EvNewListener addr sock;
               Listening.EvSocketClose sock].

(** An address without its first component when that is an ip6zone. *)
Definition stripZone (a : ma.Multiaddr) : ma.Multiaddr :=
  match a with
  | c :: rest => if ma.Protocol c =? swarm.P_IP6ZONE then rest else a
  | [] => []
  end.

Definition nonEmpty (a : ma.Multiaddr) : bool :=
  match a with
  | [] => false
  | _ :: _ => true
  end.

End Notions.

(* ================================================================== *)
(** * Test doubles for listening and for the swarm *)

Module MoreTesting.

Import libp2pwebrtc.

Definition testSocket : Listening.UDPConn :=
  {| Listening.sockId := 3;
     Listening.LocalAddr := {| udpIP := "127.0.0.1"; udpPort := 50000 |} |}.

Definition testListenWorld : Listening.ListenWorld :=
  {| Listening.net := Testing.testWorld;
     Listening.ListenUDP := fun _ _ => Ok testSocket;
     Listening.newListener := fun _ _ _ => Ok 1 |}.

(** [mafmt.UDP] of the library: [udp] over an IP protocol. *)
Definition P_IP6 : N := 41.
Definition mafmtIP : mafmt.Pattern :=
  mafmt.Or [mafmt.Base ma.P_IP4; mafmt.Base P_IP6].
Definition mafmtUDP : mafmt.Pattern :=
  mafmt.And [mafmtIP; mafmt.Base ma.P_UDP].

Definition doubleUdpAddr : ma.Multiaddr :=
  [ {| ma.Protocol := ma.P_IP4; ma.Value := "127.0.0.1" |};
    {| ma.Protocol := ma.P_UDP; ma.Value := "4242" |};
    {| ma.Protocol := ma.P_UDP; ma.Value := "4242" |};
    {| ma.Protocol := ma.P_WEBRTC; ma.Value := EmptyString |};
    {| ma.Protocol := ma.P_CERTHASH; ma.Value := "uEiA" |} ].

Definition zoneAddr : ma.Multiaddr :=
  [ {| ma.Protocol := swarm.P_IP6ZONE; ma.Value := "eth0" |};
    {| ma.Protocol := MoreTesting.P_IP6; ma.Value := "fe80::1" |};
    {| ma.Protocol := ma.P_UDP; ma.Value := "4242" |} ].

Definition testSwarm : swarm.Swarm :=
  {| swarm.listeners :=
       {| swarm.m := [ {| swarm.Multiaddr := zoneAddr |};
                       {| swarm.Multiaddr := Testing.baseAddr |} ];
          swarm.ifaceListenAddres := [];
          swarm.cacheEOL := 0 |} |}.

Definition resolveSame (addrs : list ma.Multiaddr) : result (list ma.Multiaddr) :=
  Ok addrs.

Definition resolveFails (addrs : list ma.Multiaddr) : result (list ma.Multiaddr) :=
  Err (errLib "manet" "no interface addresses").

(** The other peer of [Testing.testTransport] and [Testing.testPc]: its
    certificate is [Testing.remoteDer] and the certificate it sees is
    [Testing.localDer]. *)
Definition peerFingerprint : DTLSFingerprint :=
  {| Algorithm := "sha-256";
     Value := encoding.EncodeInterspersedHex
                (Sum Testing.testHashes SHA256 Testing.remoteDer) |}.

Definition peerTransport : WebRTCTransport :=
  {| webrtcConfig :=
       {| Certificates :=
            {| first := {| x509Cert := {| Raw := Testing.remoteDer |};
                           GetFingerprints :=
                             Ok {| first := peerFingerprint; others := [] |} |};
               others := [] |} |};
     rcmgr := Testing.testRcmgr;
     privKey := list_byte_of_string "peer private key";
     noiseTpt := Testing.testNoise Testing.secured;
     localPeerId := Testing.remotePeer;
     peerConnectionTimeouts :=
       {| Disconnect := DefaultDisconnectedTimeout;
          Failed := DefaultFailedTimeout;
          Keepalive := DefaultKeepaliveTimeout |};
     maxInFlightConnections := 128 |}.

Definition peerPc : PeerConnection :=
  {| pcId := 8;
     CreateDataChannel := CreateDataChannel Testing.testPc;
     CreateOffer := CreateOffer Testing.testPc;
     SetLocalDescription := fun _ => None;
     SetRemoteDescription := fun _ => None;
     GetRemoteCertificate := Testing.localDer |}.

(** The fingerprint [Testing.localFingerprint] written by an engine that
    prints hexadecimal digits in upper case. *)
Definition upperFingerprint : DTLSFingerprint :=
  {| Algorithm := "SHA-256";
     Value := string_of_list_ascii
                (map (fun c =>
                        let n := N_of_ascii c in
                        if (97 <=? n) && (n <=? 102) then ascii_of_N (n - 32)
                        else c)
                     (list_ascii_of_string (Value Testing.localFingerprint))) |}.

(** The connection that dialing [Testing.remoteAddr] gives in the test
    world. *)
Definition dialedTest : connection :=
  Notions.dialedConnection
    (Testing.testTransport Testing.secured) Testing.testScope Testing.testPc
    [ {| ma.Protocol := ma.P_IP4; ma.Value := "127.0.0.1" |};
      {| ma.Protocol := ma.P_UDP; ma.Value := "50000" |} ]
    Testing.remoteAddr Testing.remotePeer
    {| RemotePublicKey := Testing.remoteKey |}.

(** A message with data and [FIN], buffered in a fresh stream. *)
Definition foobar : Stream.pb_Message :=
  {| Stream.Flag := Some Stream.Message_FIN;
     Stream.Message := list_byte_of_string "foobar" |}.

Definition buffered : Stream.stream :=
  Stream.set_nextMessage Testing.freshStream (Some foobar).

End MoreTesting.

(* ================================================================== *)
(** * Properties *)

Import libp2pwebrtc Props.

(* ================================================================== *)
(** * Properties of the codecs *)

Ltac Zify.zify_post_hook ::= Z.to_euclidean_division_equations.

Section Bytes.

Lemma byteN_lt (b : byte) : byteN b < 256.
Proof. unfold byteN. pose proof (Byte.to_N_bounded b). lia. Qed.

Lemma Nbyte_byteN (b : byte) : Nbyte (byteN b) = b.
Proof.
  unfold Nbyte. rewrite N.mod_small by apply byteN_lt.
  unfold byteN. now rewrite Byte.of_to_N.
Qed.

Lemma byteN_Nbyte (n : N) : byteN (Nbyte n) = n mod 256.
Proof.
  unfold Nbyte, byteN.
  assert (H : n mod 256 < 256) by (apply N.mod_lt; lia).
  destruct (Byte.of_N (n mod 256)) eqn:E.
  - now apply Byte.to_of_N.
  - apply Byte.of_N_None_iff in E. lia.
Qed.

(** [byte(n)] is [b] as soon as [n] is [b] modulo 256. *)
Lemma Nbyte_eq (n : N) (b : byte) : n mod 256 = byteN b -> Nbyte n = b.
Proof.
  intros H. rewrite <- (Nbyte_byteN b). unfold Nbyte.
  rewrite H, (N.mod_small (byteN b)) by apply byteN_lt. reflexivity.
Qed.

(** A property of every number below [k], checked by enumeration. *)
Lemma N_lt_forallb (k : nat) (p : N -> bool) :
  forallb p (map N.of_nat (seq 0 k)) = true ->
  forall n, n < N.of_nat k -> p n = true.
Proof.
  intros H n Hn. rewrite forallb_forall in H. apply H.
  apply in_map_iff. exists (N.to_nat n). split; [apply N2Nat.id|].
  apply in_seq. lia.
Qed.

Lemma lor_shiftl_add (a b k : N) :
  b < 2 ^ k -> N.lor (N.shiftl a k) b = a * 2 ^ k + b.
Proof.
  intros Hb. rewrite <- N.shiftl_mul_pow2.
  assert (HL : N.land (N.shiftl a k) b = 0).
  { apply N.bits_inj. intros i. rewrite N.land_spec, N.bits_0.
    destruct (N.ltb_spec i k).
    - now rewrite N.shiftl_spec_low.
    - rewrite <- (N.mod_small b (2 ^ k)) by assumption.
      rewrite N.mod_pow2_bits_high by assumption. apply andb_false_r. }
  rewrite N.add_nocarry_lxor by exact HL. symmetry. now apply N.lxor_lor.
Qed.

(** [a | b] is [a + b] when [a] is a multiple of [2^k] and [b] is below it. *)
Lemma lor_add_disjoint (a b k : N) :
  a mod 2 ^ k = 0 -> b < 2 ^ k -> N.lor a b = a + b.
Proof.
  intros Ha Hb.
  assert (E : a = N.shiftl (a / 2 ^ k) k).
  { rewrite N.shiftl_mul_pow2.
    pose proof (N.div_mod a (2 ^ k)) as D.
    rewrite Ha, N.add_0_r, N.mul_comm in D. apply D.
    apply N.pow_nonzero. lia. }
  rewrite E at 1. rewrite lor_shiftl_add by assumption.
  now rewrite <- N.shiftl_mul_pow2, <- E.
Qed.

Lemma land_mask (a k : N) : N.land a (2 ^ k - 1) = a mod 2 ^ k.
Proof. rewrite <- N.land_ones. f_equal. rewrite N.ones_equiv. lia. Qed.

Lemma land_63 (a : N) : N.land a 63 = a mod 64.
Proof. exact (land_mask a 6). Qed.

Lemma land_127 (a : N) : N.land a 127 = a mod 128.
Proof. exact (land_mask a 7). Qed.

Lemma len_app {A} (l r : list A) : len (l ++ r) = len l + len r.
Proof. unfold len. rewrite length_app. lia. Qed.

Lemma skipn_app_length {A} (l r : list A) : skipn (List.length l) (l ++ r) = r.
Proof. induction l; cbn; auto. Qed.

(** Induction on a list three elements at a time. *)
Lemma list_ind3 {A} (P : list A -> Prop) :
  P [] -> (forall a, P [a]) -> (forall a b, P [a; b]) ->
  (forall a b c l, P l -> P (a :: b :: c :: l)) ->
  forall l, P l.
Proof.
  intros H0 H1 H2 H3.
  fix IH 1. intros [|a [|b [|c l]]];
    [exact H0 | apply H1 | apply H2 | apply H3, IH].
Qed.

End Bytes.

Section Hex.

Lemma hexPair_hexDigit (b : byte) :
  encoding.hexPair (encoding.hexDigit (N.shiftr (byteN b) 4))
                   (encoding.hexDigit (N.land (byteN b) 15)) = Ok b.
Proof. destruct b; reflexivity. Qed.

Lemma decodeGroups_Encode (b : byte) (d : list byte) :
  encoding.decodeGroups (encoding.EncodeInterspersedHex (b :: d)) = Ok (b :: d).
Proof.
  revert b. induction d as [|b' d IH]; intros b.
  - cbn [encoding.EncodeInterspersedHex encoding.decodeGroups].
    now rewrite hexPair_hexDigit.
  - change (encoding.EncodeInterspersedHex (b :: b' :: d))
      with (String (encoding.hexDigit (N.shiftr (byteN b) 4))
             (String (encoding.hexDigit (N.land (byteN b) 15))
               (String ":" (encoding.EncodeInterspersedHex (b' :: d))))).
    cbn [encoding.decodeGroups]. rewrite hexPair_hexDigit.
    change (Ascii.eqb ":" ":") with true. cbv iota. now rewrite IH.
Qed.

(** Parsing the form [aa:bb:...] of a digest gives the digest back. *)
Lemma Decode_EncodeInterspersedHex (d : list byte) :
  encoding.DecodeInterspersedHexFromASCIIString
    (encoding.EncodeInterspersedHex d) = Ok d.
Proof.
  destruct d as [|b d]; [reflexivity|].
  unfold encoding.DecodeInterspersedHexFromASCIIString.
  rewrite <- (decodeGroups_Encode b d).
  destruct d; reflexivity.
Qed.

End Hex.

Section Base64.

Lemma decodeChar_encodeChar (n : N) :
  n < 64 -> base64.decodeChar (base64.encodeChar n) = Some n.
Proof.
  intros H.
  assert (E : match base64.decodeChar (base64.encodeChar n) with
              | Some m => m =? n
              | None => false
              end = true).
  { revert n H. apply (N_lt_forallb 64). vm_compute. reflexivity. }
  destruct (base64.decodeChar (base64.encodeChar n)); [|discriminate].
  apply N.eqb_eq in E. now subst.
Qed.

Lemma encodeChar_not_newline (n : N) :
  n < 64 ->
  Ascii.eqb (base64.encodeChar n) "010" || Ascii.eqb (base64.encodeChar n) "013"
  = false.
Proof.
  intros H.
  assert (E : negb (Ascii.eqb (base64.encodeChar n) "010"
                    || Ascii.eqb (base64.encodeChar n) "013") = true).
  { revert n H. apply (N_lt_forallb 64). vm_compute. reflexivity. }
  now apply negb_true_iff in E.
Qed.

Lemma mod64_lt (a : N) : a mod 64 < 64.
Proof. apply N.mod_lt. lia. Qed.

Lemma stripNewlines_Encode (l : list byte) :
  base64.stripNewlines (base64.EncodeToString l) = base64.EncodeToString l.
Proof.
  induction l as [|a|a b|a b c l IH] using list_ind3;
    cbn [base64.EncodeToString base64.stripNewlines];
    rewrite ?land_63, ?encodeChar_not_newline by apply mod64_lt;
    rewrite ?IH; reflexivity.
Qed.

Lemma val3 (a b c : N) :
  a < 256 -> b < 256 -> c < 256 ->
  N.lor (N.lor (N.shiftl a 16) (N.shiftl b 8)) c = a * 65536 + b * 256 + c.
Proof.
  intros Ha Hb Hc. rewrite !N.shiftl_mul_pow2.
  rewrite (@lor_add_disjoint (a * 2 ^ 16) (b * 2 ^ 8) 16)
    by (change (2 ^ 16) with 65536; change (2 ^ 8) with 256; lia).
  rewrite (@lor_add_disjoint _ c 8)
    by (change (2 ^ 16) with 65536; change (2 ^ 8) with 256; lia).
  reflexivity.
Qed.

Lemma val2 (a b : N) :
  a < 256 -> b < 256 ->
  N.lor (N.shiftl a 16) (N.shiftl b 8) = a * 65536 + b * 256.
Proof.
  intros Ha Hb. rewrite !N.shiftl_mul_pow2.
  rewrite (@lor_add_disjoint (a * 2 ^ 16) (b * 2 ^ 8) 16)
    by (change (2 ^ 16) with 65536; change (2 ^ 8) with 256; lia).
  reflexivity.
Qed.

Lemma quantum_eq (d0 d1 d2 d3 : N) :
  d0 < 64 -> d1 < 64 -> d2 < 64 -> d3 < 64 ->
  base64.quantum d0 d1 d2 d3 = d0 * 262144 + d1 * 4096 + d2 * 64 + d3.
Proof.
  intros H0 H1 H2 H3. unfold base64.quantum. rewrite !N.shiftl_mul_pow2.
  change (2 ^ 18) with 262144; change (2 ^ 12) with 4096; change (2 ^ 6) with 64.
  rewrite (@lor_add_disjoint (d0 * 262144) (d1 * 4096) 18)
    by (change (2 ^ 18) with 262144; lia).
  rewrite (@lor_add_disjoint _ (d2 * 64) 12) by (change (2 ^ 12) with 4096; lia).
  rewrite (@lor_add_disjoint _ d3 6) by (change (2 ^ 6) with 64; lia).
  reflexivity.
Qed.

Lemma sextet (v k : N) :
  base64.decodeChar (base64.encodeChar (N.land (N.shiftr v k) 63))
  = Some ((v / 2 ^ k) mod 64).
Proof.
  rewrite land_63, N.shiftr_div_pow2. apply decodeChar_encodeChar, mod64_lt.
Qed.

Lemma sextet0 (v : N) :
  base64.decodeChar (base64.encodeChar (N.land v 63)) = Some (v mod 64).
Proof. rewrite land_63. apply decodeChar_encodeChar, mod64_lt. Qed.

Ltac pow2_constants :=
  change (2 ^ 18) with 262144; change (2 ^ 16) with 65536;
  change (2 ^ 12) with 4096; change (2 ^ 8) with 256; change (2 ^ 6) with 64.

Lemma decodeQuanta_Encode (l : list byte) :
  base64.decodeQuanta (base64.EncodeToString l) = Ok l.
Proof.
  induction l as [|a|a b|a b c l IH] using list_ind3.
  - reflexivity.
  - cbn [base64.EncodeToString base64.decodeQuanta].
    rewrite !sextet. pose proof (byteN_lt a).
    rewrite quantum_eq by (first [apply mod64_lt | lia]).
    rewrite N.shiftl_mul_pow2, !N.shiftr_div_pow2. pow2_constants.
    f_equal. f_equal. apply Nbyte_eq. lia.
  - cbn [base64.EncodeToString base64.decodeQuanta].
    rewrite !sextet. pose proof (byteN_lt a). pose proof (byteN_lt b).
    rewrite quantum_eq by (first [apply mod64_lt | lia]).
    rewrite val2 by assumption. rewrite !N.shiftr_div_pow2. pow2_constants.
    f_equal. f_equal; [|f_equal]; apply Nbyte_eq; lia.
  - cbn [base64.EncodeToString base64.decodeQuanta].
    rewrite !sextet, sextet0, IH.
    pose proof (byteN_lt a). pose proof (byteN_lt b). pose proof (byteN_lt c).
    rewrite quantum_eq by (first [apply mod64_lt | lia]).
    rewrite val3 by assumption. rewrite !N.shiftr_div_pow2. pow2_constants.
    f_equal. f_equal; [|f_equal; [|f_equal]]; apply Nbyte_eq; lia.
Qed.

Lemma DecodeString_EncodeToString (l : list byte) :
  base64.DecodeString (base64.EncodeToString l) = Ok l.
Proof.
  unfold base64.DecodeString. rewrite stripNewlines_Encode.
  apply decodeQuanta_Encode.
Qed.

Lemma multibase_Decode_Encode (data : list byte) :
  multibase.Decode (String "u" (base64.EncodeToString data))
  = Ok (multibase.Base64url, data).
Proof.
  cbn [multibase.Decode].
  change (multibase.encodingOf "u") with multibase.Base64url.
  cbv iota. now rewrite DecodeString_EncodeToString.
Qed.

End Base64.

Section Varint.

Lemma lor128_small (y : N) : y < 256 -> N.lor y 128 mod 256 = y mod 128 + 128.
Proof.
  intros H.
  assert (E : (N.lor y 128 mod 256 =? y mod 128 + 128) = true).
  { revert y H. apply (N_lt_forallb 256). vm_compute. reflexivity. }
  now apply N.eqb_eq in E.
Qed.

(** [byte(x) | 0x80]: the low seven bits of [x] under the continuation bit. *)
Lemma lor128 (x : N) : N.lor x 128 mod 256 = x mod 128 + 128.
Proof.
  change 256 with (2 ^ 8). rewrite <- !N.land_ones.
  rewrite N.land_lor_distr_l. change (N.land 128 (N.ones 8)) with 128.
  rewrite N.land_ones. change (2 ^ 8) with 256.
  assert (H : x mod 256 < 256) by (apply N.mod_lt; lia).
  pose proof (lor128_small H) as L.
  rewrite N.mod_small in L.
  - rewrite L. lia.
  - assert (B : (N.lor (x mod 256) 128 <? 256) = true).
    { revert H. generalize (x mod 256). apply (N_lt_forallb 256).
      vm_compute. reflexivity. }
    now apply N.ltb_lt in B.
Qed.

Lemma pow7_pos (i : nat) : 0 < 2 ^ (7 * N.of_nat i).
Proof. apply N.neq_0_lt_0, N.pow_nonzero. lia. Qed.

Lemma pow7_lt63 (i : nat) : 2 ^ (7 * N.of_nat i) < 2 ^ 63 -> (i <= 8)%nat.
Proof. intros H. apply N.pow_lt_mono_r_iff in H; lia. Qed.

Ltac u64_bounds H :=
  change (2 ^ 63) with 9223372036854775808 in H;
  change (2 ^ 64) with 18446744073709551616; lia.

(** The decoder reads back what the encoder wrote, from any position [i]
    of a varint of at most nine bytes: [acc] holds the [7 * i] bits read
    so far and [x] is what is left to write. *)
Lemma fromUvarint_putUvarint (fuel : nat) :
  forall (i : nat) (x acc : N) (rest : list byte),
    (fuel + i = 10)%nat ->
    acc < 2 ^ (7 * N.of_nat i) ->
    x * 2 ^ (7 * N.of_nat i) < 2 ^ 63 ->
    ((0 < i)%nat -> 0 < x) ->
    varint.fromUvarint i (7 * N.of_nat i) acc (varint.putUvarint fuel x ++ rest)
    = Ok (acc + x * 2 ^ (7 * N.of_nat i),
          (i + List.length (varint.putUvarint fuel x))%nat)
    /\ (1 <= List.length (varint.putUvarint fuel x))%nat.
Proof.
  induction fuel as [|fuel IH]; intros i x acc rest Hf Hacc Hx Hpos.
  - exfalso. assert (i = 10%nat) by lia. subst i.
    assert (0 < x) by (apply Hpos; lia).
    change (2 ^ (7 * N.of_nat 10)) with 1180591620717411303424 in Hx.
    change (2 ^ 63) with 9223372036854775808 in Hx. lia.
  - set (p := 2 ^ (7 * N.of_nat i)) in *.
    assert (Hp : 0 < p) by apply pow7_pos.
    cbn [varint.putUvarint].
    destruct (N.ltb_spec x 128) as [Hlt|Hge].
    + (* the last byte *)
      cbn [app varint.fromUvarint List.length].
      assert (Hb : byteN (Nbyte x) = x).
      { rewrite byteN_Nbyte. apply N.mod_small. lia. }
      rewrite Hb.
      assert (Hi : (i <= 8)%nat).
      { destruct i as [|i']; [lia|].
        apply pow7_lt63. fold p.
        assert (0 < x) by (apply Hpos; lia). nia. }
      replace (Nat.eqb i 8 && (128 <=? x)) with false
        by (symmetry; apply andb_false_iff; right; apply N.leb_gt; lia).
      replace (Nat.leb varint.MaxLenUvarint63 i) with false
        by (symmetry; apply Nat.leb_gt; unfold varint.MaxLenUvarint63; lia).
      cbn [orb]. replace (x <? 128) with true by (symmetry; apply N.ltb_lt; lia).
      replace ((x =? 0) && (0 <? 7 * N.of_nat i)) with false.
      2:{ symmetry. apply andb_false_iff.
          destruct i; [right; reflexivity|left].
          apply N.eqb_neq. assert (0 < x) by (apply Hpos; lia). lia. }
      split; [|lia]. f_equal. f_equal; [|lia].
      rewrite N.shiftl_mul_pow2. fold p. unfold u64.
      rewrite (N.mod_small (x * p)) by u64_bounds Hx.
      rewrite N.lor_comm.
      rewrite (@lor_add_disjoint (x * p) acc (7 * N.of_nat i));
        [lia|fold p; apply N.Div0.mod_mul|assumption].
    + (* a byte with the continuation bit *)
      cbn [app varint.fromUvarint List.length].
      assert (Hb : byteN (Nbyte (N.lor x 128)) = x mod 128 + 128).
      { rewrite byteN_Nbyte. apply lor128. }
      rewrite Hb.
      assert (Hp' : 2 ^ (7 * N.of_nat (S i)) = p * 128).
      { replace (7 * N.of_nat (S i)) with (7 * N.of_nat i + 7) by lia.
        rewrite N.pow_add_r. reflexivity. }
      assert (Hi : (i <= 7)%nat).
      { assert (L : 2 ^ (7 * N.of_nat (S i)) < 2 ^ 63) by (rewrite Hp'; nia).
        apply pow7_lt63 in L. lia. }
      replace (Nat.eqb i 8) with false by (symmetry; apply Nat.eqb_neq; lia).
      replace (Nat.leb varint.MaxLenUvarint63 i) with false
        by (symmetry; apply Nat.leb_gt; unfold varint.MaxLenUvarint63; lia).
      cbn [andb orb].
      replace (x mod 128 + 128 <? 128) with false
        by (symmetry; apply N.ltb_ge; lia).
      rewrite land_127.
      replace ((x mod 128 + 128) mod 128) with (x mod 128) by lia.
      replace (7 * N.of_nat i + 7) with (7 * N.of_nat (S i)) by lia.
      rewrite N.shiftl_mul_pow2. fold p. unfold u64.
      assert (Hm : x mod 128 * p < 2 ^ 63) by nia.
      rewrite (N.mod_small (x mod 128 * p)) by u64_bounds Hm.
      rewrite (N.lor_comm acc).
      rewrite (@lor_add_disjoint (x mod 128 * p) acc (7 * N.of_nat i));
        [|fold p; apply N.Div0.mod_mul|assumption].
      rewrite N.shiftr_div_pow2. change (2 ^ 7) with 128.
      destruct (IH (S i) (x / 128) (x mod 128 * p + acc) rest) as [E L].
      * lia.
      * rewrite Hp'. nia.
      * rewrite Hp'. nia.
      * intros _. lia.
      * rewrite E. split; [|lia]. f_equal. f_equal; [|lia].
        rewrite Hp'. nia.
Qed.

Lemma FromUvarint_PutUvarint (x : N) (rest : list byte) :
  x < 2 ^ 63 ->
  varint.FromUvarint (varint.PutUvarint x ++ rest)
  = Ok (x, List.length (varint.PutUvarint x))
  /\ (1 <= List.length (varint.PutUvarint x))%nat.
Proof.
  intros H. unfold varint.FromUvarint, varint.PutUvarint, u64.
  rewrite N.mod_small by u64_bounds H.
  destruct (@fromUvarint_putUvarint 10 0 x 0 rest) as [E L]; try (cbn; lia).
  change (7 * N.of_nat 0) with 0 in E. change (2 ^ 0) with 1 in E.
  rewrite E. split; [|exact L]. f_equal. f_equal. lia.
Qed.

Lemma uvarint_PutUvarint (x : N) (rest : list byte) :
  x < 2 ^ 63 ->
  multihash.uvarint (varint.PutUvarint x ++ rest) = Ok (x, rest).
Proof.
  intros H. unfold multihash.uvarint.
  destruct (FromUvarint_PutUvarint rest H) as [E L]. rewrite E.
  destruct (List.length (varint.PutUvarint x)) eqn:El; [lia|].
  cbn [Nat.eqb]. rewrite <- El, skipn_app_length. reflexivity.
Qed.

(** A multihash decodes to its code and digest. *)
Lemma multihash_Decode_bytes (code : N) (d : list byte) :
  code < 2 ^ 63 -> len d <= multihash.MaxInt32 ->
  multihash.Decode (multihashBytes code d) =
  Ok {| multihash.Code := code; multihash.Name := multihash.Codes code;
        multihash.Length := len d; multihash.Digest := d |}.
Proof.
  intros Hc Hd. unfold multihashBytes.
  assert (Hl : len d < 2 ^ 63).
  { unfold multihash.MaxInt32 in Hd. change (2 ^ 63) with 9223372036854775808. lia. }
  unfold multihash.Decode, multihash.readMultihashFromBuf.
  destruct (FromUvarint_PutUvarint (varint.PutUvarint (len d) ++ d) Hc) as [_ L1].
  destruct (FromUvarint_PutUvarint d Hl) as [_ L2].
  rewrite !len_app.
  replace (len (varint.PutUvarint code)
           + (len (varint.PutUvarint (len d)) + len d) <? 2) with false
    by (symmetry; apply N.ltb_ge; unfold len in *; lia).
  rewrite uvarint_PutUvarint by assumption.
  rewrite uvarint_PutUvarint by assumption.
  replace (multihash.MaxInt32 <? len d) with false
    by (symmetry; apply N.ltb_ge; lia).
  rewrite N.ltb_irrefl.
  replace (len (varint.PutUvarint code)
           + (len (varint.PutUvarint (len d)) + len d) - len d + len d =?
           len (varint.PutUvarint code)
           + (len (varint.PutUvarint (len d)) + len d))
    with true by (symmetry; apply N.eqb_eq; lia).
  cbn [negb].
  replace (firstn (N.to_nat (len d)) d) with d; [reflexivity|].
  unfold len. now rewrite Nat2N.id, firstn_all.
Qed.

Lemma multihash_Encode_bytes (d : list byte) (code : N) :
  multihash.Encode d code = Ok (multihashBytes code d).
Proof. reflexivity. Qed.

Lemma SHA2_256_lt : multihash.SHA2_256 < 2 ^ 63.
Proof. reflexivity. Qed.

End Varint.

(* ================================================================== *)
(** * Fingerprints and certhashes *)

Section Fingerprints.

Lemma EncodeDTLSFingerprint_eq (fp : DTLSFingerprint) (digest : list byte) :
  encoding.DecodeInterspersedHexFromASCIIString (Value fp) = Ok digest ->
  internal.EncodeDTLSFingerprint fp
  = Ok (String "u" (base64.EncodeToString
                      (multihashBytes multihash.SHA2_256 digest))).
Proof.
  intros H. unfold internal.EncodeDTLSFingerprint. now rewrite H.
Qed.

Lemma ValueForProtocol_app (base m : ma.Multiaddr) (code : N) :
  ma.ValueForProtocol base code = Err ma.ErrProtocolNotFound ->
  ma.ValueForProtocol (base ++ m) code = ma.ValueForProtocol m code.
Proof.
  induction base as [|c base IH]; cbn [app ma.ValueForProtocol]; intros H.
  - reflexivity.
  - destruct (ma.Protocol c =? code); [discriminate|]. now apply IH.
Qed.

End Fingerprints.

(** C5 (amended).  For every DTLS fingerprint whose value parses, as the
    form [aa:bb:...], to the digest bytes [digest],
    [EncodeDTLSFingerprint] returns the base64url multibase string (prefix
    [u]) of a multihash of these bytes whose code is always sha2-256,
    whatever the algorithm of the fingerprint is. *)
Theorem C5_encode_dtls_fingerprint :
  forall (fp : DTLSFingerprint) (digest : list byte),
    encoding.DecodeInterspersedHexFromASCIIString (Value fp) = Ok digest ->
    len digest <= multihash.MaxInt32 ->
    exists s data,
      internal.EncodeDTLSFingerprint fp = Ok s /\
      s = String "u" (base64.EncodeToString data) /\
      multibase.Decode s = Ok (multibase.Base64url, data) /\
      multihash.Decode data =
      Ok {| multihash.Code := multihash.SHA2_256;
            multihash.Name := "sha2-256";
            multihash.Length := len digest;
            multihash.Digest := digest |}.
Proof.
  intros fp digest Hv Hl.
  exists (String "u" (base64.EncodeToString
                        (multihashBytes multihash.SHA2_256 digest))),
         (multihashBytes multihash.SHA2_256 digest).
  split; [now apply EncodeDTLSFingerprint_eq|].
  split; [reflexivity|].
  split; [apply multibase_Decode_Encode|].
  now apply (multihash_Decode_bytes digest SHA2_256_lt).
Qed.

Lemma C5_encode_dtls_fingerprint_witness :
  exists s data,
    internal.EncodeDTLSFingerprint Testing.localFingerprint = Ok s /\
    s = String "u" (base64.EncodeToString data) /\
    multibase.Decode s = Ok (multibase.Base64url, data) /\
    multihash.Decode data =
    Ok {| multihash.Code := multihash.SHA2_256;
          multihash.Name := "sha2-256";
          multihash.Length := 32;
          multihash.Digest := Sum Testing.testHashes SHA256 Testing.localDer |}.
Proof.
  apply (@C5_encode_dtls_fingerprint Testing.localFingerprint
           (Sum Testing.testHashes SHA256 Testing.localDer)).
  - vm_compute. reflexivity.
  - vm_compute. discriminate.
Defined.

(** C5 as stated fails: the multihash made from a SHA-512 fingerprint
    carries the code of sha2-256, not the code of the fingerprint's
    algorithm. *)
Lemma C5_counterexample :
  exists s data dm,
    internal.EncodeDTLSFingerprint Testing.fingerprint512 = Ok s /\
    multibase.Decode s = Ok (multibase.Base64url, data) /\
    multihash.Decode data = Ok dm /\
    multihashCodeOfAlgorithm (Algorithm Testing.fingerprint512)
    = Some multihash.SHA2_512 /\
    multihash.Code dm <> multihash.SHA2_512.
Proof.
  eexists. eexists. eexists.
  split; [vm_compute; reflexivity|].
  split; [vm_compute; reflexivity|].
  split; [vm_compute; reflexivity|].
  split; [reflexivity|]. vm_compute. discriminate.
Qed.

(** C6.  The certhash made by [EncodeDTLSFingerprint] from a fingerprint,
    placed in a multiaddress as the listener does, is decoded by
    [DecodeRemoteFingerprint] to exactly the digest bytes of the
    fingerprint. *)
Theorem C6_decode_encode_roundtrip :
  forall (fp : DTLSFingerprint) (digest : list byte) (base : ma.Multiaddr),
    encoding.DecodeInterspersedHexFromASCIIString (Value fp) = Ok digest ->
    len digest <= multihash.MaxInt32 ->
    noCerthash base ->
    exists s certMultiaddress,
      internal.EncodeDTLSFingerprint fp = Ok s /\
      ma.NewMultiaddr_webrtc_certhash s = Ok certMultiaddress /\
      internal.DecodeRemoteFingerprint (ma.Encapsulate base certMultiaddress) =
      Ok {| multihash.Code := multihash.SHA2_256;
            multihash.Name := "sha2-256";
            multihash.Length := len digest;
            multihash.Digest := digest |}.
Proof.
  intros fp digest base Hv Hl Hb.
  pose proof (multihash_Decode_bytes digest SHA2_256_lt Hl) as HD.
  set (data := multihashBytes multihash.SHA2_256 digest) in *.
  exists (String "u" (base64.EncodeToString data)).
  eexists. split; [now apply EncodeDTLSFingerprint_eq|].
  split.
  - unfold ma.NewMultiaddr_webrtc_certhash, ma.certHashStB.
    rewrite multibase_Decode_Encode, HD.
    cbn [ma.certHashBtS multibase.Encode]. reflexivity.
  - unfold internal.DecodeRemoteFingerprint, ma.Encapsulate.
    rewrite ValueForProtocol_app by exact Hb.
    cbn [ma.ValueForProtocol ma.Protocol ma.Value].
    change (ma.P_WEBRTC =? ma.P_CERTHASH) with false.
    change (ma.P_CERTHASH =? ma.P_CERTHASH) with true. cbv iota.
    rewrite multibase_Decode_Encode. exact HD.
Qed.

Lemma C6_decode_encode_roundtrip_witness :
  exists s certMultiaddress,
    internal.EncodeDTLSFingerprint Testing.localFingerprint = Ok s /\
    ma.NewMultiaddr_webrtc_certhash s = Ok certMultiaddress /\
    internal.DecodeRemoteFingerprint
      (ma.Encapsulate Testing.baseAddr certMultiaddress) =
    Ok {| multihash.Code := multihash.SHA2_256;
          multihash.Name := "sha2-256";
          multihash.Length := 32;
          multihash.Digest := Sum Testing.testHashes SHA256 Testing.localDer |}.
Proof.
  apply (@C6_decode_encode_roundtrip Testing.localFingerprint
           (Sum Testing.testHashes SHA256 Testing.localDer) Testing.baseAddr).
  - vm_compute. reflexivity.
  - vm_compute. discriminate.
  - vm_compute. reflexivity.
Defined.

(* ================================================================== *)
(** * Construction and options of the transport *)

Section IceTimeouts.

Local Open Scope Z_scope.

(** The closure, in terms of the timeouts after the replacement of the
    zero fields: they are what its captured variable holds afterwards. *)
Lemma iceTimeoutsOption_effective (v : IceTimeouts) (t : WebRTCTransport) :
  iceTimeoutsOption v t =
  let e := effectiveTimeouts t v in
  (e,
   if negb (Disconnect e =? 0)
      && (negb (Failed e =? 0) && (Failed e <? Disconnect e))
   then (t, Some (errorsNew "disconnect timeout cannot be greater than failed timeout"))
   else if negb (Disconnect e =? 0)
           && (negb (Keepalive e =? 0) && (Disconnect e <=? Keepalive e))
   then (t, Some (errorsNew "keepalive timeout cannot be greater than or equal to failed timeout"))
   else (set_peerConnectionTimeouts t e, None)).
Proof.
  unfold iceTimeoutsOption, effectiveTimeouts.
  destruct v as [d f k]; cbn [Disconnect Failed Keepalive].
  destruct (d =? 0); cbn [Disconnect Failed Keepalive];
    destruct (f =? 0); cbn [Disconnect Failed Keepalive];
    destruct (k =? 0); cbn [Disconnect Failed Keepalive]; reflexivity.
Qed.

Lemma WithPeerConnectionIceTimeouts_effective
      (v : IceTimeouts) (t : WebRTCTransport) :
  WithPeerConnectionIceTimeouts v t =
  let e := effectiveTimeouts t v in
  if negb (Disconnect e =? 0)
     && (negb (Failed e =? 0) && (Failed e <? Disconnect e))
  then (t, Some (errorsNew "disconnect timeout cannot be greater than failed timeout"))
  else if negb (Disconnect e =? 0)
          && (negb (Keepalive e =? 0) && (Disconnect e <=? Keepalive e))
  then (t, Some (errorsNew "keepalive timeout cannot be greater than or equal to failed timeout"))
  else (set_peerConnectionTimeouts t e, None).
Proof.
  unfold WithPeerConnectionIceTimeouts.
  now rewrite iceTimeoutsOption_effective.
Qed.

(** A zero field is replaced on both paths, also when the option rejects:
    a later call of the same option starts from the replaced values. *)
Lemma iceTimeoutsOption_captured (v : IceTimeouts) (t : WebRTCTransport) :
  fst (iceTimeoutsOption v t) = effectiveTimeouts t v.
Proof. now rewrite iceTimeoutsOption_effective. Qed.

(** The two tests of the option pass exactly when the invariants hold
    where they are enabled. *)
Lemma ice_checks (e : IceTimeouts) :
  negb (Disconnect e =? 0)
  && (negb (Failed e =? 0) && (Failed e <? Disconnect e)) = false /\
  negb (Disconnect e =? 0)
  && (negb (Keepalive e =? 0) && (Disconnect e <=? Keepalive e)) = false
  <-> invariantsWhereEnabled e.
Proof.
  unfold invariantsWhereEnabled.
  destruct (Z.eqb_spec (Disconnect e) 0), (Z.eqb_spec (Failed e) 0),
    (Z.eqb_spec (Keepalive e) 0), (Z.ltb_spec (Failed e) (Disconnect e)),
    (Z.leb_spec (Disconnect e) (Keepalive e)); cbn [negb andb];
    intuition (try discriminate; try lia).
Qed.

Lemma effectiveTimeouts_nonzero (v : IceTimeouts) (t : WebRTCTransport) :
  allNonzero (peerConnectionTimeouts t) -> allNonzero (effectiveTimeouts t v).
Proof.
  unfold allNonzero, effectiveTimeouts. cbn [Disconnect Failed Keepalive].
  intros (A & B & C).
  destruct (Z.eqb_spec (Disconnect v) 0), (Z.eqb_spec (Failed v) 0),
    (Z.eqb_spec (Keepalive v) 0); auto.
Qed.

(** The timeouts [New] starts from are not zero. *)
Lemma default_timeouts_nonzero :
  allNonzero {| Disconnect := DefaultDisconnectedTimeout;
                Failed := DefaultFailedTimeout;
                Keepalive := DefaultKeepaliveTimeout |}.
Proof. repeat split; discriminate. Qed.

End IceTimeouts.

(** C4 (amended).  [WithPeerConnectionIceTimeouts] first replaces every
    zero field of the value by the transport's current value of that field
    (the default, unless an earlier option changed it).  It accepts the
    value exactly when [failed >= disconnect] and [disconnect > keepalive]
    hold for the timeouts after this replacement, a check being skipped
    only where a timeout is still zero then; it stores these timeouts when
    it accepts and leaves the transport as it is when it rejects.  On a
    transport whose timeouts are not zero no check is skipped. *)
Theorem C4_ice_timeouts_validation :
  forall (v : IceTimeouts) (t : WebRTCTransport),
    let e := effectiveTimeouts t v in
    let r := WithPeerConnectionIceTimeouts v t in
    (accepted r <-> invariantsWhereEnabled e) /\
    (accepted r -> fst r = set_peerConnectionTimeouts t e) /\
    (~ accepted r -> fst r = t) /\
    (allNonzero (peerConnectionTimeouts t) ->
     allNonzero e /\
     (accepted r <->
      (Disconnect e <= Failed e)%Z /\ (Keepalive e < Disconnect e)%Z)).
Proof.
  intros v t e r.
  assert (Hr : r = WithPeerConnectionIceTimeouts v t) by reflexivity.
  rewrite WithPeerConnectionIceTimeouts_effective in Hr. fold e in Hr.
  cbv zeta in Hr.
  pose proof (ice_checks e) as [Hto Hfrom].
  assert (A : accepted r <-> invariantsWhereEnabled e).
  { unfold accepted. rewrite Hr.
    destruct (negb _ && (_ && (Failed e <? Disconnect e)%Z)) eqn:B1;
      [|destruct (negb _ && (_ && (Disconnect e <=? Keepalive e)%Z)) eqn:B2];
      cbn [snd]; split; intros H; try discriminate H; try reflexivity;
      try (apply Hto; split; reflexivity);
      destruct (Hfrom H) as [X Y]; discriminate. }
  split; [exact A|]. split; [|split].
  - unfold accepted. rewrite Hr.
    destruct (negb _ && (_ && (Failed e <? Disconnect e)%Z));
      [|destruct (negb _ && (_ && (Disconnect e <=? Keepalive e)%Z))];
      cbn [fst snd]; intros H; try discriminate; reflexivity.
  - unfold accepted. rewrite Hr.
    destruct (negb _ && (_ && (Failed e <? Disconnect e)%Z));
      [|destruct (negb _ && (_ && (Disconnect e <=? Keepalive e)%Z))];
      cbn [fst snd]; intros H; try reflexivity. now contradiction H.
  - intros NZ. pose proof (@effectiveTimeouts_nonzero v t NZ) as NE. fold e in NE.
    split; [exact NE|]. rewrite A.
    unfold invariantsWhereEnabled. destruct NE as (D & F & K). intuition lia.
Qed.

Lemma C4_ice_timeouts_validation_witness :
  accepted (WithPeerConnectionIceTimeouts
              {| Disconnect := 0; Failed := 30 * Second; Keepalive := 0 |}
              (Testing.testTransport Testing.secured)) /\
  peerConnectionTimeouts
    (fst (WithPeerConnectionIceTimeouts
            {| Disconnect := 0; Failed := 30 * Second; Keepalive := 0 |}
            (Testing.testTransport Testing.secured)))
  = {| Disconnect := DefaultDisconnectedTimeout; Failed := 30 * Second;
       Keepalive := DefaultKeepaliveTimeout |}.
Proof.
  destruct (C4_ice_timeouts_validation
              {| Disconnect := 0; Failed := 30 * Second; Keepalive := 0 |}
              (Testing.testTransport Testing.secured)) as (A & S & _ & NZ).
  destruct NZ as [_ B]; [exact default_timeouts_nonzero|].
  assert (Acc : accepted (WithPeerConnectionIceTimeouts
                            {| Disconnect := 0; Failed := 30 * Second;
                               Keepalive := 0 |}
                            (Testing.testTransport Testing.secured))).
  { apply B. vm_compute. split; [discriminate|reflexivity]. }
  split; [exact Acc|]. rewrite (S Acc). reflexivity.
Defined.

(** C4 as stated fails: with a zero disconnect timeout every check is
    disabled according to the claim, yet the option rejects a failed
    timeout below the default disconnect timeout; and the zeros it accepts
    are replaced by the defaults. *)
Lemma C4_counterexample :
  invariantsWhereEnabled {| Disconnect := 0; Failed := Second; Keepalive := 0 |} /\
  ~ accepted (WithPeerConnectionIceTimeouts
                {| Disconnect := 0; Failed := Second; Keepalive := 0 |}
                (Testing.testTransport Testing.secured)) /\
  accepted (WithPeerConnectionIceTimeouts
              {| Disconnect := 0; Failed := 0; Keepalive := 0 |}
              (Testing.testTransport Testing.secured)) /\
  peerConnectionTimeouts
    (fst (WithPeerConnectionIceTimeouts
            {| Disconnect := 0; Failed := 0; Keepalive := 0 |}
            (Testing.testTransport Testing.secured)))
  = {| Disconnect := 5 * Second; Failed := 25 * Second; Keepalive := 2 * Second |}.
Proof.
  split; [|split; [|split]].
  - intros H. now contradiction H.
  - vm_compute. discriminate.
  - reflexivity.
  - reflexivity.
Qed.

(** C10.  [New] with a pre-shared key that is not nil returns an error and
    no transport; a transport is returned only when the key is nil. *)
Theorem C10_new_rejects_psk :
  forall (w : NewWorld) (privKey : PrivKey) (psk : option PSK)
         (gater : ConnectionGater) (rcmgr : ResourceManager)
         (opts : list Option),
    (psk <> None ->
     New w privKey psk gater rcmgr opts =
     (None, Some (errorsNew "WebRTC doesn't support private networks yet"))) /\
    (forall t, fst (New w privKey psk gater rcmgr opts) = Some t -> psk = None).
Proof.
  intros w privKey psk gater rcmgr opts. destruct psk as [key|]; split.
  - reflexivity.
  - intros t H. discriminate H.
  - intros H. now contradiction H.
  - reflexivity.
Qed.

Lemma C10_new_rejects_psk_witness :
  New Testing.testNewWorld [] (Some []) 0 Testing.testRcmgr [] =
  (None, Some (errorsNew "WebRTC doesn't support private networks yet")) /\
  (None : option PSK) = None.
Proof.
  split.
  - apply (C10_new_rejects_psk Testing.testNewWorld [] (Some []) 0
                               Testing.testRcmgr []).
    discriminate.
  - apply (proj2 (C10_new_rejects_psk Testing.testNewWorld
                                      (privKey (Testing.testTransport Testing.secured))
                                      None 0 Testing.testRcmgr [])
                 (Testing.testTransport Testing.secured)).
    reflexivity.
Defined.

(* ================================================================== *)
(** * The Noise prologue *)

Section Prologue.

Lemma Ok_inj (A : Type) (x y : A) : Ok x = Ok y -> x = y.
Proof. intros H. now injection H. Qed.

(** What [generateNoisePrologue] returns when nothing fails: the prefix
    and two multihashes of code sha2-256, the remote one over the digest
    of the remote certificate under the algorithm [hash], the local one
    over the digest in the transport certificate's DTLS fingerprint. *)
Lemma generateNoisePrologue_value
      (w : World) (t : WebRTCTransport) (pc : PeerConnection) (hash : Hash)
      (inbound : bool) (localFp : DTLSFingerprint) (localDigest : list byte) :
  x509_reject w (GetRemoteCertificate pc) = None ->
  getCertificateFingerprint t = Ok localFp ->
  encoding.DecodeInterspersedHexFromASCIIString (Value localFp)
  = Ok localDigest ->
  Available (hashes w) hash = true ->
  generateNoisePrologue w t pc hash inbound =
  Ok (prologuePrefix ++
      (if inbound
       then multihashBytes multihash.SHA2_256
                           (Sum (hashes w) hash (GetRemoteCertificate pc))
            ++ multihashBytes multihash.SHA2_256 localDigest
       else multihashBytes multihash.SHA2_256 localDigest
            ++ multihashBytes multihash.SHA2_256
                              (Sum (hashes w) hash (GetRemoteCertificate pc)))).
Proof.
  intros Hx Hfp Hdec Hav.
  unfold generateNoisePrologue, ParseCertificate, internal.Fingerprint.
  rewrite Hx, Hfp. cbn [Raw]. rewrite Hav. cbn [negb]. rewrite Hdec.
  rewrite !multihash_Encode_bytes. unfold prologuePrefix.
  destruct inbound; now rewrite <- app_assoc.
Qed.

(** Whatever the hash implementations are, as long as a digest has the
    size of its algorithm: the remote part is not [multihash(sha256, der)]
    for an algorithm whose digests are not 32 bytes long. *)
Lemma remote_part_not_sha256_multihash
      (hs : HashSuite) (hash : Hash) (der : list byte) :
  sized hs -> Size hash <> 32%nat ->
  multihashBytes multihash.SHA2_256 (Sum hs hash der) <> multihashSha256 hs der.
Proof.
  intros Hs Hn E. unfold multihashSha256, multihashBytes in E.
  apply app_inv_head in E. apply (f_equal (@List.length byte)) in E.
  rewrite !length_app in E. unfold len in E. rewrite !Hs in E.
  destruct hash; vm_compute in E; try discriminate E; now apply Hn.
Qed.

Lemma testHashes_sized : sized Testing.testHashes.
Proof.
  intros h data. unfold Testing.testHashes. cbn [Sum].
  now rewrite length_map, length_seq.
Qed.

(** A sha2-256 multihash of a digest: the code, the length, the digest. *)
Lemma multihashBytes_digest (hs : HashSuite) (h : Hash) (data : list byte) :
  sized hs ->
  multihashBytes multihash.SHA2_256 (Sum hs h data)
  = Nbyte 18 :: Nbyte (N.of_nat (Size h)) :: Sum hs h data.
Proof.
  intros Hs. unfold multihashBytes, len. rewrite Hs.
  destruct h; reflexivity.
Qed.

Lemma size_byte (h : Hash) :
  Nbyte (N.of_nat (Size h)) = Nbyte 32 -> Size h = 32%nat.
Proof. destruct h; cbn; intros E; try reflexivity; discriminate E. Qed.

Lemma app_inj_length (A : Type) (a b x y : list A) :
  List.length a = List.length b -> a ++ x = b ++ y -> a = b /\ x = y.
Proof.
  revert b. induction a as [|u a IH]; intros [|v b] Hl E;
    try discriminate Hl.
  - now split.
  - cbn in E. injection E as -> E. injection Hl as Hl.
    destruct (IH b Hl E) as [-> ->]. now split.
Qed.

End Prologue.

(** C1 (the code breaks it).  [generateNoisePrologue] hashes the remote
    certificate with the algorithm it is passed and labels the digest
    sha2-256.  For an algorithm whose digests are not 32 bytes long
    (SHA-512: a dial to a sha2-512 certhash) the prologue it returns is
    not the one of the claim, whose two parts are [multihash(sha256, der)];
    and no peer whose certificate is the remote one, in the other role
    and with any algorithm, computes the same prologue from its own
    SHA-256 fingerprint: the handshake cannot succeed. *)
Theorem C1_other_hash_breaks_prologue :
  forall (w : World) (t : WebRTCTransport) (pc : PeerConnection) (hash : Hash)
         (inbound : bool) (fp : DTLSFingerprint) (localDer : list byte),
    sized (hashes w) -> Size hash <> 32%nat ->
    Available (hashes w) hash = true ->
    x509_reject w (GetRemoteCertificate pc) = None ->
    getCertificateFingerprint t = Ok fp ->
    Value fp
    = encoding.EncodeInterspersedHex (Sum (hashes w) SHA256 localDer) ->
    exists prologue,
      generateNoisePrologue w t pc hash inbound = Ok prologue /\
      prologue <> claimedPrologue (hashes w) inbound localDer
                                  (GetRemoteCertificate pc) /\
      forall (w' : World) (t' : WebRTCTransport) (pc' : PeerConnection)
             (hash' : Hash) (fp' : DTLSFingerprint),
        hashes w' = hashes w ->
        getCertificateFingerprint t' = Ok fp' ->
        Value fp'
        = encoding.EncodeInterspersedHex
            (Sum (hashes w) SHA256 (GetRemoteCertificate pc)) ->
        generateNoisePrologue w' t' pc' hash' (negb inbound) <> Ok prologue.
Proof.
  intros w t pc hash inbound fp localDer Hs Hn Hav Hx Hfp Hv.
  assert (Hdec : encoding.DecodeInterspersedHexFromASCIIString (Value fp)
                 = Ok (Sum (hashes w) SHA256 localDer))
    by (rewrite Hv; apply Decode_EncodeInterspersedHex).
  rewrite (@generateNoisePrologue_value w t pc hash inbound fp _ Hx Hfp Hdec Hav).
  eexists. split; [reflexivity|]. split.
  - unfold claimedPrologue. intros E. apply app_inv_head in E.
    fold (multihashSha256 (hashes w) localDer) in E.
    apply (@remote_part_not_sha256_multihash (hashes w) hash
             (GetRemoteCertificate pc) Hs Hn).
    destruct inbound.
    + apply app_inv_tail in E. exact E.
    + apply app_inv_head in E. exact E.
  - intros w' t' pc' hash' fp' Hw Hfp' Hv'.
    destruct (x509_reject w' (GetRemoteCertificate pc')) as [e|] eqn:Hx'.
    { unfold generateNoisePrologue, ParseCertificate. rewrite Hx'.
      discriminate. }
    destruct (Available (hashes w') hash') eqn:Hav'.
    2:{ unfold generateNoisePrologue, ParseCertificate, internal.Fingerprint.
        rewrite Hx', Hfp'. cbn [Raw]. rewrite Hav'. discriminate. }
    assert (Hdec' : encoding.DecodeInterspersedHexFromASCIIString (Value fp')
                    = Ok (Sum (hashes w) SHA256 (GetRemoteCertificate pc)))
      by (rewrite Hv'; apply Decode_EncodeInterspersedHex).
    rewrite (@generateNoisePrologue_value w' t' pc' hash' (negb inbound) fp' _
               Hx' Hfp' Hdec' Hav').
    rewrite Hw. intros E. apply Ok_inj in E. apply app_inv_head in E.
    rewrite !(multihashBytes_digest _ _ Hs) in E.
    destruct inbound; cbn [negb app] in E.
    + (* here the remote part comes first, there the local one *)
      injection E as E _. apply Hn. apply size_byte. now rewrite E.
    + injection E as E1 E2. apply size_byte in E1.
      apply app_inj_length in E2; [|now rewrite !Hs, E1].
      destruct E2 as [_ E2]. injection E2 as E2 _.
      apply Hn. now apply size_byte.
Qed.

Lemma C1_other_hash_breaks_prologue_witness :
  exists prologue,
    generateNoisePrologue Testing.testWorld
                          (Testing.testTransport Testing.secured)
                          Testing.testPc SHA512 false = Ok prologue /\
    prologue <> claimedPrologue Testing.testHashes false
                                Testing.localDer Testing.remoteDer /\
    generateNoisePrologue Testing.testWorld MoreTesting.peerTransport
                          MoreTesting.peerPc SHA512 true <> Ok prologue.
Proof.
  destruct (@C1_other_hash_breaks_prologue
              Testing.testWorld (Testing.testTransport Testing.secured)
              Testing.testPc SHA512 false Testing.localFingerprint
              Testing.localDer) as (prologue & E & Hc & Hp).
  - exact testHashes_sized.
  - discriminate.
  - reflexivity.
  - reflexivity.
  - reflexivity.
  - reflexivity.
  - exists prologue. split; [exact E|]. split; [exact Hc|].
    apply (Hp Testing.testWorld MoreTesting.peerTransport MoreTesting.peerPc
              SHA512 MoreTesting.peerFingerprint); reflexivity.
Defined.

(* ================================================================== *)
(** * Dialing: the trace of [dial] and [Dial] *)

Section DialTrace.

Variables (w : World) (t : WebRTCTransport) (ctx : Context).

Lemma count_app (p : event -> bool) (l r : list event) :
  count p (l ++ r) = (count p l + count p r)%nat.
Proof. unfold count. now rewrite filter_app, length_app. Qed.

(** The handshake adds nothing to the trace when it fails before securing,
    and one event of its role otherwise. *)
Lemma noiseHandshake_events
      (pc : PeerConnection) (ch : webRTCStream) (p : PeerID) (hash : Hash)
      (inbound : bool) (tr : list event) :
  exists added,
    snd (noiseHandshake w t ctx pc ch p hash inbound tr) = tr ++ added /\
    (added = [] \/
     exists prologue,
       generateNoisePrologue w t pc hash inbound = Ok prologue /\
       added = noiseEvents inbound prologue p) /\
    (forall c, fst (noiseHandshake w t ctx pc ch p hash inbound tr) = Secured c ->
               added <> []).
Proof.
  unfold noiseHandshake.
  destruct (generateNoisePrologue w t pc hash inbound) as [prologue|e].
  2:{ exists []. cbn. rewrite app_nil_r. repeat split; auto. discriminate. }
  destruct (WithSessionOptions _ _) as [st|e].
  2:{ exists []. cbn. rewrite app_nil_r. repeat split; auto. discriminate. }
  exists (noiseEvents inbound prologue p).
  destruct inbound; cbn [noiseEvents].
  - destruct (SecureOutbound st ctx ch p); cbn; repeat split; eauto; discriminate.
  - destruct (SecureInbound st ctx ch p); cbn; repeat split; eauto; discriminate.
Qed.

(** A [return] of [dial] before the peer connection exists, and one after:
    the deferred function then closes the peer connection. *)
Ltac returns_early :=
  exists []; rewrite app_nil_r; auto.

Ltac returns_with_pc :=
  eexists; rewrite <- app_assoc; split; [reflexivity|]; cbn; auto.

(** What [dial] adds to the trace, by its results: the scope is released
    and the connection closed exactly when [dial] returns a connection
    together with an error. *)
Lemma dial_events
      (scope : ConnManagementScope) (addr : ma.Multiaddr) (p : PeerID)
      (tr : list event) :
  exists added,
    snd (dial w t ctx scope addr p tr) = tr ++ added /\
    count isSecureOutbound added = 0%nat /\
    match fst (dial w t ctx scope addr p tr) with
    | (Some c, None) =>
        count isSecureInbound added = 1%nat /\
        count (isScopeDone (scopeId scope)) added = 0%nat /\
        count isConnClose added = 0%nat /\
        connScope c = scope
    | (None, Some _) =>
        count (isScopeDone (scopeId scope)) added = 0%nat /\
        count isConnClose added = 0%nat
    | (Some c, Some _) =>
        count (isScopeDone (scopeId scope)) added = 1%nat /\
        count isConnClose added = 1%nat
    | (None, None) => False
    end.
Proof.
  unfold dial, dialBody, bind, orWrap, orFail, checkWrap, liftTrace,
    newConnection.
  destruct (internal.DecodeRemoteFingerprint addr) as [mh|e]; cbn;
    [|returns_early].
  destruct (GetSupportedSDPHash w (multihash.Code mh)) as [h|]; cbn;
    [|returns_early].
  destruct (DialArgs w addr) as [[nw host]|e]; cbn; [|returns_early].
  destruct (ResolveUDPAddr w nw host) as [raddr|e]; cbn; [|returns_early].
  destruct (NewPeerConnection w _ _) as [pc|e]; cbn; [|returns_early].
  destruct (CreateDataChannel pc _ _ _) as [dc|e]; cbn; [|returns_with_pc].
  destruct (CreateOffer pc) as [offer|e]; cbn; [|returns_with_pc].
  destruct (SetLocalDescription pc offer) as [e|]; cbn; [returns_with_pc|].
  destruct (RenderServerSdp w _ _ _) as [sdp|e]; cbn; [|returns_with_pc].
  destruct (SetRemoteDescription pc _) as [e|]; cbn; [returns_with_pc|].
  destruct (awaitOpen w _ pc ctx) as [[e|]|]; cbn;
    [returns_with_pc| |returns_with_pc].
  destruct (GetDetachedChannel w ctx dc) as [det|e]; cbn; [|returns_with_pc].
  destruct (GetSelectedCandidatePair dc) as [[cp|] [e|]]; cbn;
    [returns_with_pc| |returns_with_pc|returns_with_pc].
  destruct (FromNetAddr w _) as [laddr|e]; cbn; [|returns_with_pc].
  destruct (newConnectionError w pc) as [e|]; cbn; [returns_with_pc|].
  match goal with
  | |- context [noiseHandshake w t ctx ?pc ?ch ?p ?h false ?tr0] =>
      destruct (noiseHandshake_events pc ch p h false tr0)
        as (nadd & Htr & Hshape & Hsec);
      destruct (noiseHandshake w t ctx pc ch p h false tr0) as [out tr1]
  end.
  cbn [fst snd] in *. subst tr1.
  assert (Hn : count isSecureOutbound nadd = 0%nat /\
               count (isScopeDone (scopeId scope)) nadd = 0%nat /\
               count isConnClose nadd = 0%nat /\
               (nadd <> [] -> count isSecureInbound nadd = 1%nat)).
  { destruct Hshape as [->|(pr & _ & ->)]; cbn; repeat split; auto.
    intros H; now contradiction H. }
  destruct Hn as (N1 & N2 & N3 & N4).
  destruct out as [c|c e]; cbn.
  - (* secured *)
    exists (EvNewPeerConnection (pcId pc) :: nadd).
    rewrite <- app_assoc. split; [reflexivity|].
    change (EvNewPeerConnection (pcId pc) :: nadd)
      with ([EvNewPeerConnection (pcId pc)] ++ nadd).
    rewrite !count_app, N1, N2, N3. cbn. repeat split; auto.
    apply N4. eapply Hsec. reflexivity.
  - (* the handshake failed: [return conn, err] *)
    unfold connection_Close. cbn.
    exists ((EvNewPeerConnection (pcId pc) :: nadd) ++
            [EvPcClose (pcId pc); EvConnClose (pcId pc);
             EvScopeDone (scopeId scope)]).
    split.
    + rewrite <- !app_assoc. cbn. reflexivity.
    + change (EvNewPeerConnection (pcId pc) :: nadd)
        with ([EvNewPeerConnection (pcId pc)] ++ nadd).
      rewrite !count_app, N1, N2, N3. cbn. rewrite N.eqb_refl. cbn. auto.
Qed.

(** What [Dial] adds to the trace once the scope is open: on failure the
    scope is released once by [Dial] itself, and once more for every
    connection that [dial] has closed. *)
Lemma Dial_events
      (addr : ma.Multiaddr) (p : PeerID) (tr : list event)
      (scope : ConnManagementScope) :
  OpenConnection (rcmgr t) DirOutbound false addr = Ok scope ->
  exists added,
    snd (Dial w t ctx addr p tr) = tr ++ added /\
    count isSecureOutbound added = 0%nat /\
    match fst (Dial w t ctx addr p tr) with
    | (Some c, None) =>
        count isSecureInbound added = 1%nat /\
        count (isScopeDone (scopeId scope)) added = 0%nat /\
        connScope c = scope
    | (None, Some _) =>
        count (isScopeDone (scopeId scope)) added
        = (1 + count isConnClose added)%nat /\
        (count isConnClose added <= 1)%nat
    | _ => False
    end.
Proof.
  intros HO. unfold Dial. rewrite HO.
  destruct (SetPeer scope p) as [e|].
  { exists [EvOpenConnection (scopeId scope); EvScopeDone (scopeId scope)].
    rewrite <- app_assoc. cbn. rewrite N.eqb_refl. cbn. auto. }
  destruct (dial_events scope addr p (tr ++ [EvOpenConnection (scopeId scope)]))
    as (added & Htr & Hout & Hres).
  destruct (dial w t ctx scope addr p (tr ++ [EvOpenConnection (scopeId scope)]))
    as [[conn err] tr1].
  cbn [fst snd] in *. subst tr1.
  destruct err as [e|]; cbn [fst snd].
  - exists ((EvOpenConnection (scopeId scope) :: added)
            ++ [EvScopeDone (scopeId scope)]).
    split; [now rewrite <- !app_assoc|].
    change (EvOpenConnection (scopeId scope) :: added)
      with ([EvOpenConnection (scopeId scope)] ++ added).
    rewrite !count_app, Hout. cbn. rewrite N.eqb_refl. cbn.
    destruct conn as [c|]; destruct Hres as [H1 H2]; rewrite H1, H2; auto.
  - exists (EvOpenConnection (scopeId scope) :: added).
    split; [now rewrite <- !app_assoc|].
    change (EvOpenConnection (scopeId scope) :: added)
      with ([EvOpenConnection (scopeId scope)] ++ added).
    rewrite !count_app, Hout. cbn.
    destruct conn as [c|]; [|contradiction].
    destruct Hres as (H1 & H2 & H3 & H4). rewrite H1, H2. auto.
Qed.

(** How often a [Dial] from the empty trace releases its scope: not at all
    when it returns a connection, and on failure once, plus once for the
    connection that [dial] has closed. *)
Lemma Dial_scope_done_count
      (addr : ma.Multiaddr) (p : PeerID) (scope : ConnManagementScope) :
  OpenConnection (rcmgr t) DirOutbound false addr = Ok scope ->
  count (isScopeDone (scopeId scope)) (snd (Dial w t ctx addr p [])) =
  match snd (fst (Dial w t ctx addr p [])) with
  | None => 0%nat
  | Some _ => (1 + count isConnClose (snd (Dial w t ctx addr p [])))%nat
  end.
Proof.
  intros HO. destruct (Dial_events addr p [] HO) as (added & Htr & _ & Hres).
  rewrite Htr. cbn [app].
  destruct (fst (Dial w t ctx addr p [])) as [[c|] [e|]]; cbn [snd];
    try contradiction; apply Hres.
Qed.

End DialTrace.

(** C9.  When the certhash of the remote multiaddress decodes to a
    multihash whose code is not in the table of supported hashes, [dial]
    returns no connection and a non-nil error (the format
    ["unsupported hash function: %w"] applied to nil), and adds nothing to
    the trace: no peer connection has been created. *)
Theorem C9_unsupported_hash :
  forall (w : World) (t : WebRTCTransport) (ctx : Context)
         (scope : ConnManagementScope) (remoteMultiaddr : ma.Multiaddr)
         (p : PeerID) (tr : list event)
         (remoteMultihash : multihash.DecodedMultihash),
    internal.DecodeRemoteFingerprint remoteMultiaddr = Ok remoteMultihash ->
    GetSupportedSDPHash w (multihash.Code remoteMultihash) = None ->
    dial w t ctx scope remoteMultiaddr p tr =
    ((None, Some (fmtErrorf "unsupported hash function: %w" None [])), tr) /\
    count isNewPeerConnection (snd (dial w t ctx scope remoteMultiaddr p tr))
    = count isNewPeerConnection tr.
Proof.
  intros w t ctx scope addr p tr mh HD HS.
  assert (E : dial w t ctx scope addr p tr =
              ((None, Some (fmtErrorf "unsupported hash function: %w" None [])), tr)).
  { unfold dial, dialBody, bind, orWrap. rewrite HD. cbn. now rewrite HS. }
  split; [exact E|]. now rewrite E.
Qed.

Lemma C9_unsupported_hash_witness :
  dial Testing.testWorld (Testing.testTransport Testing.secured) Testing.testCtx
       Testing.testScope Testing.unknownHashAddr Testing.remotePeer [] =
  ((None, Some (fmtErrorf "unsupported hash function: %w" None [])), []).
Proof.
  refine (proj1 (@C9_unsupported_hash Testing.testWorld
                   (Testing.testTransport Testing.secured) Testing.testCtx
                   Testing.testScope Testing.unknownHashAddr Testing.remotePeer []
                   {| multihash.Code := 255; multihash.Name := "";
                      multihash.Length := 32;
                      multihash.Digest :=
                        Sum Testing.testHashes SHA256 Testing.remoteDer |}
                   _ _)).
  - vm_compute. reflexivity.
  - reflexivity.
Defined.

(** C3 (the code breaks it).  A dial in which the peer connection opens,
    the connection object is constructed and the Noise handshake then
    fails: [Dial] returns the error, and the scope has been released
    twice, once by the deferred function of [dial] closing the connection
    and once by [Dial]. *)
Theorem C3_noise_failure_releases_scope_twice :
  exists err tr,
    Dial Testing.testWorld (Testing.testTransport Testing.peerMismatch)
         Testing.testCtx Testing.remoteAddr Testing.remotePeer []
    = ((None, Some err), tr) /\
    count (isScopeDone (scopeId Testing.testScope)) tr = 2%nat.
Proof.
  eexists. eexists. split; vm_compute; reflexivity.
Qed.

(* ================================================================== *)
(** * The stream reader *)

Create HintDb stream_later.

Section StreamStates.

Import Stream.

Lemma afterLoad_returned (b : nat) (s : stream) (msg : pb_Message)
      (s' : stream) (r : ReadResult) :
  afterLoad b s msg = (s', Some r) -> r <> Blocked.
Proof.
  unfold afterLoad. destruct (Nat.ltb _ _).
  - intros [= _ <-]. discriminate.
  - destruct (closeErr _); [intros [= _ <-]; discriminate|].
    destruct (receiveState _); intros [= _ <-] || intros [=]; discriminate.
Qed.

Lemma readMsgFailed_returned (s : stream) (err : error) (s' : stream) :
  readMsgFailed s err <> (s', Blocked).
Proof.
  unfold readMsgFailed.
  destruct (isEOF err), (receiveState s); intros [=].
Qed.

(** A loop that is waiting in [ReadMsg] goes on with the next calls. *)
Lemma readLoop_app (b : nat) (r1 r2 : list ReadStep) (s s1 : stream) :
  readLoop b r1 s = (s1, Blocked) -> readLoop b (r1 ++ r2) s = readLoop b r2 s1.
Proof.
  revert s. induction r1 as [|st r1 IH]; intros s; cbn [readLoop app].
  - now intros [= <-].
  - destruct (outcome st) as [msg|e].
    + destruct (afterLoad _ _ _) as [s' [r|]] eqn:E.
      * intros [= _ ->]. now apply afterLoad_returned in E.
      * apply IH.
    + intros H. now apply readMsgFailed_returned in H.
Qed.

Lemma Read_app (b : nat) (r1 r2 : list ReadStep) (s s1 : stream) :
  Read b r1 s = (s1, Blocked) -> Read b (r1 ++ r2) s = readLoop b r2 s1.
Proof.
  unfold Read.
  destruct (closeErr s); [intros [=]|].
  destruct (receiveState s); try (intros [=]; fail).
  destruct (Nat.eqb b 0); [intros [=]|].
  destruct (nextMessage s) as [msg|].
  - destruct (afterLoad b s msg) as [s' [r|]] eqn:E.
    + intros [= _ ->]. now apply afterLoad_returned in E.
    + apply readLoop_app.
  - apply readLoop_app.
Qed.

Lemma later_refl (s : stream) : later s s.
Proof. split; auto. Qed.

Lemma later_trans (s1 s2 s3 : stream) : later s1 s2 -> later s2 s3 -> later s1 s3.
Proof. intros [A B] [C D]. split; auto. Qed.

Lemma set_nextMessage_later (s : stream) (v : option pb_Message) :
  later s (set_nextMessage s v).
Proof. split; auto. Qed.

Lemma writeMsgOnWriter_later (s : stream) (msg : pb_Message) (werr : option error) :
  later s (fst (writeMsgOnWriter s msg werr)).
Proof. destruct werr; cbn; split; auto. Qed.

Lemma processIncomingFlag_later (s : stream) (flag : option Message_Flag) :
  later s (processIncomingFlag s flag).
Proof.
  unfold later, leftReceiving, leftSending.
  destruct flag as [[| |]|]; cbn; try (split; auto; fail).
  - destruct (receiveState s) eqn:E; cbn; rewrite ?E; split; auto;
      intros; discriminate.
  - split; auto. intros; discriminate.
  - split; auto. intros; discriminate.
Qed.

Lemma CloseRead_later (werr : option error) (s : stream) :
  later s (fst (CloseRead werr s)).
Proof.
  unfold CloseRead, writeMsgOnWriter, later, leftReceiving, leftSending.
  destruct werr, (receiveState s) eqn:E, (closeErr s) eqn:C;
    cbn; rewrite ?E; split; auto; intros; discriminate.
Qed.

Lemma applyConc_later (s : stream) (c : concOp) : later s (applyConc s c).
Proof.
  destruct c; cbn [applyConc].
  - apply CloseRead_later.
  - unfold Write. destruct (sendState s); try apply later_refl.
    apply writeMsgOnWriter_later.
  - unfold CloseWrite, writeMsgOnWriter, later, leftReceiving, leftSending.
    destruct werr; cbn; split; auto; intros; discriminate.
  - unfold Reset, writeMsgOnWriter, later, leftReceiving, leftSending.
    destruct werr; cbn; split; intros; discriminate.
  - apply processIncomingFlag_later.
Qed.

#[local] Hint Resolve later_refl set_nextMessage_later applyConc_later
     processIncomingFlag_later : stream_later.

Lemma interfere_later (cs : list concOp) (s : stream) : later s (interfere cs s).
Proof.
  unfold interfere. revert s. induction cs as [|c cs IH]; intros s; cbn.
  - auto with stream_later.
  - eapply later_trans; [apply applyConc_later|apply IH].
Qed.

Lemma readMsgFailed_later (s : stream) (err : error) :
  later s (fst (readMsgFailed s err)).
Proof.
  unfold readMsgFailed.
  destruct (isEOF err), (receiveState s) eqn:E; cbn; try apply later_refl;
    unfold later, leftReceiving, leftSending; cbn; split; auto;
    intros; discriminate.
Qed.

Lemma afterLoad_later (b : nat) (s : stream) (msg : pb_Message) :
  later s (fst (afterLoad b s msg)).
Proof.
  unfold afterLoad. destruct (Nat.ltb _ _); cbn [fst];
    [apply set_nextMessage_later|].
  assert (L : later s (set_nextMessage (processIncomingFlag s (Flag msg)) None)).
  { eapply later_trans; auto with stream_later. }
  destruct (closeErr _); [exact L|].
  destruct (receiveState _); exact L.
Qed.

Lemma readLoop_later (b : nat) (reader : list ReadStep) (s : stream) :
  later s (fst (readLoop b reader s)).
Proof.
  revert s. induction reader as [|st reader IH]; intros s; cbn [readLoop].
  - apply later_refl.
  - eapply later_trans; [apply (interfere_later (concurrent st))|].
    destruct (outcome st) as [msg|e].
    + pose proof (afterLoad_later b
                    (set_nextMessage (interfere (concurrent st) s) (Some msg))
                    msg) as L.
      destruct (afterLoad _ _ _) as [s' [r|]]; cbn [fst] in *.
      * eapply later_trans; [apply set_nextMessage_later|exact L].
      * eapply later_trans;
          [eapply later_trans; [apply set_nextMessage_later|exact L]|apply IH].
    + apply readMsgFailed_later.
Qed.

Lemma Read_later (b : nat) (reader : list ReadStep) (s : stream) :
  later s (fst (Read b reader s)).
Proof.
  unfold Read.
  destruct (closeErr s); [apply later_refl|].
  destruct (receiveState s) eqn:E; try apply later_refl.
  destruct (Nat.eqb b 0); [apply later_refl|].
  destruct (nextMessage s) as [msg|]; [|apply readLoop_later].
  pose proof (afterLoad_later b s msg) as L.
  destruct (afterLoad b s msg) as [s' [r|]]; cbn [fst] in *; [exact L|].
  eapply later_trans; [exact L|apply readLoop_later].
Qed.

Lemma step_later (s : stream) (o : op) : later s (step s o).
Proof. destruct o; [apply Read_later|apply applyConc_later]. Qed.

Lemma run_later (ops : list op) (s : stream) : later s (run ops s).
Proof.
  unfold run. revert s. induction ops as [|o ops IH]; intros s; cbn.
  - apply later_refl.
  - eapply later_trans; [apply step_later|apply IH].
Qed.

End StreamStates.

(** C7.  A [Read] that has used the calls [reader] of [ReadMsg] and is
    waiting in the next one, which returns [io.EOF]: if the receive state
    is data-read when the mutex is taken again, [Read] returns [io.EOF];
    otherwise the receive state becomes reset and [Read] returns
    [network.ErrReset]. *)
Theorem C7_eof_without_fin_is_reset :
  forall (b : nat) (reader : list Stream.ReadStep) (s s1 : Stream.stream)
         (conc : list Stream.concOp) (rest : list Stream.ReadStep),
    Stream.Read b reader s = (s1, Stream.Blocked) ->
    let s2 := Stream.interfere conc s1 in
    Stream.Read b (reader ++ {| Stream.concurrent := conc;
                                Stream.outcome := Err io_EOF |} :: rest) s =
    match Stream.receiveState s2 with
    | Stream.receiveStateDataRead => (s2, Stream.Returned [] (Some io_EOF))
    | _ => (Stream.set_receiveState s2 Stream.receiveStateReset,
            Stream.Returned [] (Some ErrReset))
    end.
Proof.
  intros b reader s s1 conc rest H s2.
  rewrite (@Read_app b reader _ s s1 H).
  cbn [Stream.readLoop Stream.concurrent Stream.outcome].
  fold s2. unfold Stream.readMsgFailed. cbn [Stream.isEOF].
  destruct (Stream.receiveState s2); reflexivity.
Qed.

Lemma C7_eof_without_fin_is_reset_witness :
  Stream.Read 6 [ {| Stream.concurrent := []; Stream.outcome := Err io_EOF |} ]
              Testing.freshStream =
  (Stream.set_receiveState Testing.freshStream Stream.receiveStateReset,
   Stream.Returned [] (Some ErrReset)) /\
  Stream.Read 6 [ {| Stream.concurrent :=
                       [Stream.ConcIncomingFlag (Some Stream.Message_FIN)];
                     Stream.outcome := Err io_EOF |} ]
              Testing.freshStream =
  (Stream.set_receiveState Testing.freshStream Stream.receiveStateDataRead,
   Stream.Returned [] (Some io_EOF)).
Proof.
  split.
  - apply (@C7_eof_without_fin_is_reset 6%nat [] Testing.freshStream
             Testing.freshStream [] []).
    reflexivity.
  - apply (@C7_eof_without_fin_is_reset 6%nat [] Testing.freshStream
             Testing.freshStream
             [Stream.ConcIncomingFlag (Some Stream.Message_FIN)] []).
    reflexivity.
Defined.

(** C8.  For every stream and every sequence of operations on it (reads,
    with what other goroutines do during them, [CloseRead], writes,
    [CloseWrite], [Reset], flags processed by the control-message reader):
    once the receive state is not receiving it is not receiving after any
    further operations, and once the send state is not sending it is not
    sending after any further operations. *)
Theorem C8_stream_states_monotone :
  forall (ops1 ops2 : list Stream.op) (s : Stream.stream),
    (Stream.receiveState (Stream.run ops1 s) <> Stream.receiveStateReceiving ->
     Stream.receiveState (Stream.run (ops1 ++ ops2) s)
     <> Stream.receiveStateReceiving) /\
    (Stream.sendState (Stream.run ops1 s) <> Stream.sendStateSending ->
     Stream.sendState (Stream.run (ops1 ++ ops2) s) <> Stream.sendStateSending).
Proof.
  intros ops1 ops2 s.
  replace (Stream.run (ops1 ++ ops2) s)
    with (Stream.run ops2 (Stream.run ops1 s))
    by (unfold Stream.run; now rewrite fold_left_app).
  exact (run_later ops2 (Stream.run ops1 s)).
Qed.

Lemma C8_stream_states_monotone_witness :
  Stream.receiveState
    (Stream.run ([Stream.OpOther (Stream.ConcCloseRead None)] ++
                 [Stream.OpRead 6 [ {| Stream.concurrent := [];
                                       Stream.outcome :=
                                         Ok {| Stream.Flag := Some Stream.Message_FIN;
                                               Stream.Message := [] |} |} ];
                  Stream.OpOther (Stream.ConcWrite [] None)])
                Testing.freshStream)
  <> Stream.receiveStateReceiving /\
  Stream.sendState
    (Stream.run ([Stream.OpOther (Stream.ConcCloseWrite None)] ++
                 [Stream.OpOther (Stream.ConcIncomingFlag
                                    (Some Stream.Message_STOP_SENDING));
                  Stream.OpOther (Stream.ConcReset None)])
                Testing.freshStream)
  <> Stream.sendStateSending.
Proof.
  split.
  - apply (C8_stream_states_monotone
             [Stream.OpOther (Stream.ConcCloseRead None)]
             [Stream.OpRead 6 [ {| Stream.concurrent := [];
                                   Stream.outcome :=
                                     Ok {| Stream.Flag := Some Stream.Message_FIN;
                                           Stream.Message := [] |} |} ];
              Stream.OpOther (Stream.ConcWrite [] None)]
             Testing.freshStream).
    vm_compute. discriminate.
  - apply (C8_stream_states_monotone
             [Stream.OpOther (Stream.ConcCloseWrite None)]
             [Stream.OpOther (Stream.ConcIncomingFlag
                                (Some Stream.Message_STOP_SENDING));
              Stream.OpOther (Stream.ConcReset None)]
             Testing.freshStream).
    vm_compute. discriminate.
Defined.

(* ================================================================== *)
(** * More on the stream reader *)

Section StreamReads.

Import Stream Notions.

Lemma afterLoad_wellFormed (b : nat) (s : stream) (msg : pb_Message)
      (s' : stream) (r : ReadResult) :
  (0 < b)%nat -> afterLoad b s msg = (s', Some r) -> wellFormed b r.
Proof.
  intros Hb. unfold afterLoad.
  destruct (Nat.ltb_spec 0 (List.length (Message msg))) as [Hl|Hl].
  - intros [= _ <-]. cbn. rewrite length_firstn. repeat split.
    + lia.
    + intros _ H. apply (f_equal (@List.length byte)) in H.
      rewrite length_firstn in H. cbn in H. lia.
  - destruct (closeErr _); [intros [= _ <-]; cbn; repeat split; auto; try lia;
                            try discriminate; intros H; now contradiction H|].
    destruct (receiveState _); intros [= _ <-] || intros [=];
      cbn; repeat split; auto; try lia; try discriminate;
      intros H; now contradiction H.
Qed.

Lemma readMsgFailed_wellFormed (b : nat) (s : stream) (err : error) :
  wellFormed b (snd (readMsgFailed s err)).
Proof.
  unfold readMsgFailed.
  destruct (isEOF err), (receiveState s); cbn; repeat split;
    auto; try lia; try discriminate; intros H; now contradiction H.
Qed.

Lemma readLoop_wellFormed (b : nat) (reader : list ReadStep) (s : stream) :
  (0 < b)%nat -> wellFormed b (snd (readLoop b reader s)).
Proof.
  intros Hb. revert s. induction reader as [|st reader IH]; intros s;
    cbn [readLoop].
  - exact I.
  - destruct (outcome st) as [msg|e]; [|apply readMsgFailed_wellFormed].
    destruct (afterLoad _ _ _) as [s' [r|]] eqn:E; cbn [snd].
    + eapply afterLoad_wellFormed; eauto.
    + apply IH.
Qed.

Lemma Read_wellFormed (b : nat) (reader : list ReadStep) (s : stream) :
  wellFormed b (snd (Read b reader s)).
Proof.
  unfold Read.
  destruct (closeErr s);
    [cbn; repeat split; auto; try lia; try discriminate;
     intros H; now contradiction H|].
  destruct (receiveState s);
    try (cbn; repeat split; auto; try lia; try discriminate;
         intros H; now contradiction H).
  destruct (Nat.eqb_spec b 0) as [->|Hb].
  - cbn. repeat split; auto.
  - assert (0 < b)%nat by lia.
    destruct (nextMessage s) as [msg|]; [|now apply readLoop_wellFormed].
    destruct (afterLoad b s msg) as [s' [r|]] eqn:E; cbn [snd].
    + eapply afterLoad_wellFormed; eauto.
    + now apply readLoop_wellFormed.
Qed.

(** A [Read] that returns [io.EOF] on a stream without a close error
    leaves the receive state at data-read. *)
Lemma afterLoad_EOF_state (b : nat) (s : stream) (msg : pb_Message)
      (s' : stream) (data : list byte) :
  afterLoad b s msg = (s', Some (Returned data (Some io_EOF))) ->
  closeErr s' = None -> receiveState s' = receiveStateDataRead.
Proof.
  unfold afterLoad. destruct (Nat.ltb _ _); [intros [=]|].
  destruct (closeErr _) eqn:C.
  - intros [= <- _ ->] C'. rewrite C in C'. discriminate C'.
  - destruct (receiveState _) eqn:R; intros [= <- _] || intros [=].
    intros _. exact R.
Qed.

Lemma readMsgFailed_EOF_state (s : stream) (err : error) (s' : stream)
      (data : list byte) :
  readMsgFailed s err = (s', Returned data (Some io_EOF)) ->
  receiveState s' = receiveStateDataRead.
Proof.
  unfold readMsgFailed.
  destruct (isEOF err) eqn:E, (receiveState s) eqn:R; intros H;
    inversion H; subst; try assumption.
  discriminate E.
Qed.

Lemma readLoop_EOF_state (b : nat) (reader : list ReadStep) :
  forall (s s' : stream) (data : list byte),
    readLoop b reader s = (s', Returned data (Some io_EOF)) ->
    closeErr s' = None -> receiveState s' = receiveStateDataRead.
Proof.
  induction reader as [|st reader IH]; intros s s' data; cbn [readLoop].
  - intros [=].
  - destruct (outcome st) as [msg|e].
    + destruct (afterLoad _ _ _) as [s1 [r|]] eqn:E.
      * intros [= <- ->]. eapply afterLoad_EOF_state; eauto.
      * apply IH.
    + intros H _. eapply readMsgFailed_EOF_state; eauto.
Qed.

Lemma Read_EOF_state (b : nat) (reader : list ReadStep) (s s' : stream)
      (data : list byte) :
  Read b reader s = (s', Returned data (Some io_EOF)) ->
  closeErr s' = None -> receiveState s' = receiveStateDataRead.
Proof.
  unfold Read. destruct (closeErr s) eqn:C.
  - intros [= <- _ ->] C'. rewrite C in C'. discriminate C'.
  - destruct (receiveState s) eqn:R; try (intros [= <- _] _; exact R);
      try (intros [=]; fail).
    destruct (Nat.eqb b 0); [intros [=]|].
    destruct (nextMessage s) as [msg|]; [|apply readLoop_EOF_state].
    destruct (afterLoad b s msg) as [s1 [r|]] eqn:E.
    + intros [= <- ->]. eapply afterLoad_EOF_state; eauto.
    + apply readLoop_EOF_state.
Qed.

(** The stream at its end, without a close error: what no operation but
    a reset changes. *)
Lemma ended_step (s : stream) (o : op) :
  closeErr s = None /\ receiveState s = receiveStateDataRead ->
  Notions.notReset o = true ->
  closeErr (step s o) = None /\
  receiveState (step s o) = receiveStateDataRead.
Proof.
  intros [C R] Ho. destruct o as [b reader|c]; cbn [step].
  - unfold Read. rewrite C, R. cbn. now split.
  - destruct c as [werr|d werr|werr|werr|[[| |]|]]; cbn [applyConc];
      try discriminate Ho.
    + unfold CloseRead. rewrite R. cbn. now split.
    + unfold Write, writeMsgOnWriter.
      destruct (sendState s), werr; cbn; now split.
    + unfold CloseWrite, writeMsgOnWriter. destruct werr; cbn; now split.
    + unfold processIncomingFlag. rewrite R. now split.
    + cbn. now split.
    + cbn. now split.
Qed.

Lemma ended_run (ops : list op) :
  forall s : stream,
    closeErr s = None /\ receiveState s = receiveStateDataRead ->
    forallb Notions.notReset ops = true ->
    closeErr (run ops s) = None /\
    receiveState (run ops s) = receiveStateDataRead.
Proof.
  unfold run. induction ops as [|o ops IH]; intros s Hs Ho; cbn.
  - exact Hs.
  - cbn in Ho. apply andb_prop in Ho as [Ho1 Ho2].
    apply IH; [|exact Ho2]. now apply ended_step.
Qed.

(** A read from buffered data: it does not look at the channel. *)
Lemma Read_buffered (b : nat) (reader : list ReadStep) (s : stream)
      (msg : pb_Message) :
  closeErr s = None -> receiveState s = receiveStateReceiving ->
  nextMessage s = Some msg -> (0 < b)%nat ->
  (0 < List.length (Message msg))%nat ->
  Read b reader s =
  (set_nextMessage s
     (Some {| Flag := Flag msg;
              Message := skipn (Nat.min b (List.length (Message msg)))
                               (Message msg) |}),
   Returned (firstn (Nat.min b (List.length (Message msg))) (Message msg)) None).
Proof.
  intros C R M Hb Hl. unfold Read. rewrite C, R, M.
  replace (Nat.eqb b 0) with false by (symmetry; apply Nat.eqb_neq; lia).
  unfold afterLoad.
  replace (Nat.ltb 0 (List.length (Message msg))) with true
    by (symmetry; apply Nat.ltb_lt; lia).
  reflexivity.
Qed.

Lemma Read_empty_buffer (reader : list ReadStep) (s : stream) :
  closeErr s = None -> receiveState s = receiveStateReceiving ->
  Read 0 reader s = (s, Returned [] None).
Proof. intros C R. unfold Read. now rewrite C, R. Qed.

(** After [CloseRead] the stream is closed for reading. *)
Lemma CloseRead_closed (werr : option error) (s : stream) :
  closeErr (fst (CloseRead werr s)) <> None \/
  receiveState (fst (CloseRead werr s)) <> receiveStateReceiving.
Proof.
  unfold CloseRead, writeMsgOnWriter.
  destruct werr, (receiveState s) eqn:R, (closeErr s) eqn:C; cbn;
    rewrite ?R, ?C; (left; discriminate) || (right; discriminate).
Qed.

End StreamReads.

(** X1.  Whatever the channel does, a [Read] that returns gives at most
    [len(b)] bytes; it gives bytes only with a nil error, and a nil error
    with zero bytes only for an empty buffer. *)
Theorem X1_read_result_well_formed :
  forall (b : nat) (reader : list Stream.ReadStep) (s s' : Stream.stream)
         (data : list byte) (err : option error),
    Stream.Read b reader s = (s', Stream.Returned data err) ->
    (List.length data <= b)%nat /\
    (data <> [] -> err = None) /\
    (err = None -> data = [] -> b = 0%nat).
Proof.
  intros b reader s s' data err H.
  pose proof (Read_wellFormed b reader s) as W. rewrite H in W. exact W.
Qed.

Lemma X1_read_result_well_formed_witness :
  (List.length (list_byte_of_string "foob") <= 4)%nat /\
  (list_byte_of_string "foob" <> [] -> (None : option error) = None) /\
  ((None : option error) = None -> list_byte_of_string "foob" = [] -> 4%nat = 0%nat).
Proof.
  apply (@X1_read_result_well_formed 4%nat [] MoreTesting.buffered
           (Stream.set_nextMessage MoreTesting.buffered
              (Some {| Stream.Flag := Some Stream.Message_FIN;
                       Stream.Message := list_byte_of_string "ar" |}))
           (list_byte_of_string "foob") None).
  reflexivity.
Defined.

(** X2.  Partial reads lose, repeat and reorder nothing: when a message is
    buffered in a receiving stream, successive reads whose buffers add up
    to at least its length deliver exactly its bytes, in order, before
    anything else, whatever the channel would return meanwhile. *)
Theorem X2_partial_reads_deliver_the_message :
  forall (calls : list (nat * list Stream.ReadStep)) (s : Stream.stream)
         (msg : Stream.pb_Message),
    Stream.closeErr s = None ->
    Stream.receiveState s = Stream.receiveStateReceiving ->
    Stream.nextMessage s = Some msg ->
    (List.length (Stream.Message msg) <= list_sum (map fst calls))%nat ->
    exists more,
      fst (Notions.readMany calls s) = Stream.Message msg ++ more.
Proof.
  induction calls as [|[b reader] calls IH]; intros s msg C R M Hl.
  - cbn in Hl. exists []. cbn.
    destruct (Stream.Message msg); [reflexivity|cbn in Hl; lia].
  - cbn [Notions.readMany].
    change (list_sum (map fst ((b, reader) :: calls)))
      with (b + list_sum (map fst calls))%nat in Hl.
    destruct (Stream.Message msg) as [|x payload] eqn:P.
    { eexists. cbn [app]. reflexivity. }
    destruct (Nat.eqb_spec b 0) as [->|Hb].
    + rewrite Read_empty_buffer by assumption.
      destruct (IH s msg C R M) as [more Hm]; [rewrite P; lia|].
      destruct (Notions.readMany calls s) as [d s2]. cbn [fst] in *.
      exists more. cbn [app]. now rewrite Hm, P.
    + rewrite (@Read_buffered b reader s msg) by (auto; rewrite ?P; cbn; lia).
      set (n := Nat.min b (List.length (Stream.Message msg))).
      destruct (IH (Stream.set_nextMessage s
                      (Some {| Stream.Flag := Stream.Flag msg;
                               Stream.Message := skipn n (Stream.Message msg) |}))
                   {| Stream.Flag := Stream.Flag msg; Stream.Message := skipn n (Stream.Message msg) |})
        as [more Hm]; auto.
      { cbn [Stream.Message]. rewrite length_skipn. unfold n. rewrite P in *.
        cbn [List.length] in *. lia. }
      destruct (Notions.readMany calls _) as [d s2]. cbn [fst Stream.Message] in *.
      exists more. rewrite Hm, app_assoc, firstn_skipn. now rewrite P.
Qed.

Lemma X2_partial_reads_deliver_the_message_witness :
  exists more,
    fst (Notions.readMany [(4%nat, []); (0%nat, []); (4%nat, [])]
                          MoreTesting.buffered)
    = list_byte_of_string "foobar" ++ more.
Proof.
  apply (@X2_partial_reads_deliver_the_message
           [(4%nat, []); (0%nat, []); (4%nat, [])]
           MoreTesting.buffered MoreTesting.foobar);
    try reflexivity.
  cbn. lia.
Defined.

(** X3.  End of stream is sticky until the stream is reset: once a
    [Read] has returned [io.EOF] on a stream that has no close error, then
    after any further operations among [Read], [CloseRead], [Write],
    [CloseWrite] and incoming [FIN] or [STOP_SENDING] flags, every [Read],
    with any buffer and whatever the channel holds, returns no bytes and
    [io.EOF] and leaves the stream as it is; a [Reset] after them turns
    the result of every [Read] into [ErrReset]. *)
Theorem X3_eof_is_sticky :
  forall (b : nat) (reader : list Stream.ReadStep) (s s' : Stream.stream)
         (data : list byte),
    Stream.Read b reader s = (s', Stream.Returned data (Some io_EOF)) ->
    Stream.closeErr s' = None ->
    forall ops : list Stream.op,
      forallb Notions.notReset ops = true ->
      (forall (b' : nat) (reader' : list Stream.ReadStep),
          Stream.Read b' reader' (Stream.run ops s')
          = (Stream.run ops s', Stream.Returned [] (Some io_EOF))) /\
      (forall (werr : option error) (b' : nat) (reader' : list Stream.ReadStep),
          Stream.Read b' reader' (fst (Stream.Reset werr (Stream.run ops s')))
          = (fst (Stream.Reset werr (Stream.run ops s')),
             Stream.Returned [] (Some ErrReset))).
Proof.
  intros b reader s s' data H C ops Hops.
  assert (E : Stream.closeErr (Stream.run ops s') = None /\
              Stream.receiveState (Stream.run ops s')
              = Stream.receiveStateDataRead).
  { apply ended_run; [|exact Hops]. split; [exact C|].
    exact (@Read_EOF_state b reader s s' data H C). }
  destruct E as [E1 E2]. split.
  - intros b' reader'. unfold Stream.Read. now rewrite E1, E2.
  - intros werr b' reader'.
    unfold Stream.Reset, Stream.writeMsgOnWriter, Stream.Read.
    destruct werr; cbn; now rewrite E1.
Qed.

Lemma X3_eof_is_sticky_witness :
  Stream.Read 8 [ {| Stream.concurrent := [];
                     Stream.outcome := Ok MoreTesting.foobar |} ]
              (Stream.run [Stream.OpOther (Stream.ConcCloseRead None);
                           Stream.OpRead 3 []]
                 (Stream.set_receiveState
                    (Stream.set_nextMessage Testing.freshStream None)
                    Stream.receiveStateDataRead))
  = (Stream.run [Stream.OpOther (Stream.ConcCloseRead None);
                 Stream.OpRead 3 []]
       (Stream.set_receiveState
          (Stream.set_nextMessage Testing.freshStream None)
          Stream.receiveStateDataRead),
     Stream.Returned [] (Some io_EOF)).
Proof.
  apply (@X3_eof_is_sticky 2%nat
           [ {| Stream.concurrent := [];
                Stream.outcome :=
                  Ok {| Stream.Flag := Some Stream.Message_FIN;
                        Stream.Message := [] |} |} ]
           Testing.freshStream
           (Stream.set_receiveState
              (Stream.set_nextMessage Testing.freshStream None)
              Stream.receiveStateDataRead)
           []); reflexivity.
Defined.

(** X4.  [CloseRead] is idempotent: a second [CloseRead] sends nothing,
    changes nothing and returns nil, whether or not the first one could
    write its [STOP_SENDING]. *)
Theorem X4_close_read_idempotent :
  forall (werr1 werr2 : option error) (s : Stream.stream),
    Stream.CloseRead werr2 (fst (Stream.CloseRead werr1 s))
    = (fst (Stream.CloseRead werr1 s), None).
Proof.
  intros werr1 werr2 s.
  unfold Stream.CloseRead, Stream.writeMsgOnWriter.
  destruct werr1, (Stream.receiveState s) eqn:R, (Stream.closeErr s) eqn:C; cbn;
    rewrite ?R, ?C; reflexivity.
Qed.

(** X5.  A [Read] that starts on the stream as [CloseRead] has left it
    delivers no byte and does not call [ReadMsg]: it returns no bytes and
    an error and leaves the stream as it is, whatever the buffer and the
    channel, also when the [STOP_SENDING] message could not be written.
    A [Read] that is waiting in [ReadMsg] when [CloseRead] runs is not
    stopped by it: when the channel then returns a message with data, this
    [Read] returns the first [min(len(b), len(data))] bytes of it and a
    nil error. *)
Theorem X5_read_and_close_read :
  (forall (werr : option error) (s : Stream.stream) (b : nat)
          (reader : list Stream.ReadStep),
      exists err,
        Stream.Read b reader (fst (Stream.CloseRead werr s))
        = (fst (Stream.CloseRead werr s), Stream.Returned [] (Some err))) /\
  (forall (werr : option error) (s : Stream.stream) (b : nat)
          (msg : Stream.pb_Message) (rest : list Stream.ReadStep),
      Stream.closeErr s = None ->
      Stream.receiveState s = Stream.receiveStateReceiving ->
      Stream.nextMessage s = None ->
      (0 < b)%nat -> (0 < List.length (Stream.Message msg))%nat ->
      snd (Stream.Read b
             ({| Stream.concurrent := [Stream.ConcCloseRead werr];
                 Stream.outcome := Ok msg |} :: rest) s)
      = Stream.Returned
          (firstn (Nat.min b (List.length (Stream.Message msg)))
                  (Stream.Message msg)) None).
Proof.
  split.
  - intros werr s b reader.
    destruct (CloseRead_closed werr s) as [H|H]; unfold Stream.Read.
    + destruct (Stream.closeErr _) as [e|]; [eauto|now contradiction H].
    + destruct (Stream.closeErr _) as [e|]; [eauto|].
      destruct (Stream.receiveState _); [now contradiction H|eauto|eauto].
  - intros werr s b msg rest C R M Hb Hl.
    unfold Stream.Read. rewrite C, R, M.
    replace (Nat.eqb b 0) with false by (symmetry; apply Nat.eqb_neq; lia).
    cbn [Stream.readLoop Stream.concurrent Stream.outcome].
    unfold Stream.afterLoad.
    replace (Nat.ltb 0 (List.length (Stream.Message msg))) with true
      by (symmetry; apply Nat.ltb_lt; lia).
    reflexivity.
Qed.

Lemma X5_read_and_close_read_witness :
  snd (Stream.Read 4
         [ {| Stream.concurrent := [Stream.ConcCloseRead None];
              Stream.outcome := Ok MoreTesting.foobar |} ]
         Testing.freshStream)
  = Stream.Returned
      (firstn (Nat.min 4 (List.length (Stream.Message MoreTesting.foobar)))
              (Stream.Message MoreTesting.foobar)) None.
Proof.
  apply (proj2 X5_read_and_close_read None Testing.freshStream 4%nat
               MoreTesting.foobar []); try reflexivity; cbn; lia.
Defined.

(* ================================================================== *)
(** * More on the options and on [New] *)

Section Options.

Import Notions.

Local Open Scope Z_scope.

Lemma default_timeouts_valid :
  validTimeouts {| Disconnect := DefaultDisconnectedTimeout;
                   Failed := DefaultFailedTimeout;
                   Keepalive := DefaultKeepaliveTimeout |}.
Proof.
  unfold validTimeouts, allNonzero. cbn.
  repeat split; try discriminate.
Qed.

Lemma optionOf_keeps (o : OptionSpec) (t t' : WebRTCTransport) :
  validTimeouts (peerConnectionTimeouts t) ->
  optionOf o t = (t', None) ->
  validTimeouts (peerConnectionTimeouts t') /\ sameIdentity t t'.
Proof.
  intros V. destruct o as [v|m]; cbn [optionOf].
  - rewrite WithPeerConnectionIceTimeouts_effective. cbv zeta.
    pose proof (@effectiveTimeouts_nonzero v t (proj1 V)) as NZ.
    set (e := effectiveTimeouts t v) in *.
    destruct (Z.ltb_spec (Failed e) (Disconnect e)) as [L1|L1];
      destruct (Z.leb_spec (Disconnect e) (Keepalive e)) as [L2|L2];
      destruct NZ as (D & F & K);
      rewrite ?(proj2 (Z.eqb_neq _ _) D), ?(proj2 (Z.eqb_neq _ _) F),
        ?(proj2 (Z.eqb_neq _ _) K); cbn [negb andb];
      intros [= <-]; cbn [set_peerConnectionTimeouts peerConnectionTimeouts].
    split; [|repeat split].
    unfold validTimeouts, allNonzero. repeat split; auto; lia.
  - unfold WithListenerMaxInFlightConnections. intros [= <-].
    cbn [set_maxInFlightConnections peerConnectionTimeouts].
    split; [exact V|repeat split].
Qed.

Lemma applyOptions_keeps (specs : list OptionSpec) :
  forall (t t' : WebRTCTransport) (e : option error),
    validTimeouts (peerConnectionTimeouts t) ->
    applyOptions (map optionOf specs) t = (Some t', e) ->
    e = None /\ validTimeouts (peerConnectionTimeouts t') /\ sameIdentity t t'.
Proof.
  induction specs as [|o specs IH]; intros t t' e V; cbn [map applyOptions].
  - intros [= <- <-]. split; [reflexivity|]. split; [exact V|repeat split].
  - destruct (optionOf o t) as [t1 [err|]] eqn:E; [intros [=]|].
    destruct (@optionOf_keeps o t t1 V E) as (V1 & S1).
    intros H. destruct (IH t1 t' e V1 H) as (He & V' & S').
    split; [exact He|]. split; [exact V'|].
    unfold sameIdentity in *.
    destruct S1 as (a1 & a2 & a3 & a4 & a5), S' as (b1 & b2 & b3 & b4 & b5).
    repeat split; congruence.
Qed.

Lemma applyOptions_app (a b : list Option) :
  forall t : WebRTCTransport,
    applyOptions (a ++ b) t =
    match applyOptions a t with
    | (Some t', None) => applyOptions b t'
    | r => r
    end.
Proof.
  induction a as [|o a IH]; intros t; cbn [app applyOptions].
  - destruct (applyOptions b t) as [[?|] [?|]]; reflexivity.
  - destruct (o t) as [t1 [err|]]; [reflexivity|apply IH].
Qed.

Lemma applyOptions_one_result (opts : list Option) :
  forall t : WebRTCTransport,
    (exists t', applyOptions opts t = (Some t', None)) \/
    (exists err, applyOptions opts t = (None, Some err)).
Proof.
  induction opts as [|o opts IH]; intros t; cbn [applyOptions].
  - left. eauto.
  - destruct (o t) as [t1 [err|]]; [right; eauto|apply IH].
Qed.

Lemma effectiveTimeouts_again (v : IceTimeouts) (t : WebRTCTransport) :
  effectiveTimeouts (set_peerConnectionTimeouts t (effectiveTimeouts t v)) v
  = effectiveTimeouts t v.
Proof.
  unfold effectiveTimeouts.
  cbn [set_peerConnectionTimeouts peerConnectionTimeouts
       Disconnect Failed Keepalive].
  destruct (Disconnect v =? 0), (Failed v =? 0), (Keepalive v =? 0);
    reflexivity.
Qed.

Lemma effectiveTimeouts_fixed (v : IceTimeouts) (t : WebRTCTransport) :
  effectiveTimeouts (set_peerConnectionTimeouts t (effectiveTimeouts t v))
                    (effectiveTimeouts t v)
  = effectiveTimeouts t v.
Proof.
  unfold effectiveTimeouts.
  cbn [set_peerConnectionTimeouts peerConnectionTimeouts
       Disconnect Failed Keepalive].
  f_equal;
    repeat match goal with
           | |- context [if ?c then _ else _] => destruct c
           end; reflexivity.
Qed.

Lemma WithPeerConnectionIceTimeouts_accepts
      (v : IceTimeouts) (t t' : WebRTCTransport) :
  WithPeerConnectionIceTimeouts v t = (t', None) ->
  t' = set_peerConnectionTimeouts t (effectiveTimeouts t v).
Proof.
  rewrite WithPeerConnectionIceTimeouts_effective. cbv zeta.
  destruct (negb _ && (_ && (_ <? _))); [intros [=]|].
  destruct (negb _ && (_ && (_ <=? _))); [intros [=]|].
  now intros [= <-].
Qed.

End Options.

(** X6.  Whatever options built by [WithPeerConnectionIceTimeouts] and
    [WithListenerMaxInFlightConnections] are passed, in any number and
    order, a transport returned by [New] comes with a nil error, has ICE
    timeouts that are all non-zero with [keepalive < disconnect <= failed],
    and has the resource manager and the private key passed to [New], the
    peer ID of this key, the Noise transport made from it and exactly one
    certificate. *)
Theorem X6_new_transport_invariants :
  forall (w : NewWorld) (privKey0 : PrivKey) (psk : option PSK)
         (gater : ConnectionGater) (rcmgr0 : ResourceManager)
         (specs : list Notions.OptionSpec) (t : WebRTCTransport)
         (e : option error),
    New w privKey0 psk gater rcmgr0 (map Notions.optionOf specs) = (Some t, e) ->
    e = None /\
    Notions.validTimeouts (peerConnectionTimeouts t) /\
    rcmgr t = rcmgr0 /\ privKey t = privKey0 /\
    IDFromPrivateKey w privKey0 = Ok (localPeerId t) /\
    noise_New w privKey0 = Ok (noiseTpt t) /\
    others (Certificates (webrtcConfig t)) = [].
Proof.
  intros w privKey0 psk gater rcmgr0 specs t e. unfold New.
  destruct psk; [intros [=]|].
  destruct (IDFromPrivateKey w privKey0) as [id|]; [|intros [=]].
  destruct (ecdsa_GenerateKey w) as [pk|]; [|intros [=]].
  destruct (webrtc_GenerateCertificate w pk) as [cert|]; [|intros [=]].
  destruct (noise_New w privKey0) as [n|]; [|intros [=]].
  intros H.
  match type of H with
  | applyOptions _ ?t0 = _ =>
      destruct (@applyOptions_keeps specs t0 t e default_timeouts_valid H)
        as (He & V & (c1 & c2 & c3 & c4 & c5))
  end.
  cbn in c1, c2, c3, c4, c5.
  rewrite c1, c2, c3, c4, c5.
  split; [exact He|]. split; [exact V|]. repeat split; reflexivity.
Qed.

Lemma X6_new_transport_invariants_witness :
  exists t,
    fst (New Testing.testNewWorld [] None 0 Testing.testRcmgr
             (map Notions.optionOf
                  [Notions.MaxInFlightOption 7;
                   Notions.IceTimeoutsOption
                     {| Disconnect := 0; Failed := 30 * Second;
                        Keepalive := 0 |}]))
    = Some t /\
    Notions.validTimeouts (peerConnectionTimeouts t).
Proof.
  eexists. split; [vm_compute; reflexivity|].
  eapply (@X6_new_transport_invariants Testing.testNewWorld [] None 0
            Testing.testRcmgr
            [Notions.MaxInFlightOption 7;
             Notions.IceTimeoutsOption
               {| Disconnect := 0; Failed := 30 * Second; Keepalive := 0 |}]
            _ None).
  vm_compute. reflexivity.
Defined.

(** X7.  An accepted ICE-timeouts option is idempotent: on the transport
    it has produced, an option made from the same value, and the same
    option called once more (its captured value now holds the replaced
    fields), are both accepted and change nothing. *)
Theorem X7_ice_option_idempotent :
  forall (v : IceTimeouts) (t t' : WebRTCTransport),
    WithPeerConnectionIceTimeouts v t = (t', None) ->
    WithPeerConnectionIceTimeouts v t' = (t', None) /\
    WithPeerConnectionIceTimeouts (fst (iceTimeoutsOption v t)) t' = (t', None).
Proof.
  intros v t t' H.
  pose proof (@WithPeerConnectionIceTimeouts_accepts v t t' H) as ->.
  rewrite iceTimeoutsOption_captured.
  rewrite WithPeerConnectionIceTimeouts_effective in H. cbv zeta in H.
  rewrite !WithPeerConnectionIceTimeouts_effective. cbv zeta.
  rewrite effectiveTimeouts_again, effectiveTimeouts_fixed.
  destruct (negb _ && (_ && (_ <? _))%Z); [discriminate H|].
  destruct (negb _ && (_ && (_ <=? _))%Z); [discriminate H|].
  split; reflexivity.
Qed.

Lemma X7_ice_option_idempotent_witness :
  WithPeerConnectionIceTimeouts
    {| Disconnect := 0; Failed := 30 * Second; Keepalive := 0 |}
    (set_peerConnectionTimeouts (Testing.testTransport Testing.secured)
       {| Disconnect := DefaultDisconnectedTimeout; Failed := 30 * Second;
          Keepalive := DefaultKeepaliveTimeout |})
  = (set_peerConnectionTimeouts (Testing.testTransport Testing.secured)
       {| Disconnect := DefaultDisconnectedTimeout; Failed := 30 * Second;
          Keepalive := DefaultKeepaliveTimeout |}, None).
Proof.
  apply (@X7_ice_option_idempotent
           {| Disconnect := 0; Failed := 30 * Second; Keepalive := 0 |}
           (Testing.testTransport Testing.secured)).
  vm_compute. reflexivity.
Defined.

(** X8.  The two options are independent: anywhere in the options of
    [New], an ICE-timeouts option and a max-in-flight option that follow
    each other can be exchanged without changing what [New] returns. *)
Theorem X8_options_commute :
  forall (w : NewWorld) (privKey0 : PrivKey) (psk : option PSK)
         (gater : ConnectionGater) (rcmgr0 : ResourceManager)
         (before after : list Option) (v : IceTimeouts) (m : N),
    New w privKey0 psk gater rcmgr0
        (before ++ [WithPeerConnectionIceTimeouts v;
                    WithListenerMaxInFlightConnections m] ++ after)
    = New w privKey0 psk gater rcmgr0
          (before ++ [WithListenerMaxInFlightConnections m;
                      WithPeerConnectionIceTimeouts v] ++ after).
Proof.
  intros w privKey0 psk gater rcmgr0 before after v m. unfold New.
  destruct psk; [reflexivity|].
  destruct (IDFromPrivateKey w privKey0); [|reflexivity].
  destruct (ecdsa_GenerateKey w) as [pk|]; [|reflexivity].
  destruct (webrtc_GenerateCertificate w pk); [|reflexivity].
  destruct (noise_New w privKey0); [|reflexivity].
  rewrite !applyOptions_app.
  destruct (applyOptions before _) as [[t|] [err|]]; try reflexivity.
  cbn [app applyOptions]. unfold WithListenerMaxInFlightConnections.
  rewrite !WithPeerConnectionIceTimeouts_effective. cbv zeta.
  change (effectiveTimeouts (set_maxInFlightConnections t m) v)
    with (effectiveTimeouts t v).
  destruct (negb _ && (_ && (_ <? _))%Z); [reflexivity|].
  destruct (negb _ && (_ && (_ <=? _))%Z); reflexivity.
Qed.

(** X9.  [New] returns either a transport and a nil error or no transport
    and an error, never both and never neither, whatever its arguments
    and whatever its options do. *)
Theorem X9_new_one_result :
  forall (w : NewWorld) (privKey0 : PrivKey) (psk : option PSK)
         (gater : ConnectionGater) (rcmgr0 : ResourceManager)
         (opts : list Option),
    (exists t, New w privKey0 psk gater rcmgr0 opts = (Some t, None)) \/
    (exists err, New w privKey0 psk gater rcmgr0 opts = (None, Some err)).
Proof.
  intros w privKey0 psk gater rcmgr0 opts. unfold New.
  destruct psk; [right; eauto|].
  destruct (IDFromPrivateKey w privKey0); [|right; eauto].
  destruct (ecdsa_GenerateKey w) as [pk|]; [|right; eauto].
  destruct (webrtc_GenerateCertificate w pk); [|right; eauto].
  destruct (noise_New w privKey0); [|right; eauto].
  apply applyOptions_one_result.
Qed.

(* ================================================================== *)
(** * More on dialing *)

Section DialShape.

Import Notions.

Variable w : World.
Variable t : WebRTCTransport.
Variable ctx : Context.

Ltac fails_early :=
  exists []; rewrite app_nil_r; split; [reflexivity|left; reflexivity].

Ltac fails_with_pc :=
  eexists; rewrite <- !app_assoc; split;
  [reflexivity|right; eexists; split; [reflexivity|left; reflexivity]].

Ltac fails_with_conn :=
  unfold connection_Close; cbn;
  eexists; rewrite <- !app_assoc; split;
  [reflexivity|right; eexists; split; [reflexivity|right; reflexivity]].

Lemma dial_shape
      (scope : ConnManagementScope) (addr : ma.Multiaddr) (p : PeerID)
      (tr : list event) :
  exists added,
    snd (dial w t ctx scope addr p tr) = tr ++ added /\
    match fst (dial w t ctx scope addr p tr) with
    | (Some c, None) => dialed w t ctx scope addr p c added
    | (_, Some _) => undone w t added
    | (None, None) => False
    end.
Proof.
  unfold undone, dialed, dial, dialBody, bind, orWrap, orFail, checkWrap,
    liftTrace, newConnection.
  destruct (internal.DecodeRemoteFingerprint addr) as [mh|e] eqn:HD; cbn;
    [|fails_early].
  destruct (GetSupportedSDPHash w (multihash.Code mh)) as [h|] eqn:HS; cbn;
    [|fails_early].
  destruct (DialArgs w addr) as [[nw host]|e]; cbn; [|fails_early].
  destruct (ResolveUDPAddr w nw host) as [raddr|e]; cbn; [|fails_early].
  fold (dialSettingEngine w t).
  destruct (NewPeerConnection w _ _) as [pc|e] eqn:HP; cbn; [|fails_early].
  destruct (CreateDataChannel pc _ _ _) as [dc|e] eqn:HC; cbn;
    [|fails_with_pc].
  destruct (CreateOffer pc) as [offer|e]; cbn; [|fails_with_pc].
  destruct (SetLocalDescription pc offer) as [e|]; cbn; [fails_with_pc|].
  destruct (RenderServerSdp w _ _ _) as [sdp|e]; cbn; [|fails_with_pc].
  destruct (SetRemoteDescription pc _) as [e|]; cbn; [fails_with_pc|].
  destruct (awaitOpen w _ pc ctx) as [[e|]|]; cbn;
    [fails_with_pc| |fails_with_pc].
  destruct (GetDetachedChannel w ctx dc) as [det|e] eqn:HDet; cbn;
    [|fails_with_pc].
  destruct (GetSelectedCandidatePair dc) as [[cp|] [e|]]; cbn;
    [fails_with_pc| |fails_with_pc|fails_with_pc].
  destruct (FromNetAddr w _) as [laddr|e]; cbn; [|fails_with_pc].
  destruct (newConnectionError w pc) as [e|]; cbn; [fails_with_pc|].
  unfold noiseHandshake.
  destruct (generateNoisePrologue w t pc h false) as [prologue|e] eqn:HG; cbn;
    [|fails_with_conn].
  destruct (WithSessionOptions _ _) as [st|e] eqn:HW; cbn; [|fails_with_conn].
  match goal with
  | |- context [SecureInbound st ctx ?ch p] =>
      destruct (SecureInbound st ctx ch p) as [secConn|secConn e] eqn:HI; cbn
  end.
  - eexists. rewrite <- app_assoc. split; [reflexivity|].
    exists pc, laddr, mh, h, prologue, st, secConn, dc, det.
    exists {| udpIP := LocalAddress cp; udpPort := LocalPort cp |}, raddr.
    repeat split; first [reflexivity | assumption].
  - fails_with_conn.
Qed.

Lemma pcEvents_app (l r : list event) :
  pcEvents (l ++ r) = pcEvents l ++ pcEvents r.
Proof. unfold pcEvents. apply filter_app. Qed.

(** [Dial] adds to what [dial] does only events on the scope. *)
Lemma Dial_shape (addr : ma.Multiaddr) (p : PeerID) (tr : list event) :
  exists added,
    snd (Dial w t ctx addr p tr) = tr ++ added /\
    match fst (Dial w t ctx addr p tr) with
    | (Some c, None) =>
        exists scope,
          OpenConnection (rcmgr t) DirOutbound false addr = Ok scope /\
          SetPeer scope p = None /\
          exists added', dialed w t ctx scope addr p c added' /\
                         pcEvents added = pcEvents added'
    | (None, Some _) => undone w t added
    | _ => False
    end.
Proof.
  unfold Dial.
  destruct (OpenConnection (rcmgr t) DirOutbound false addr) as [scope|e] eqn:HO.
  2:{ exists []. rewrite app_nil_r. split; [reflexivity|]. now left. }
  destruct (SetPeer scope p) as [e|] eqn:HSp.
  { eexists. rewrite <- app_assoc. split; [reflexivity|]. now left. }
  destruct (dial_shape scope addr p (tr ++ [EvOpenConnection (scopeId scope)]))
    as (added & Htr & Hres).
  destruct (dial w t ctx scope addr p (tr ++ [EvOpenConnection (scopeId scope)]))
    as [[conn err] tr1].
  cbn [fst snd] in *. subst tr1.
  destruct err as [e|]; cbn [fst snd].
  - exists ([EvOpenConnection (scopeId scope)] ++ added
            ++ [EvScopeDone (scopeId scope)]).
    rewrite <- !app_assoc. split; [reflexivity|].
    assert (U : undone w t added) by (destruct conn; exact Hres).
    unfold undone in *. rewrite !pcEvents_app. cbn. rewrite app_nil_r.
    exact U.
  - destruct conn as [c|]; [|contradiction].
    exists ([EvOpenConnection (scopeId scope)] ++ added).
    rewrite <- !app_assoc. split; [reflexivity|].
    exists scope. repeat split; auto. exists added. split; [exact Hres|].
    rewrite pcEvents_app. reflexivity.
Qed.


End DialShape.



(** X10.  [Dial] returns either a connection and a nil error or no
    connection and an error; in particular the connection that [dial]
    returns beside the error of a failed handshake is not handed on. *)
Theorem X10_dial_one_result :
  forall (w : World) (t : WebRTCTransport) (ctx : Context)
         (remoteMultiaddr : ma.Multiaddr) (p : PeerID) (tr : list event),
    (exists c, fst (Dial w t ctx remoteMultiaddr p tr) = (Some c, None)) \/
    (exists err, fst (Dial w t ctx remoteMultiaddr p tr) = (None, Some err)).
Proof.
  intros w t ctx addr p tr.
  destruct (Dial_shape w t ctx addr p tr) as (added & _ & H).
  destruct (fst (Dial w t ctx addr p tr)) as [[c|] [e|]];
    try contradiction; eauto.
Qed.


(** X12.  The connection of a successful [Dial] is outbound, bound to the
    scope that the resource manager opened for the address and that
    accepted the peer, has the transport's peer ID and private key, the
    peer and the multiaddress dialed, and the public key of the Noise
    session secured with the peer, over the stream of the handshake data
    channel and the prologue of its peer connection; this peer connection
    was created with equal ICE user fragment and password, detached data
    channels, the transport's ICE timeouts and the transport's
    certificate. *)
Theorem X12_dial_success :
  forall (w : World) (t : WebRTCTransport) (ctx : Context)
         (remoteMultiaddr : ma.Multiaddr) (p : PeerID) (tr : list event)
         (c : connection) (e : option error),
    fst (Dial w t ctx remoteMultiaddr p tr) = (Some c, e) ->
    exists scope pc localAddr mh h prologue st secConn
           rawChannel detached laddr raddr,
      OpenConnection (rcmgr t) DirOutbound false remoteMultiaddr = Ok scope /\
      SetPeer scope p = None /\
      NewPeerConnection w (Notions.dialSettingEngine w t) (webrtcConfig t)
      = Ok pc /\
      internal.DecodeRemoteFingerprint remoteMultiaddr = Ok mh /\
      GetSupportedSDPHash w (multihash.Code mh) = Some h /\
      generateNoisePrologue w t pc h false = Ok prologue /\
      WithSessionOptions (noiseTpt t) [Prologue prologue; DisablePeerIDCheck]
      = Ok st /\
      CreateDataChannel pc "" handshakeChannelNegotiated handshakeChannelId
      = Ok rawChannel /\
      GetDetachedChannel w ctx rawChannel = Ok detached /\
      SecureInbound st ctx (newStream rawChannel detached laddr raddr) p
      = Secured secConn /\
      c = Notions.dialedConnection t scope pc localAddr remoteMultiaddr p secConn.
Proof.
  intros w t ctx addr p tr c e H.
  destruct (Dial_shape w t ctx addr p tr) as (added & _ & S).
  rewrite H in S. destruct e; [contradiction|].
  destruct S as (scope & HO & HP & added' & D & _).
  destruct D as (pc & la & mh & h & pr & st & sc & dc & det & laddr & raddr
                 & D1 & D2 & D3 & D4 & D5 & D6 & D7 & D8 & D9 & _).
  exists scope, pc, la, mh, h, pr, st, sc, dc, det, laddr, raddr.
  repeat split; assumption.
Qed.

Lemma X12_dial_success_witness :
  exists scope pc localAddr mh h prologue st secConn
         rawChannel detached laddr raddr,
    OpenConnection (rcmgr (Testing.testTransport Testing.secured))
                   DirOutbound false Testing.remoteAddr = Ok scope /\
    SetPeer scope Testing.remotePeer = None /\
    NewPeerConnection Testing.testWorld
      (Notions.dialSettingEngine Testing.testWorld
                                 (Testing.testTransport Testing.secured))
      (webrtcConfig (Testing.testTransport Testing.secured))
    = Ok pc /\
    internal.DecodeRemoteFingerprint Testing.remoteAddr = Ok mh /\
    GetSupportedSDPHash Testing.testWorld (multihash.Code mh) = Some h /\
    generateNoisePrologue Testing.testWorld
                          (Testing.testTransport Testing.secured) pc h false
    = Ok prologue /\
    WithSessionOptions (noiseTpt (Testing.testTransport Testing.secured))
                       [Prologue prologue; DisablePeerIDCheck]
    = Ok st /\
    CreateDataChannel pc "" handshakeChannelNegotiated handshakeChannelId
    = Ok rawChannel /\
    GetDetachedChannel Testing.testWorld Testing.testCtx rawChannel
    = Ok detached /\
    SecureInbound st Testing.testCtx
                  (newStream rawChannel detached laddr raddr)
                  Testing.remotePeer = Secured secConn /\
    MoreTesting.dialedTest
    = Notions.dialedConnection (Testing.testTransport Testing.secured)
                               scope pc localAddr Testing.remoteAddr
                               Testing.remotePeer secConn.
Proof.
  apply (@X12_dial_success Testing.testWorld
           (Testing.testTransport Testing.secured) Testing.testCtx
           Testing.remoteAddr Testing.remotePeer []
           MoreTesting.dialedTest None).
  vm_compute. reflexivity.
Defined.

(* ================================================================== *)
(** * More on fingerprints and the prologue *)

Section MoreFingerprints.

Lemma multihashBytes_inj (code : N) (d1 d2 : list byte) :
  code < 2 ^ 63 ->
  len d1 <= multihash.MaxInt32 -> len d2 <= multihash.MaxInt32 ->
  multihashBytes code d1 = multihashBytes code d2 -> d1 = d2.
Proof.
  intros Hc H1 H2 E.
  pose proof (@multihash_Decode_bytes code d1 Hc H1) as D1.
  pose proof (@multihash_Decode_bytes code d2 Hc H2) as D2.
  rewrite E in D1. rewrite D1 in D2. now injection D2.
Qed.

Lemma certhash_inj (a b : list byte) :
  String "u" (base64.EncodeToString a) = String "u" (base64.EncodeToString b) ->
  a = b.
Proof.
  intros E.
  pose proof (multibase_Decode_Encode a) as Da.
  pose proof (multibase_Decode_Encode b) as Db.
  rewrite E in Da. rewrite Da in Db. now injection Db.
Qed.

(** The prologue of each role, for SHA-256 and a local fingerprint that
    is the SHA-256 fingerprint of the local certificate. *)
Lemma generateNoisePrologue_sha256
      (w : World) (t : WebRTCTransport) (pc : PeerConnection)
      (inbound : bool) (fp : DTLSFingerprint) (localDer : list byte) :
  x509_reject w (GetRemoteCertificate pc) = None ->
  Available (hashes w) SHA256 = true ->
  getCertificateFingerprint t = Ok fp ->
  Value fp = encoding.EncodeInterspersedHex (Sum (hashes w) SHA256 localDer) ->
  generateNoisePrologue w t pc SHA256 inbound =
  Ok (prologuePrefix ++
      if inbound
      then multihashSha256 (hashes w) (GetRemoteCertificate pc)
           ++ multihashSha256 (hashes w) localDer
      else multihashSha256 (hashes w) localDer
           ++ multihashSha256 (hashes w) (GetRemoteCertificate pc)).
Proof.
  intros Hx Hav Hfp Hv.
  unfold generateNoisePrologue, ParseCertificate, internal.Fingerprint.
  rewrite Hx, Hfp. cbn [Raw]. rewrite Hav. cbn [negb].
  rewrite Hv, Decode_EncodeInterspersedHex, !multihash_Encode_bytes.
  unfold prologuePrefix, multihashSha256.
  destruct inbound; now rewrite <- app_assoc.
Qed.

End MoreFingerprints.

(** X13.  The dialer and the listener of one connection compute the same
    prologue: when each peer's remote certificate is the other's own, its
    local fingerprint is the SHA-256 fingerprint of its own certificate
    and both pass SHA-256, [generateNoisePrologue] with [inbound = false]
    on one side and with [inbound = true] on the other succeed with equal
    bytes. *)
Theorem X13_both_peers_same_prologue :
  forall (wA wB : World) (tA tB : WebRTCTransport) (pcA pcB : PeerConnection)
         (fpA fpB : DTLSFingerprint) (derA derB : list byte),
    Sum (hashes wA) SHA256 = Sum (hashes wB) SHA256 ->
    Available (hashes wA) SHA256 = true ->
    Available (hashes wB) SHA256 = true ->
    getCertificateFingerprint tA = Ok fpA ->
    Value fpA = encoding.EncodeInterspersedHex (Sum (hashes wA) SHA256 derA) ->
    getCertificateFingerprint tB = Ok fpB ->
    Value fpB = encoding.EncodeInterspersedHex (Sum (hashes wB) SHA256 derB) ->
    GetRemoteCertificate pcA = derB -> GetRemoteCertificate pcB = derA ->
    x509_reject wA derB = None -> x509_reject wB derA = None ->
    exists prologue,
      generateNoisePrologue wA tA pcA SHA256 false = Ok prologue /\
      generateNoisePrologue wB tB pcB SHA256 true = Ok prologue.
Proof.
  intros wA wB tA tB pcA pcB fpA fpB derA derB HS AvA AvB FA VA FB VB RA RB XA XB.
  rewrite <- RA in XA. rewrite <- RB in XB.
  rewrite (@generateNoisePrologue_sha256 wA tA pcA false fpA derA XA AvA FA VA).
  rewrite (@generateNoisePrologue_sha256 wB tB pcB true fpB derB XB AvB FB VB).
  eexists. split; [reflexivity|].
  unfold multihashSha256. now rewrite RA, RB, HS.
Qed.

Lemma X13_both_peers_same_prologue_witness :
  exists prologue,
    generateNoisePrologue Testing.testWorld
                          (Testing.testTransport Testing.secured)
                          Testing.testPc SHA256 false = Ok prologue /\
    generateNoisePrologue Testing.testWorld MoreTesting.peerTransport
                          MoreTesting.peerPc SHA256 true = Ok prologue.
Proof.
  apply (@X13_both_peers_same_prologue
           Testing.testWorld Testing.testWorld
           (Testing.testTransport Testing.secured) MoreTesting.peerTransport
           Testing.testPc MoreTesting.peerPc
           Testing.localFingerprint MoreTesting.peerFingerprint
           Testing.localDer Testing.remoteDer); vm_compute; reflexivity.
Defined.

(** X14.  [EncodeDTLSFingerprint] tells digests apart: two fingerprints
    that it encodes to the same string carry the same digest bytes
    (of at most [MaxInt32] bytes), however their values are written. *)
Theorem X14_encode_dtls_fingerprint_injective :
  forall (fp1 fp2 : DTLSFingerprint) (d1 d2 : list byte) (s : string),
    encoding.DecodeInterspersedHexFromASCIIString (Value fp1) = Ok d1 ->
    encoding.DecodeInterspersedHexFromASCIIString (Value fp2) = Ok d2 ->
    len d1 <= multihash.MaxInt32 -> len d2 <= multihash.MaxInt32 ->
    internal.EncodeDTLSFingerprint fp1 = Ok s ->
    internal.EncodeDTLSFingerprint fp2 = Ok s ->
    d1 = d2.
Proof.
  intros fp1 fp2 d1 d2 s H1 H2 L1 L2 E1 E2.
  rewrite (@EncodeDTLSFingerprint_eq fp1 d1 H1) in E1.
  rewrite (@EncodeDTLSFingerprint_eq fp2 d2 H2) in E2.
  rewrite <- E2 in E1.
  apply (@multihashBytes_inj multihash.SHA2_256 d1 d2 SHA2_256_lt L1 L2).
  apply certhash_inj. exact (Ok_inj E1).
Qed.

Lemma X14_encode_dtls_fingerprint_injective_witness :
  Sum Testing.testHashes SHA256 Testing.localDer
  = Sum Testing.testHashes SHA256 Testing.localDer.
Proof.
  apply (@X14_encode_dtls_fingerprint_injective
           Testing.localFingerprint MoreTesting.upperFingerprint
           (Sum Testing.testHashes SHA256 Testing.localDer)
           (Sum Testing.testHashes SHA256 Testing.localDer)
           (String "u" (base64.EncodeToString
                          (multihashBytes multihash.SHA2_256
                             (Sum Testing.testHashes SHA256 Testing.localDer)))));
    vm_compute; try reflexivity; discriminate.
Defined.

(** X15.  When the certhash of the remote address cannot be decoded (it
    is missing, is not multibase or is not a multihash), [Dial] returns no
    connection and the decoding error wrapped in ["decode fingerprint: %w"];
    it has opened the scope and released it once, and has done nothing
    else: no peer connection was created. *)
Theorem X15_dial_undecodable_certhash :
  forall (w : World) (t : WebRTCTransport) (ctx : Context)
         (remoteMultiaddr : ma.Multiaddr) (p : PeerID) (tr : list event)
         (scope : ConnManagementScope) (err : error),
    OpenConnection (rcmgr t) DirOutbound false remoteMultiaddr = Ok scope ->
    SetPeer scope p = None ->
    internal.DecodeRemoteFingerprint remoteMultiaddr = Err err ->
    Dial w t ctx remoteMultiaddr p tr =
    ((None, Some (fmtErrorf "decode fingerprint: %w" (Some err) [])),
     tr ++ [EvOpenConnection (scopeId scope); EvScopeDone (scopeId scope)]).
Proof.
  intros w t ctx addr p tr scope err HO HP HD.
  unfold Dial. rewrite HO, HP.
  unfold dial, dialBody, bind, orWrap. rewrite HD. cbn.
  now rewrite <- app_assoc.
Qed.

Lemma X15_dial_undecodable_certhash_witness :
  Dial Testing.testWorld (Testing.testTransport Testing.secured) Testing.testCtx
       Testing.baseAddr Testing.remotePeer [] =
  ((None, Some (fmtErrorf "decode fingerprint: %w"
                          (Some ma.ErrProtocolNotFound) [])),
   [] ++ [EvOpenConnection (scopeId Testing.testScope);
          EvScopeDone (scopeId Testing.testScope)]).
Proof.
  apply (@X15_dial_undecodable_certhash
           Testing.testWorld (Testing.testTransport Testing.secured)
           Testing.testCtx Testing.baseAddr Testing.remotePeer []
           Testing.testScope ma.ErrProtocolNotFound); reflexivity.
Defined.

(* ================================================================== *)
(** * Listening *)

Section ListenShape.

Import Notions Listening.

Variable lw : ListenWorld.
Variable t : WebRTCTransport.

Lemma componentEqual_eq (c d : ma.Component) :
  componentEqual c d = true -> c = d.
Proof.
  unfold componentEqual. destruct c as [pc vc], d as [pd vd]. cbn.
  intros H. apply andb_prop in H as [H1 H2].
  apply N.eqb_eq in H1. apply String.eqb_eq in H2. now subst.
Qed.

Lemma Listen_shape (head : ma.Multiaddr) (last : ma.Component)
      (tr : list ListenEvent) :
  exists added,
    snd (Listen lw t head last tr) = tr ++ added /\
    match fst (Listen lw t head last tr) with
    | Returns (Some l, None) =>
        last = webrtcComponent /\ head <> [] /\
        exists socket base addr, listening lw t head l socket base addr added
    | Returns (None, Some _) => notListening added
    | Returns _ => False
    | Panics => last = webrtcComponent /\ head = [] /\ added = []
    end.
Proof.
  unfold Listen, notListening.
  destruct (componentEqual last webrtcComponent) eqn:HE; cbn [negb].
  2:{ exists []. rewrite app_nil_r. cbn. auto. }
  apply componentEqual_eq in HE.
  destruct head as [|c0 head0] eqn:HH.
  { exists []. rewrite app_nil_r. cbn. auto. }
  rewrite <- HH.
  assert (HNE : head <> []) by (rewrite HH; discriminate).
  destruct (DialArgs (net lw) head) as [[nw host]|e] eqn:HA.
  2:{ exists []. rewrite app_nil_r. cbn. auto. }
  destruct (ResolveUDPAddr (net lw) nw host) as [udpAddr|e] eqn:HR.
  2:{ exists []. rewrite app_nil_r. cbn. auto. }
  destruct (ListenUDP lw nw udpAddr) as [socket|e] eqn:HL.
  2:{ exists []. rewrite app_nil_r. cbn. auto. }
  unfold listenSocket.
  destruct (FromNetAddr (net lw) (LocalAddr socket)) as [base|e] eqn:HF.
  2:{ eexists. rewrite <- app_assoc. cbn. split; [reflexivity|]. eauto. }
  destruct (getCertificateFingerprint t) as [fp|e] eqn:HG.
  2:{ eexists. rewrite <- app_assoc. cbn. split; [reflexivity|]. eauto. }
  destruct (internal.EncodeDTLSFingerprint fp) as [s|e] eqn:HEn.
  2:{ eexists. rewrite <- app_assoc. cbn. split; [reflexivity|]. eauto. }
  destruct (ma.NewMultiaddr_webrtc_certhash s) as [cert|e] eqn:HN.
  2:{ eexists. rewrite <- app_assoc. cbn. split; [reflexivity|]. eauto. }
  destruct (newListener lw _ socket (webrtcConfig t)) as [l|e] eqn:HNl.
  - eexists. rewrite <- app_assoc. cbn. split; [reflexivity|].
    split; [exact HE|]. split; [exact HNE|].
    exists socket, base, (ma.Encapsulate base cert).
    exists nw, host, udpAddr, fp, s, cert. repeat split; assumption.
  - eexists. rewrite <- !app_assoc. cbn. split; [reflexivity|]. eauto.
Qed.

(** The multiaddress made for a digest that a multihash can hold. *)
Lemma NewMultiaddr_webrtc_certhash_encoded (digest : list byte) :
  len digest <= multihash.MaxInt32 ->
  ma.NewMultiaddr_webrtc_certhash
    (String "u" (base64.EncodeToString
                   (multihashBytes multihash.SHA2_256 digest)))
  = Ok [ webrtcComponent;
         {| ma.Protocol := ma.P_CERTHASH;
            ma.Value := String "u" (base64.EncodeToString
                          (multihashBytes multihash.SHA2_256 digest)) |} ].
Proof.
  intros Hl. unfold ma.NewMultiaddr_webrtc_certhash, ma.certHashStB.
  rewrite multibase_Decode_Encode.
  rewrite (@multihash_Decode_bytes multihash.SHA2_256 digest SHA2_256_lt Hl).
  reflexivity.
Qed.

Lemma DecodeRemoteFingerprint_encoded (base : ma.Multiaddr) (digest : list byte) :
  len digest <= multihash.MaxInt32 -> noCerthash base ->
  internal.DecodeRemoteFingerprint
    (base ++ [ webrtcComponent;
               {| ma.Protocol := ma.P_CERTHASH;
                  ma.Value := String "u" (base64.EncodeToString
                                (multihashBytes multihash.SHA2_256 digest)) |} ])
  = Ok {| multihash.Code := multihash.SHA2_256;
          multihash.Name := "sha2-256";
          multihash.Length := len digest;
          multihash.Digest := digest |}.
Proof.
  intros Hl Hb. unfold internal.DecodeRemoteFingerprint.
  rewrite (@ValueForProtocol_app base _ ma.P_CERTHASH Hb).
  cbn [ma.ValueForProtocol webrtcComponent ma.Protocol ma.Value].
  change (ma.P_WEBRTC =? ma.P_CERTHASH) with false.
  change (ma.P_CERTHASH =? ma.P_CERTHASH) with true. cbv iota.
  rewrite multibase_Decode_Encode.
  exact (@multihash_Decode_bytes multihash.SHA2_256 digest SHA2_256_lt Hl).
Qed.

End ListenShape.

(** X16.  For an address of two components or more, [Listen] returns
    either a listener and a nil error or no listener and an error, and a
    listener only when the last component is exactly [/webrtc].  For any
    other last component it returns the error ["must listen on webrtc
    multiaddr"] before it touches the network, whatever comes before this
    component.  For the address [/webrtc] alone it panics: it passes the
    nil address before the last component to [manet.DialArgs]. *)
Theorem X16_listen_only_on_webrtc :
  forall (lw : Listening.ListenWorld) (t : WebRTCTransport)
         (head : ma.Multiaddr) (last : ma.Component)
         (tr : list Listening.ListenEvent),
    (last <> Listening.webrtcComponent ->
     Listening.Listen lw t head last tr =
     (Listening.Returns
        (None, Some (errorsNew "must listen on webrtc multiaddr")), tr)) /\
    (last = Listening.webrtcComponent -> head = [] ->
     Listening.Listen lw t head last tr = (Listening.Panics, tr)) /\
    (head <> [] ->
     (exists l, fst (Listening.Listen lw t head last tr)
                = Listening.Returns (Some l, None) /\
                last = Listening.webrtcComponent) \/
     (exists err, fst (Listening.Listen lw t head last tr)
                  = Listening.Returns (None, Some err))).
Proof.
  intros lw t head last tr. split; [|split].
  - intros Hn. unfold Listening.Listen.
    destruct (Listening.componentEqual last Listening.webrtcComponent) eqn:E.
    + apply componentEqual_eq in E. contradiction.
    + reflexivity.
  - intros -> ->. reflexivity.
  - intros Hh.
    destruct (Listen_shape lw t head last tr) as (added & _ & H).
    destruct (fst (Listening.Listen lw t head last tr))
      as [[[l|] [e|]]|]; try contradiction.
    + left. destruct H as (H & _). eauto.
    + right. eauto.
    + destruct H as (_ & H & _). contradiction.
Qed.

Lemma X16_listen_only_on_webrtc_witness :
  Listening.Listen MoreTesting.testListenWorld
                   (Testing.testTransport Testing.secured)
                   [ {| ma.Protocol := ma.P_IP4; ma.Value := "127.0.0.1" |} ]
                   {| ma.Protocol := ma.P_UDP; ma.Value := "4242" |} [] =
  (Listening.Returns (None, Some (errorsNew "must listen on webrtc multiaddr")),
   []) /\
  Listening.Listen MoreTesting.testListenWorld
                   (Testing.testTransport Testing.secured)
                   [] Listening.webrtcComponent [] = (Listening.Panics, []) /\
  ((exists l, fst (Listening.Listen MoreTesting.testListenWorld
                     (Testing.testTransport Testing.secured)
                     Testing.baseAddr Listening.webrtcComponent [])
              = Listening.Returns (Some l, None) /\
              Listening.webrtcComponent = Listening.webrtcComponent) \/
   (exists err, fst (Listening.Listen MoreTesting.testListenWorld
                       (Testing.testTransport Testing.secured)
                       Testing.baseAddr Listening.webrtcComponent [])
                = Listening.Returns (None, Some err))).
Proof.
  split; [|split].
  - apply (X16_listen_only_on_webrtc MoreTesting.testListenWorld
             (Testing.testTransport Testing.secured)
             [ {| ma.Protocol := ma.P_IP4; ma.Value := "127.0.0.1" |} ]
             {| ma.Protocol := ma.P_UDP; ma.Value := "4242" |} []).
    discriminate.
  - apply (X16_listen_only_on_webrtc MoreTesting.testListenWorld
             (Testing.testTransport Testing.secured)
             [] Listening.webrtcComponent []); reflexivity.
  - apply (X16_listen_only_on_webrtc MoreTesting.testListenWorld
             (Testing.testTransport Testing.secured)
             Testing.baseAddr Listening.webrtcComponent []).
    discriminate.
Defined.

(** X17.  [Listen] opens at most one socket.  When it fails, the socket
    it has opened, if any, is closed by it exactly once, after it was
    opened; when it succeeds, the socket is left open; when it panics, no
    socket was opened. *)
Theorem X17_listen_socket_closed_on_failure :
  forall (lw : Listening.ListenWorld) (t : WebRTCTransport)
         (head : ma.Multiaddr) (last : ma.Component)
         (tr : list Listening.ListenEvent),
    exists added,
      snd (Listening.Listen lw t head last tr) = tr ++ added /\
      match fst (Listening.Listen lw t head last tr) with
      | Listening.Returns (Some l, _) =>
          exists sock, Notions.socketEvents added = [Listening.EvListenUDP sock]
      | Listening.Returns (None, _) =>
          Notions.socketEvents added = [] \/
          exists sock,
            Notions.socketEvents added
            = [Listening.EvListenUDP sock; Listening.EvSocketClose sock]
      | Listening.Panics => added = []
      end.
Proof.
  intros lw t head last tr.
  destruct (Listen_shape lw t head last tr) as (added & Htr & H).
  exists added. split; [exact Htr|].
  destruct (fst (Listening.Listen lw t head last tr)) as [[[l|] [e|]]|];
    try contradiction.
  - destruct H as (_ & _ & socket & base & addr & L).
    destruct L as (nw & host & u & fp & s & cert & L).
    destruct L as (_ & _ & _ & _ & _ & _ & _ & _ & _ & ->).
    exists (Listening.sockId socket). reflexivity.
  - destruct H as [->|(sock & [->|(addr & ->)])];
      [left; reflexivity|right; exists sock; reflexivity..].
  - now destruct H as (_ & _ & ->).
Qed.

(** X18.  The multiaddress that a successful [Listen] hands to the
    listener is the address of its socket followed by [/webrtc] and a
    certhash, and [DecodeRemoteFingerprint] decodes it to the sha2-256
    multihash of the digest in the transport's certificate fingerprint
    (a digest of at most [MaxInt32] bytes, and a socket address without a
    certhash of its own). *)
Theorem X18_listen_address_carries_fingerprint :
  forall (lw : Listening.ListenWorld) (t : WebRTCTransport)
         (head : ma.Multiaddr) (last : ma.Component)
         (tr tr' : list Listening.ListenEvent) (l : Listening.Listener)
         (fp : DTLSFingerprint) (digest : list byte),
    Listening.Listen lw t head last tr
    = (Listening.Returns (Some l, None), tr') ->
    getCertificateFingerprint t = Ok fp ->
    encoding.DecodeInterspersedHexFromASCIIString (Value fp) = Ok digest ->
    len digest <= multihash.MaxInt32 ->
    (forall a base, FromNetAddr (Listening.net lw) a = Ok base ->
                    noCerthash base) ->
    exists socket base v,
      FromNetAddr (Listening.net lw) (Listening.LocalAddr socket) = Ok base /\
      let addr := base ++ [ Listening.webrtcComponent;
                            {| ma.Protocol := ma.P_CERTHASH; ma.Value := v |} ] in
      tr' = tr ++ [Listening.EvListenUDP (Listening.sockId socket);
                   Listening.EvNewListener addr (Listening.sockId socket)] /\
      Listening.newListener lw addr socket (webrtcConfig t) = Ok l /\
      internal.DecodeRemoteFingerprint addr
      = Ok {| multihash.Code := multihash.SHA2_256;
              multihash.Name := "sha2-256";
              multihash.Length := len digest;
              multihash.Digest := digest |}.
Proof.
  intros lw t head last tr tr' l fp digest HL Hfp Hd Hl Hb.
  destruct (Listen_shape lw t head last tr) as (added & Htr & H).
  rewrite HL in Htr, H. cbn [fst snd] in Htr, H.
  destruct H as (_ & _ & socket & base & addr & L).
  destruct L as (nw & host & u & fp' & s & cert & L).
  destruct L as (_ & _ & _ & HF & Hfp' & HE & HN & -> & HNl & ->).
  rewrite Hfp in Hfp'. injection Hfp' as <-.
  rewrite (@EncodeDTLSFingerprint_eq fp digest Hd) in HE.
  apply Ok_inj in HE. subst s.
  rewrite (@NewMultiaddr_webrtc_certhash_encoded digest Hl) in HN.
  apply Ok_inj in HN. subst cert.
  exists socket, base. eexists. split; [exact HF|]. cbv zeta.
  split; [exact Htr|]. split; [exact HNl|].
  exact (@DecodeRemoteFingerprint_encoded base digest Hl (Hb _ _ HF)).
Qed.

Lemma X18_listen_address_carries_fingerprint_witness :
  exists socket base v,
    FromNetAddr (Listening.net MoreTesting.testListenWorld)
                (Listening.LocalAddr socket) = Ok base /\
    let addr := base ++ [ Listening.webrtcComponent;
                          {| ma.Protocol := ma.P_CERTHASH; ma.Value := v |} ] in
    snd (Listening.Listen MoreTesting.testListenWorld
                          (Testing.testTransport Testing.secured)
                          Testing.baseAddr Listening.webrtcComponent [])
    = [] ++ [Listening.EvListenUDP (Listening.sockId socket);
             Listening.EvNewListener addr (Listening.sockId socket)] /\
    Listening.newListener MoreTesting.testListenWorld addr socket
      (webrtcConfig (Testing.testTransport Testing.secured)) = Ok 1 /\
    internal.DecodeRemoteFingerprint addr
    = Ok {| multihash.Code := multihash.SHA2_256;
            multihash.Name := "sha2-256";
            multihash.Length :=
              len (Sum Testing.testHashes SHA256 Testing.localDer);
            multihash.Digest := Sum Testing.testHashes SHA256 Testing.localDer |}.
Proof.
  apply (@X18_listen_address_carries_fingerprint
           MoreTesting.testListenWorld (Testing.testTransport Testing.secured)
           Testing.baseAddr Listening.webrtcComponent [] _ 1
           Testing.localFingerprint
           (Sum Testing.testHashes SHA256 Testing.localDer)).
  - vm_compute. reflexivity.
  - reflexivity.
  - vm_compute. reflexivity.
  - vm_compute. discriminate.
  - intros a base H. vm_compute in H. injection H as <-. reflexivity.
Defined.

(* ================================================================== *)
(** * The dial matcher *)

Section DialMatcher.

Import mafmt.

(** [mafmt.UDP] of the library matches an IP protocol and [udp]. *)
Lemma mafmtUDP_ends_in_udp (pcs rem : list N) :
  partialMatch MoreTesting.mafmtUDP pcs = Some rem ->
  exists pre, pcs = pre ++ ma.P_UDP :: rem.
Proof.
  unfold MoreTesting.mafmtUDP, MoreTesting.mafmtIP. cbn [partialMatch].
  destruct (Nat.ltb _ _); [discriminate|].
  destruct pcs as [|a [|b pcs]]; cbn.
  - discriminate.
  - destruct (a =? ma.P_IP4); [discriminate|].
    destruct (a =? MoreTesting.P_IP6); discriminate.
  - destruct (a =? ma.P_IP4); [|destruct (a =? MoreTesting.P_IP6); [|discriminate]];
      (destruct (N.eqb_spec b ma.P_UDP) as [->|]; [|discriminate];
       intros [= <-]; exists [a]; reflexivity).
Qed.

End DialMatcher.

(** X19.  [CanDial] accepts only addresses whose protocols end in
    [udp, udp, webrtc, certhash]: the matcher asks for the protocol [udp]
    once more after the pattern [mafmt.UDP], which itself matches a
    sequence of protocols ending in [udp]. *)
Theorem X19_can_dial_needs_udp_twice :
  forall (UDP : mafmt.Pattern) (t : WebRTCTransport) (addr : ma.Multiaddr),
    (forall pcs rem, mafmt.partialMatch UDP pcs = Some rem ->
                     exists pre, pcs = pre ++ ma.P_UDP :: rem) ->
    Listening.CanDial UDP t addr = true ->
    exists pre,
      map ma.Protocol addr
      = pre ++ [ma.P_UDP; ma.P_UDP; ma.P_WEBRTC; ma.P_CERTHASH].
Proof.
  intros UDP t addr HU.
  unfold Listening.CanDial, mafmt.Matches, Listening.dialMatcher.
  cbn [mafmt.partialMatch].
  destruct (Nat.ltb _ _); [discriminate|].
  destruct (mafmt.partialMatch UDP (map ma.Protocol addr)) as [r1|] eqn:E1;
    cbv iota; [|discriminate].
  destruct (HU _ _ E1) as (pre & ->).
  destruct r1 as [|c1 r2]; [discriminate|].
  destruct (N.eqb_spec c1 ma.P_UDP) as [->|]; [|discriminate].
  destruct r2 as [|c2 r3]; [discriminate|].
  destruct (N.eqb_spec c2 ma.P_WEBRTC) as [->|]; [|discriminate].
  destruct r3 as [|c3 r4]; [discriminate|].
  destruct (N.eqb_spec c3 ma.P_CERTHASH) as [->|]; [|discriminate].
  destruct r4; [|discriminate]. intros _. exists pre. reflexivity.
Qed.

Lemma X19_can_dial_needs_udp_twice_witness :
  exists pre,
    map ma.Protocol MoreTesting.doubleUdpAddr
    = pre ++ [ma.P_UDP; ma.P_UDP; ma.P_WEBRTC; ma.P_CERTHASH].
Proof.
  apply (@X19_can_dial_needs_udp_twice MoreTesting.mafmtUDP
           (Testing.testTransport Testing.secured) MoreTesting.doubleUdpAddr).
  - exact mafmtUDP_ends_in_udp.
  - reflexivity.
Defined.

(* ================================================================== *)
(** * The listen addresses of the swarm *)

Section SwarmAddresses.

Import swarm Notions.

(** One iteration of the loop of [listenAddressesNoLock]. *)
Lemma ForEach_strip (a : ma.Multiaddr) :
  ForEach a
          (fun c a0 =>
             (false,
              if ma.Protocol c =? P_IP6ZONE then snd (SplitFirst a0) else a0))
          a
  = stripZone a.
Proof. destruct a as [|c rest]; reflexivity. Qed.

Lemma listenAddresses_fold (ls : list Listener) :
  forall acc : list ma.Multiaddr,
    fold_left
      (fun addrs l =>
         let a := Multiaddr l in
         let a :=
           ForEach a
                   (fun c a =>
                      (false,
                       if ma.Protocol c =? P_IP6ZONE then snd (SplitFirst a)
                       else a))
                   a in
         match a with
         | [] => addrs
         | _ :: _ => addrs ++ [a]
         end)
      ls acc
    = acc ++ filter nonEmpty (map (fun l => stripZone (Multiaddr l)) ls).
Proof.
  induction ls as [|l ls IH]; intros acc; cbn [fold_left map filter].
  - now rewrite app_nil_r.
  - rewrite IH. cbv zeta. rewrite ForEach_strip.
    destruct (stripZone (Multiaddr l)) as [|c rest]; cbn [nonEmpty].
    + reflexivity.
    + now rewrite <- app_assoc.
Qed.

Lemma cache_hit (resolve : list ma.Multiaddr -> result (list ma.Multiaddr))
      (others : Swarm -> Swarm) (now1 now2 now3 : Z) (s : Swarm) :
  (now1 <= cacheEOL (listeners s))%Z ->
  InterfaceListenAddresses resolve others now1 now2 now3 s
  = (s, Ok (ifaceListenAddres (listeners s))).
Proof.
  intros H. unfold InterfaceListenAddresses, After.
  destruct (Z.ltb_spec (cacheEOL (listeners s)) now1); [lia|reflexivity].
Qed.

End SwarmAddresses.

(** X20.  [ListenAddresses] returns, in the order in which the listeners
    are visited, the address of every listener without its first
    component when that is an ip6zone, and leaves out an address that was
    nothing but this component; no other component of an address is
    examined or removed. *)
Theorem X20_listen_addresses :
  forall s : swarm.Swarm,
    Forall (fun l => swarm.Multiaddr l <> []) (swarm.m (swarm.listeners s)) ->
    swarm.ListenAddresses s
    = filter Notions.nonEmpty
             (map (fun l => Notions.stripZone (swarm.Multiaddr l))
                  (swarm.m (swarm.listeners s))).
Proof.
  intros s _. unfold swarm.ListenAddresses, swarm.listenAddressesNoLock.
  now rewrite listenAddresses_fold.
Qed.

Lemma X20_listen_addresses_witness :
  swarm.ListenAddresses MoreTesting.testSwarm
  = filter Notions.nonEmpty
           (map (fun l => Notions.stripZone (swarm.Multiaddr l))
                (swarm.m (swarm.listeners MoreTesting.testSwarm))).
Proof.
  apply (@X20_listen_addresses MoreTesting.testSwarm).
  repeat constructor; discriminate.
Defined.

(** X21.  The cache of [InterfaceListenAddresses] is coherent: the
    addresses a call returns are the ones the swarm holds in its cache
    afterwards, and every call made no later than the cache's end of life
    returns the same addresses without resolving anything and without
    changing the swarm. *)
Theorem X21_interface_addresses_cached :
  forall (resolve : list ma.Multiaddr -> result (list ma.Multiaddr))
         (others : swarm.Swarm -> swarm.Swarm) (now1 now2 now3 : Z)
         (s s' : swarm.Swarm) (addrs : list ma.Multiaddr),
    swarm.InterfaceListenAddresses resolve others now1 now2 now3 s
    = (s', Ok addrs) ->
    swarm.ifaceListenAddres (swarm.listeners s') = addrs /\
    forall (resolve' : list ma.Multiaddr -> result (list ma.Multiaddr))
           (others' : swarm.Swarm -> swarm.Swarm) (now1' now2' now3' : Z),
      (now1' <= swarm.cacheEOL (swarm.listeners s'))%Z ->
      swarm.InterfaceListenAddresses resolve' others' now1' now2' now3' s'
      = (s', Ok addrs).
Proof.
  intros resolve others now1 now2 now3 s s' addrs H.
  assert (C : swarm.ifaceListenAddres (swarm.listeners s') = addrs).
  { revert H. unfold swarm.InterfaceListenAddresses.
    destruct (negb _); [now intros [= <- <-]|].
    destruct (swarm.After now2 _); [|now intros [= <- <-]].
    destruct (Nat.ltb _ _); [|now intros [= <- <-]].
    destruct (resolve _); [now intros [= <- <-]|discriminate]. }
  split; [exact C|].
  intros resolve' others' now1' now2' now3' Hn.
  rewrite (@cache_hit resolve' others' now1' now2' now3' s' Hn).
  now rewrite C.
Qed.

Lemma X21_interface_addresses_cached_witness :
  swarm.InterfaceListenAddresses MoreTesting.resolveFails (fun s => s)
    (61 * Second) (62 * Second) (63 * Second)
    (fst (swarm.InterfaceListenAddresses MoreTesting.resolveSame (fun s => s)
            (1 * Second) (1 * Second) (2 * Second) MoreTesting.testSwarm))
  = (fst (swarm.InterfaceListenAddresses MoreTesting.resolveSame (fun s => s)
            (1 * Second) (1 * Second) (2 * Second) MoreTesting.testSwarm),
     Ok (swarm.ListenAddresses MoreTesting.testSwarm)).
Proof.
  apply (@X21_interface_addresses_cached MoreTesting.resolveSame (fun s => s)
           (1 * Second)%Z (1 * Second)%Z (2 * Second)%Z MoreTesting.testSwarm
           _ (swarm.ListenAddresses MoreTesting.testSwarm)).
  - vm_compute. reflexivity.
  - vm_compute. discriminate.
Defined.
